(** * sg-admin-backend: the Express application (accounts, whitelist,
      password reset and file registry) as a state-passing model.

    The model follows the route handlers of the server module one by one.
    The MySQL tables are lists of rows in insertion order, every SQL
    statement the handlers send is a function on the database, and a
    handler is a computation in a small state-and-exception monad over
    the [World] (database, upload directory, clock, configuration and the
    schedule of what the environment does at each database round trip).

    The libraries the handlers call (bcrypt, jsonwebtoken) and the
    collation MySQL compares VARCHAR columns with are the fields of the
    class [Externals]: the theorems hold for every implementation.  A
    small executable instance, [toy], is used to run the handlers on
    concrete requests. *)

From Stdlib Require Import String Ascii List ZArith Bool Lia.
From Stdlib Require Import Sorted.
Import ListNotations.
Local Open Scope string_scope.
Local Open Scope Z_scope.

(** ** Values exchanged with the client *)

#[local] Unset Elimination Schemes.
Inductive json : Type :=
| JNull
| JBool (b : bool)
| JNum (n : Z)
| JStr (s : string)
| JArr (items : list json)
| JObj (fields : list (string * json)).
#[local] Set Elimination Schemes.

(** [res.status(c).json(b)]; a bare [res.json(b)] has status 200. *)
Record Response := mkResponse { status : Z; body : json }.

Definition err_body (msg : string) : json := JObj [("error", JStr msg)].
Definition msg_body (msg : string) : json := JObj [("message", JStr msg)].

(** A JavaScript [Error]: mysql2 errors carry a [code], the others do not. *)
Record Error := mkError { err_code : option string; err_message : string }.

(** [req.file] as multer leaves it. *)
Record UploadedFile := mkUploadedFile { originalname : string; path : string }.

(** The parts of an Express request the handlers read.  A body field that
    is missing is [undefined] ([None]).  The [:id] path parameter is held
    as the number MySQL compares the INT column with. *)
Record Request := mkRequest {
  headers_authorization : option string;
  body_email : option string;
  body_password : option string;
  body_token : option string;
  body_newPassword : option string;
  file : option UploadedFile;
  params_id : Z;
  params_email : string
}.

Definition empty_request : Request :=
  mkRequest None None None None None None 0 "".

(** ** External libraries *)

Inductive jwt_error : Type :=
| JsonWebTokenError (msg : string)
| TokenExpiredError
| NotBeforeError.

(** The decoded payload of a token signed by this application. *)
Record Payload := mkPayload { userId : Z; iat : Z; exp : Z }.

Class Externals := {
  (** [bcrypt.hash(data, rounds)] with the salt it draws. *)
  bcrypt_hash : string -> Z -> string -> string;
  (** [bcrypt.compare(data, hash)]. *)
  bcrypt_compare : string -> string -> bool;
  (** [jwt.sign({userId}, secret, {expiresIn})] at a given time (seconds). *)
  jwt_sign : Z -> string -> Z -> Z -> string;
  (** [jwt.verify(token, secret)] at a given time: the payload or the
      error it throws. *)
  jwt_verify : string -> string -> Z -> jwt_error + Payload;
  (** The collation of the VARCHAR columns: two strings are equal for
      MySQL when their images are. *)
  collate : string -> string
}.

(** What jsonwebtoken guarantees and the claims on signed tokens rely on:
    a token verifies under the key that signed it from its issue up to
    (excluding) its expiry, and its compact form is a non-empty string
    without spaces. *)
Record JwtSound `{Externals} : Prop := {
  jwt_verify_sign : forall uid key t life t',
    t <= t' < t + life ->
    exists p, jwt_verify (jwt_sign uid key t life) key t' = inr p /\ userId p = uid;
  jwt_sign_compact : forall uid key t life,
    jwt_sign uid key t life <> "" /\
    forall c, In c (list_ascii_of_string (jwt_sign uid key t life)) -> c <> " "%char
}.

(** ** The database *)

Record User := mkUser { user_id : Z; user_email : string; user_password : string }.

Record FileRecord := mkFile { file_id : Z; file_filename : string; file_path : string }.

Record ResetToken := mkToken {
  rt_id : Z; rt_user_id : Z; rt_token : string; rt_expires_at : Z; rt_used : bool
}.

Record WhitelistEntry := mkWhitelist { wl_id : Z; wl_email : string; wl_created_at : Z }.

(** The four tables of [initDB] with their AUTO_INCREMENT counters. *)
Record DB := mkDB {
  users : list User;
  files : list FileRecord;
  password_reset_tokens : list ResetToken;
  whitelist_emails : list WhitelistEntry;
  next_user_id : Z;
  next_file_id : Z;
  next_token_id : Z;
  next_whitelist_id : Z
}.

Definition empty_db : DB := mkDB [] [] [] [] 1 1 1 1.

Definition set_users (d : DB) (us : list User) : DB :=
  mkDB us (files d) (password_reset_tokens d) (whitelist_emails d)
       (next_user_id d) (next_file_id d) (next_token_id d) (next_whitelist_id d).

Definition set_files (d : DB) (fs : list FileRecord) : DB :=
  mkDB (users d) fs (password_reset_tokens d) (whitelist_emails d)
       (next_user_id d) (next_file_id d) (next_token_id d) (next_whitelist_id d).

Definition set_tokens (d : DB) (ts : list ResetToken) : DB :=
  mkDB (users d) (files d) ts (whitelist_emails d)
       (next_user_id d) (next_file_id d) (next_token_id d) (next_whitelist_id d).

Definition set_whitelist (d : DB) (ws : list WhitelistEntry) : DB :=
  mkDB (users d) (files d) (password_reset_tokens d) ws
       (next_user_id d) (next_file_id d) (next_token_id d) (next_whitelist_id d).

(** ** SQL statements *)

Section Statements.
Context `{Externals}.

(** [column = ?]: a NULL parameter (an [undefined] value) equals nothing. *)
Definition sql_eq (column : string) (param : option string) : bool :=
  match param with
  | None => false
  | Some v => String.eqb (collate column) (collate v)
  end.

Definition dup_entry (value key : string) : Error :=
  mkError (Some "ER_DUP_ENTRY")
          ("Duplicate entry '" ++ value ++ "' for key '" ++ key ++ "'").

Definition bad_null (column : string) : Error :=
  mkError (Some "ER_BAD_NULL_ERROR") ("Column '" ++ column ++ "' cannot be null").

Definition no_referenced_row : Error :=
  mkError (Some "ER_NO_REFERENCED_ROW_2")
          "Cannot add or update a child row: a foreign key constraint fails".

Definition row_is_referenced : Error :=
  mkError (Some "ER_ROW_IS_REFERENCED_2")
          "Cannot delete or update a parent row: a foreign key constraint fails".

(** A statement reads the database and either fails, leaving it as it
    was, or returns a result and the database after it. *)
Definition Statement (A : Type) : Type := DB -> Error + (A * DB).

Definition select {R : Type} (table : DB -> list R) (where_ : R -> bool)
    : Statement (list R) :=
  fun d => inr (filter where_ (table d), d).

(** [SELECT 1 FROM whitelist_emails WHERE email = ?] *)
Definition select_whitelist_by_email (email : option string)
    : Statement (list WhitelistEntry) :=
  select whitelist_emails (fun e => sql_eq (wl_email e) email).

(** [SELECT * FROM users WHERE email = ?] *)
Definition select_users_by_email (email : option string) : Statement (list User) :=
  select users (fun u => sql_eq (user_email u) email).

(** [SELECT id, password FROM users WHERE id = ?] *)
Definition select_users_by_id (id : Z) : Statement (list User) :=
  select users (fun u => user_id u =? id).

(** [INSERT INTO users (email, password) VALUES (?, ?)]: email is
    NOT NULL and UNIQUE. *)
Definition insert_user (email : option string) (password : string) : Statement Z :=
  fun d =>
    match email with
    | None => inl (bad_null "email")
    | Some e =>
        if existsb (fun u => sql_eq (user_email u) email) (users d)
        then inl (dup_entry e "users.email")
        else
          let id := next_user_id d in
          inr (id, mkDB (users d ++ [mkUser id e password]) (files d)
                        (password_reset_tokens d) (whitelist_emails d)
                        (id + 1) (next_file_id d) (next_token_id d)
                        (next_whitelist_id d))
    end.

(** [UPDATE users SET password = ? WHERE id = ?]; the result is
    [affectedRows]. *)
Definition update_user_password (password : string) (id : Z) : Statement Z :=
  fun d =>
    inr (Z.of_nat (length (filter (fun u => user_id u =? id) (users d))),
         set_users d
           (map (fun u => if user_id u =? id
                          then mkUser (user_id u) (user_email u) password
                          else u) (users d))).

(** [SELECT id FROM files WHERE filename = ?] *)
Definition select_files_by_filename (filename : string) : Statement (list FileRecord) :=
  select files (fun f => sql_eq (file_filename f) (Some filename)).

(** [SELECT id, path FROM files WHERE id = ?] *)
Definition select_files_by_id (id : Z) : Statement (list FileRecord) :=
  select files (fun f => file_id f =? id).

(** [SELECT * FROM files] *)
Definition select_files : Statement (list FileRecord) :=
  select files (fun _ => true).

(** [INSERT INTO files (filename, path) VALUES (?, ?)]: filename is
    UNIQUE; the result is [insertId]. *)
Definition insert_file (filename path_ : string) : Statement Z :=
  fun d =>
    if existsb (fun f => sql_eq (file_filename f) (Some filename)) (files d)
    then inl (dup_entry filename "files.filename")
    else
      let id := next_file_id d in
      inr (id, mkDB (users d) (files d ++ [mkFile id filename path_])
                    (password_reset_tokens d) (whitelist_emails d)
                    (next_user_id d) (id + 1) (next_token_id d)
                    (next_whitelist_id d)).

(** [DELETE FROM files WHERE id = ?]; the result is [affectedRows]. *)
Definition delete_file_by_id (id : Z) : Statement Z :=
  fun d =>
    inr (Z.of_nat (length (filter (fun f => file_id f =? id) (files d))),
         set_files d (filter (fun f => negb (file_id f =? id)) (files d))).

(** [INSERT INTO password_reset_tokens (user_id, token, expires_at)
    VALUES (?, ?, DATE_ADD(NOW(), INTERVAL 15 MINUTE))]: user_id
    references users(id), used defaults to FALSE. *)
Definition insert_reset_token (uid : Z) (token : string) (now_ : Z) : Statement Z :=
  fun d =>
    if existsb (fun u => user_id u =? uid) (users d)
    then
      let id := next_token_id d in
      inr (id, mkDB (users d) (files d)
                    (password_reset_tokens d
                       ++ [mkToken id uid token (now_ + 15 * 60) false])
                    (whitelist_emails d)
                    (next_user_id d) (next_file_id d) (id + 1)
                    (next_whitelist_id d))
    else inl no_referenced_row.

(** The WHERE clause [token = ? AND used = FALSE AND expires_at > NOW()]. *)
Definition token_is_valid (token : option string) (now_ : Z) (t : ResetToken) : bool :=
  sql_eq (rt_token t) token && negb (rt_used t) && (now_ <? rt_expires_at t).

(** [SELECT * FROM password_reset_tokens WHERE token = ? AND used = FALSE
    AND expires_at > NOW()] *)
Definition select_valid_tokens (token : option string) (now_ : Z)
    : Statement (list ResetToken) :=
  select password_reset_tokens (token_is_valid token now_).

(** [UPDATE password_reset_tokens SET used = TRUE WHERE token = ?] *)
Definition update_token_used (token : option string) : Statement Z :=
  fun d =>
    inr (Z.of_nat (length (filter (fun t => sql_eq (rt_token t) token)
                                  (password_reset_tokens d))),
         set_tokens d
           (map (fun t => if sql_eq (rt_token t) token
                          then mkToken (rt_id t) (rt_user_id t) (rt_token t)
                                       (rt_expires_at t) true
                          else t) (password_reset_tokens d))).

(** [DELETE FROM whitelist_emails WHERE email = ?] *)
Definition delete_whitelist_by_email (email : string) : Statement Z :=
  fun d =>
    inr (Z.of_nat (length (filter (fun e => sql_eq (wl_email e) (Some email))
                                  (whitelist_emails d))),
         set_whitelist d
           (filter (fun e => negb (sql_eq (wl_email e) (Some email)))
                   (whitelist_emails d))).

(** *** Statements inside a transaction

    InnoDB (at its default isolation level) locks the rows and the key
    range a DELETE searched until the transaction ends; what another
    connection does to them waits for that end, so that after a COMMIT
    no row under such a key is left and after a ROLLBACK the other
    connection's work stands.  A transaction is therefore held as the
    keys its DELETEs searched: the rows under them are gone for its own
    statements, [commit] deletes by these keys and [rollback] forgets
    them.  A schedule may place a write to such rows inside the
    transaction; the database it ends in is the one reached when that
    write waits. *)
Record Txn := mkTxn {
  (** the user ids of [DELETE FROM password_reset_tokens WHERE user_id = ?] *)
  deleted_tokens_of : list Z;
  (** the ids of [DELETE FROM users WHERE id = ?] *)
  deleted_user_ids : list Z
}.

(** [START TRANSACTION] *)
Definition begin_txn : Txn := mkTxn [] [].

Definition TxStatement (A : Type) : Type := Txn -> DB -> Error + (A * Txn).

Definition key_in (key : Z) (keys : list Z) : bool := existsb (Z.eqb key) keys.

Definition visible_token (tx : Txn) (t : ResetToken) : bool :=
  negb (key_in (rt_user_id t) (deleted_tokens_of tx)).

Definition visible_user (tx : Txn) (u : User) : bool :=
  negb (key_in (user_id u) (deleted_user_ids tx)).

(** [SELECT id, password FROM users WHERE id = ?] on the connection. *)
Definition tx_select_users_by_id (id : Z) : TxStatement (list User) :=
  fun tx d =>
    inr (filter (fun u => (user_id u =? id) && visible_user tx u) (users d), tx).

(** [DELETE FROM password_reset_tokens WHERE user_id = ?] *)
Definition tx_delete_tokens_by_user (uid : Z) : TxStatement Z :=
  fun tx d =>
    let rows := filter (fun t => (rt_user_id t =? uid) && visible_token tx t)
                       (password_reset_tokens d) in
    inr (Z.of_nat (length rows),
         mkTxn (uid :: deleted_tokens_of tx) (deleted_user_ids tx)).

(** [DELETE FROM users WHERE id = ?]: refused while a token row that the
    transaction has not deleted references the user. *)
Definition tx_delete_user_by_id (id : Z) : TxStatement Z :=
  fun tx d =>
    let rows := filter (fun u => (user_id u =? id) && visible_user tx u) (users d) in
    match rows with
    | [] => inr (0, tx)
    | _ :: _ =>
        if existsb (fun t => (rt_user_id t =? id) && visible_token tx t)
                   (password_reset_tokens d)
        then inl row_is_referenced
        else inr (Z.of_nat (length rows),
                  mkTxn (deleted_tokens_of tx) (id :: deleted_user_ids tx))
    end.

(** What [COMMIT] makes of the database. *)
Definition apply_txn (tx : Txn) (d : DB) : DB :=
  set_users
    (set_tokens d (filter (visible_token tx) (password_reset_tokens d)))
    (filter (visible_user tx) (users d)).

End Statements.

(** ** The world a request runs in *)

(** What happens at one database round trip: other connections may
    commit their own work first, and the round trip itself may fail
    (connection lost, deadlock, timeout). *)
Record EnvEvent := mkEvent { concurrent : DB -> DB; fault : option Error }.

Definition quiet : EnvEvent := mkEvent (fun d => d) None.

Record World := mkWorld {
  db : DB;
  (** paths present in the upload directory *)
  disk : list string;
  (** the clock, in seconds *)
  now : Z;
  (** [process.env.JWT_SECRET] *)
  JWT_SECRET : string;
  (** the salt bcrypt draws while the request runs *)
  salt : string;
  (** one event per database round trip still to come; none left means
      an undisturbed run *)
  schedule : list EnvEvent
}.

Definition set_db (w : World) (d : DB) : World :=
  mkWorld d (disk w) (now w) (JWT_SECRET w) (salt w) (schedule w).

Definition set_disk (w : World) (paths : list string) : World :=
  mkWorld (db w) paths (now w) (JWT_SECRET w) (salt w) (schedule w).

Definition set_schedule (w : World) (evs : list EnvEvent) : World :=
  mkWorld (db w) (disk w) (now w) (JWT_SECRET w) (salt w) evs.

(** The database after the concurrent work of a list of events alone. *)
Definition concurrent_only (evs : list EnvEvent) (d : DB) : DB :=
  fold_left (fun acc ev => concurrent ev acc) evs d.

(** ** Asynchronous code with exceptions *)

Inductive Outcome (A : Type) : Type :=
| Return (a : A)
| Throw (e : Error).
Arguments Return {A} a.
Arguments Throw {A} e.

Definition M (A : Type) : Type := World -> Outcome A * World.

Definition ret {A} (a : A) : M A := fun w => (Return a, w).

Definition throw {A} (e : Error) : M A := fun w => (Throw e, w).

Definition bind {A B} (m : M A) (k : A -> M B) : M B :=
  fun w =>
    match m w with
    | (Return a, w') => k a w'
    | (Throw e, w') => (Throw e, w')
    end.

(** [try { m } catch (err) { handler err }] *)
Definition try_catch {A} (m : M A) (handler : Error -> M A) : M A :=
  fun w =>
    match m w with
    | (Return a, w') => (Return a, w')
    | (Throw e, w') => handler e w'
    end.

Declare Scope async_scope.
Delimit Scope async_scope with async.
Notation "x <- m ;; k" := (bind m (fun x => k))
  (at level 61, m at next level, right associativity) : async_scope.
Notation "m ;;; k" := (bind m (fun _ => k))
  (at level 61, right associativity) : async_scope.
Local Open Scope async_scope.

Definition get_world : M World := fun w => (Return w, w).

(** Reaching the database: the event scheduled for this round trip
    happens first. *)
Definition arrive (w : World) : option Error * World :=
  match schedule w with
  | [] => (None, w)
  | ev :: rest => (fault ev, set_schedule (set_db w (concurrent ev (db w))) rest)
  end.

(** One round trip: a failed one throws and changes nothing of its own. *)
Definition round_trip {A} (run : DB -> Error + (A * DB)) : M A :=
  fun w =>
    let (flt, w1) := arrive w in
    match flt with
    | Some e => (Throw e, w1)
    | None =>
        match run (db w1) with
        | inl e => (Throw e, w1)
        | inr (a, d') => (Return a, set_db w1 d')
        end
    end.

(** [pool.query(sql, params)]: each call is its own unit of work. *)
Definition pool_query {A} (stmt : Statement A) : M A := round_trip stmt.

(** [pool.getConnection()]: a round trip that sends no statement. *)
Definition pool_getConnection : M unit := round_trip (fun d => inr (tt, d)).

(** *** Code on a connection

    A connection taken from the pool carries the transaction it has
    open, if any; the handler's [try], [catch] and [finally] all act on
    that one connection. *)
Definition Connection : Type := option Txn.

Definition OnConn (A : Type) : Type :=
  Connection -> World -> Outcome A * Connection * World.

Definition on_ret {A} (a : A) : OnConn A := fun c w => (Return a, c, w).

Definition on_bind {A B} (m : OnConn A) (k : A -> OnConn B) : OnConn B :=
  fun c w =>
    match m c w with
    | (Return a, c', w') => k a c' w'
    | (Throw e, c', w') => (Throw e, c', w')
    end.

Definition on_try_catch {A} (m : OnConn A) (handler : Error -> OnConn A) : OnConn A :=
  fun c w =>
    match m c w with
    | (Return a, c', w') => (Return a, c', w')
    | (Throw e, c', w') => handler e c' w'
    end.

(** Code that does not use the connection. *)
Definition on_lift {A} (m : M A) : OnConn A :=
  fun c w => let (o, w') := m w in (o, c, w').

(** [conn.release()] at the end: the connection goes back to the pool
    as it is.  What a later user of the connection makes of a
    transaction left open is not part of this request. *)
Definition released {A} (body : OnConn A) : M A :=
  fun w => let '(o, _, w') := body None w in (o, w').

Declare Scope conn_scope.
Delimit Scope conn_scope with conn.
Notation "x <- m ;; k" := (on_bind m (fun x => k))
  (at level 61, m at next level, right associativity) : conn_scope.
Notation "m ;;; k" := (on_bind m (fun _ => k))
  (at level 61, right associativity) : conn_scope.

(** One round trip on the connection: a failed one throws and leaves
    the transaction as it was. *)
Definition conn_round_trip {A}
    (run : Connection -> DB -> Error + (A * Connection * DB)) : OnConn A :=
  fun c w =>
    let (flt, w1) := arrive w in
    match flt with
    | Some e => (Throw e, c, w1)
    | None =>
        match run c (db w1) with
        | inl e => (Throw e, c, w1)
        | inr (a, c', d') => (Return a, c', set_db w1 d')
        end
    end.

(** What is committed when the open transaction of a connection ends. *)
Definition committed (c : Connection) (d : DB) : DB :=
  match c with
  | Some tx => apply_txn tx d
  | None => d
  end.

(** [conn.beginTransaction()]: START TRANSACTION (which commits a
    transaction that is still open). *)
Definition conn_beginTransaction : OnConn unit :=
  conn_round_trip (fun c d => inr (tt, Some begin_txn, committed c d)).

(** [conn.query(sql, params)]: inside the open transaction, or on its
    own when none is open. *)
Definition conn_query {A} (stmt : TxStatement A) : OnConn A :=
  conn_round_trip (fun c d =>
    match c with
    | Some tx =>
        match stmt tx d with
        | inl e => inl e
        | inr (a, tx') => inr (a, Some tx', d)
        end
    | None =>
        match stmt begin_txn d with
        | inl e => inl e
        | inr (a, tx') => inr (a, None, apply_txn tx' d)
        end
    end).

(** [conn.commit()]: COMMIT *)
Definition conn_commit : OnConn unit :=
  conn_round_trip (fun c d => inr (tt, None, committed c d)).

(** [conn.rollback()]: ROLLBACK *)
Definition conn_rollback : OnConn unit :=
  conn_round_trip (fun c d => inr (tt, None, d)).

(** [fs.unlink(path)] *)
Definition fs_unlink (p : string) : M unit :=
  fun w =>
    if existsb (String.eqb p) (disk w)
    then (Return tt, set_disk w (filter (fun q => negb (String.eqb p q)) (disk w)))
    else (Throw (mkError (Some "ENOENT")
                   ("ENOENT: no such file or directory, unlink '" ++ p ++ "'")), w).

(** [console.error]: no effect on the world. *)
Definition console_error (msg : string) : M unit := ret tt.

Notation "' pat <- m ;; k" := (bind m (fun x => match x with pat => k end))
  (at level 61, pat pattern, m at next level, right associativity) : async_scope.

(** ** The server *)

(** [s.split(sep)] for a one-character separator. *)
Fixpoint js_split (sep : ascii) (s : string) : list string :=
  match s with
  | EmptyString => [EmptyString]
  | String c rest =>
      if Ascii.eqb c sep then EmptyString :: js_split sep rest
      else match js_split sep rest with
           | [] => [String c EmptyString]
           | part :: parts => String c part :: parts
           end
  end.

(** [req.headers.authorization?.split(' ')[1]] *)
Definition bearer_of (header : option string) : option string :=
  match header with
  | None => None
  | Some h => nth_error (js_split " "%char h) 1
  end.

Section Server.
Context `{Externals}.

(** The auth middleware: either it answers the request itself or it
    calls [next()] with [req.userId] set. *)
Definition authenticate (req : Request) (w : World) : Response + Z :=
  match bearer_of (headers_authorization req) with
  | None | Some EmptyString => inl (mkResponse 401 (err_body "Access denied"))
  | Some token =>
      match jwt_verify token (JWT_SECRET w) (now w) with
      | inr decoded => inr (userId decoded)
      | inl _ => inl (mkResponse 400 (err_body "Invalid token"))
      end
  end.

(** A route registered as [app.verb(path, authenticate, handler)]. *)
Definition protected (handler : Z -> Request -> M Response) (req : Request)
    : M Response :=
  fun w =>
    match authenticate req w with
    | inl answered => (Return answered, w)
    | inr uid => handler uid req w
    end.

(** [await bcrypt.hash(data, rounds)]; it rejects when [data] is undefined. *)
Definition bcrypt_hash_async (data : option string) (rounds : Z) : M string :=
  fun w =>
    match data with
    | None => (Throw (mkError None "data and salt arguments required"), w)
    | Some p => (Return (bcrypt_hash p rounds (salt w)), w)
    end.

(** [await bcrypt.compare(data, hash)] *)
Definition bcrypt_compare_async (data : option string) (hash : string) : M bool :=
  match data with
  | None => throw (mkError None "data and hash arguments required")
  | Some p => ret (bcrypt_compare p hash)
  end.

(** [jwt.sign({ userId }, process.env.JWT_SECRET, { expiresIn })] *)
Definition jwt_sign_now (uid : Z) (expiresIn : Z) : M string :=
  fun w => (Return (jwt_sign uid (JWT_SECRET w) (now w) expiresIn), w).

Definition internal_error (err : Error) : M Response :=
  ret (mkResponse 500 (err_body (err_message err))).

(** [app.post('/register')] *)
Definition register (req : Request) : M Response :=
  try_catch
    (hashedPassword <- bcrypt_hash_async (body_password req) 10 ;;
     _ <- pool_query (insert_user (body_email req) hashedPassword) ;;
     ret (mkResponse 201 (msg_body "User created")))
    internal_error.

(** [app.post('/login')] *)
Definition login (req : Request) : M Response :=
  try_catch
    (whitelist <- pool_query (select_whitelist_by_email (body_email req)) ;;
     match whitelist with
     | [] => ret (mkResponse 403
                    (err_body "Access denied. Your email is not whitelisted."))
     | _ :: _ =>
         found <- pool_query (select_users_by_email (body_email req)) ;;
         match found with
         | [] => ret (mkResponse 401 (err_body "Invalid credentials"))
         | user :: _ =>
             matches <- bcrypt_compare_async (body_password req) (user_password user) ;;
             if negb matches
             then ret (mkResponse 401 (err_body "Invalid credentials"))
             else
               token <- jwt_sign_now (user_id user) (60 * 60) ;;
               ret (mkResponse 200 (JObj [("token", JStr token)]))
         end
     end)
    internal_error.

(** [upload.single('file')]: multer has stored the blob under [req.file.path]. *)
Definition upload_single (req : Request) : M unit :=
  fun w =>
    match file req with
    | None => (Return tt, w)
    | Some f => (Return tt, set_disk w (path f :: disk w))
    end.

(** [app.post('/upload', authenticate, upload.single('file'), ...)] *)
Definition upload : Request -> M Response :=
  protected (fun _ req =>
    upload_single req ;;;
    try_catch
      (match file req with
       | None => ret (mkResponse 400 (err_body "No file uploaded"))
       | Some f =>
           existing <- pool_query (select_files_by_filename (originalname f)) ;;
           if (0 <? length existing)%nat
           then ret (mkResponse 400 (err_body "File with this name already exists"))
           else
             insertId <- pool_query (insert_file (originalname f) (path f)) ;;
             ret (mkResponse 200
                    (JObj [("message", JStr "File uploaded successfully");
                           ("fileId", JNum insertId);
                           ("path", JStr (path f))]))
       end)
      internal_error).

Definition json_of_file (f : FileRecord) : json :=
  JObj [("id", JNum (file_id f)); ("filename", JStr (file_filename f));
        ("path", JStr (file_path f))].

(** [app.get('/files')] *)
Definition list_files (req : Request) : M Response :=
  try_catch
    (rows <- pool_query select_files ;;
     ret (mkResponse 200 (JArr (map json_of_file rows))))
    internal_error.

(** [app.delete('/files/:id')] *)
Definition delete_file (req : Request) : M Response :=
  try_catch
    (let fileId := params_id req in
     rows <- pool_query (select_files_by_id fileId) ;;
     match rows with
     | [] => ret (mkResponse 404 (err_body "File not found in database"))
     | row :: _ =>
         let filePath := file_path row in
         try_catch (fs_unlink filePath)
                   (fun err => console_error (err_message err)) ;;;
         affectedRows <- pool_query (delete_file_by_id fileId) ;;
         ret (mkResponse 200
                (JObj [("message", JStr "File deleted completely");
                       ("details",
                        JObj [("dbRecordDeleted", JBool (affectedRows =? 1));
                              ("physicalFileDeleted", JBool true);
                              ("deletedId", JNum fileId)])]))
     end)
    (fun err =>
       ret (mkResponse 500
              (JObj [("error", JStr (err_message err));
                     ("note", JStr "Database record may or may not have been deleted")]))).

(** The body of [app.delete('/user', ...)] on its connection: START
    TRANSACTION before the [try], then the [try] and its [catch]. *)
Definition delete_user_on (uid : Z) (req : Request) : OnConn Response :=
  (conn_beginTransaction ;;;
   on_try_catch
     (found <- conn_query (tx_select_users_by_id uid) ;;
      match found with
      | [] => conn_rollback ;;;
              on_ret (mkResponse 401 (err_body "Invalid password"))
      | user :: _ =>
          matches <- on_lift (bcrypt_compare_async (body_password req)
                                                   (user_password user)) ;;
          if negb matches
          then conn_rollback ;;;
               on_ret (mkResponse 401 (err_body "Invalid password"))
          else
            _ <- conn_query (tx_delete_tokens_by_user uid) ;;
            affectedRows <- conn_query (tx_delete_user_by_id uid) ;;
            if affectedRows =? 0
            then conn_rollback ;;;
                 on_ret (mkResponse 404 (err_body "User not found"))
            else
              conn_commit ;;;
              on_ret (mkResponse 200 (msg_body "User account deleted successfully"))
      end)
     (fun err =>
        conn_rollback ;;;
        on_ret (mkResponse 500 (err_body (err_message err)))))%conn.

(** [app.delete('/user', authenticate, ...)]: a connection from the
    pool, one transaction on it, and the connection released.  A
    rejection outside the [try] leaves the request unanswered. *)
Definition delete_user : Request -> M Response :=
  protected (fun uid req =>
    pool_getConnection ;;;
    released (delete_user_on uid req)).

(** [app.post('/request-password-reset')] *)
Definition request_password_reset (req : Request) : M Response :=
  try_catch
    (found <- pool_query (select_users_by_email (body_email req)) ;;
     match found with
     | [] => ret (mkResponse 404 (err_body "User not found"))
     | user :: _ =>
         let uid := user_id user in
         token <- jwt_sign_now uid (15 * 60) ;;
         w <- get_world ;;
         _ <- pool_query (insert_reset_token uid token (now w)) ;;
         ret (mkResponse 200
                (JObj [("message", JStr "Password reset token generated");
                       ("token", JStr token)]))
     end)
    internal_error.

(** [app.post('/verify-reset-token')] *)
Definition verify_reset_token (req : Request) : M Response :=
  try_catch
    (w <- get_world ;;
     tokens <- pool_query (select_valid_tokens (body_token req) (now w)) ;;
     match tokens with
     | [] => ret (mkResponse 400 (err_body "Invalid or expired token"))
     | t :: _ =>
         ret (mkResponse 200
                (JObj [("valid", JBool true); ("userId", JNum (rt_user_id t))]))
     end)
    internal_error.

(** [app.post('/reset-password')] *)
Definition reset_password (req : Request) : M Response :=
  try_catch
    (w <- get_world ;;
     tokens <- pool_query (select_valid_tokens (body_token req) (now w)) ;;
     match tokens with
     | [] => ret (mkResponse 400 (err_body "Invalid or expired token"))
     | t :: _ =>
         let uid := rt_user_id t in
         hashedPassword <- bcrypt_hash_async (body_newPassword req) 10 ;;
         _ <- pool_query (update_user_password hashedPassword uid) ;;
         _ <- pool_query (update_token_used (body_token req)) ;;
         ret (mkResponse 200 (msg_body "Password updated successfully"))
     end)
    internal_error.

(** [app.delete('/whitelist/:email', authenticate, ...)]: the connection
    is taken from the pool before the [try]; the one statement sent on it
    is its own unit of work. *)
Definition whitelist_remove : Request -> M Response :=
  protected (fun _ req =>
    pool_getConnection ;;;
    try_catch
      (affectedRows <- pool_query (delete_whitelist_by_email (params_email req)) ;;
       if affectedRows =? 0
       then ret (mkResponse 404 (err_body "Email not found in whitelist"))
       else ret (mkResponse 200 (msg_body "Email removed from whitelist")))
      internal_error).

End Server.

(** ** Error kinds

    The failure kinds of the interface, read off the HTTP status of a
    response. *)
Inductive ErrorKind : Type :=
| BadRequest | Unauthorized | Forbidden | NotFound | Conflict | Internal.

Definition kind_of (r : Response) : option ErrorKind :=
  match status r with
  | 400 => Some BadRequest
  | 401 => Some Unauthorized
  | 403 => Some Forbidden
  | 404 => Some NotFound
  | 409 => Some Conflict
  | 500 => Some Internal
  | _ => None
  end.

(** The two answers of the auth middleware. *)
Definition access_denied : Response := mkResponse 401 (err_body "Access denied").
Definition invalid_token : Response := mkResponse 400 (err_body "Invalid token").

(** A property of the world that a computation never breaks, whether it
    returns or throws. *)
Definition stable {A} (P : World -> Prop) (m : M A) : Prop :=
  forall w, P w -> P (snd (m w)).

(** The same for code on a connection, whatever transaction is open. *)
Definition on_stable {A} (P : World -> Prop) (m : OnConn A) : Prop :=
  forall c w, P w -> P (snd (m c w)).

(** The clock and the configuration of a world. *)
Definition clock_and_secret (t : Z) (key : string) (w : World) : Prop :=
  now w = t /\ JWT_SECRET w = key.

(** I2: no two file records share a filename (as MySQL compares them). *)
Definition files_unique `{Externals} (d : DB) : Prop :=
  NoDup (map (fun f => collate (file_filename f)) (files d)).

(** ** An executable instance of the external libraries

    Not cryptography: the hash is the password behind a prefix, and a
    token is its three claims in unary followed by the length of the key.
    It only has to satisfy what the theorems assume of the libraries. *)
Module Toy.

Fixpoint rep (n : nat) (c : ascii) : string :=
  match n with
  | O => EmptyString
  | S n' => String c (rep n' c)
  end.

Fixpoint count_prefix (c : ascii) (s : string) : nat * string :=
  match s with
  | EmptyString => (O, EmptyString)
  | String d rest =>
      if Ascii.eqb d c
      then let (n, r) := count_prefix c rest in (S n, r)
      else (O, s)
  end.

Definition enc (c : ascii) (z : Z) : string :=
  String (if z <? 0 then "-"%char else "+"%char) (rep (Z.abs_nat z) c).

Definition dec (c : ascii) (s : string) : option (Z * string) :=
  match s with
  | String sign rest =>
      let (n, r) := count_prefix c rest in
      if Ascii.eqb sign "-"%char then Some (- Z.of_nat n, r)
      else if Ascii.eqb sign "+"%char then Some (Z.of_nat n, r)
      else None
  | EmptyString => None
  end.

Definition skip_dot (s : string) : option string :=
  match s with
  | String "."%char rest => Some rest
  | _ => None
  end.

Definition sign (uid : Z) (key : string) (t life : Z) : string :=
  enc "u" uid ++ "." ++ enc "i" t ++ "." ++ enc "e" (t + life) ++ "."
      ++ rep (String.length key) "k".

Definition malformed : jwt_error := JsonWebTokenError "jwt malformed".

Definition verify (token key : string) (t : Z) : jwt_error + Payload :=
  match dec "u" token with
  | None => inl malformed
  | Some (uid, r1) =>
  match skip_dot r1 with
  | None => inl malformed
  | Some r2 =>
  match dec "i" r2 with
  | None => inl malformed
  | Some (issued, r3) =>
  match skip_dot r3 with
  | None => inl malformed
  | Some r4 =>
  match dec "e" r4 with
  | None => inl malformed
  | Some (expiry, r5) =>
  match skip_dot r5 with
  | None => inl malformed
  | Some r6 =>
      if String.eqb r6 (rep (String.length key) "k")
      then if expiry <=? t then inl TokenExpiredError
           else inr (mkPayload uid issued expiry)
      else inl (JsonWebTokenError "invalid signature")
  end end end end end end.

Definition no_space (s : string) : bool :=
  forallb (fun c => negb (Ascii.eqb c " "%char)) (list_ascii_of_string s).

Definition hash (data : string) (rounds : Z) (salt_ : string) : string :=
  "$2b$" ++ data.

Definition compare (data hashed : string) : bool := String.eqb hashed ("$2b$" ++ data).

End Toy.

Definition toy : Externals :=
  {| bcrypt_hash := Toy.hash;
     bcrypt_compare := Toy.compare;
     jwt_sign := Toy.sign;
     jwt_verify := Toy.verify;
     collate := fun s => s |}.

(** ** Sample worlds and requests *)
Module Examples.

Definition secret : string := "s3cret".

(** An undisturbed world at time 1000 over a given database and disk. *)
Definition world_at (d : DB) (paths : list string) : World :=
  mkWorld d paths 1000 secret "salt" [].

Definition with_bearer (req : Request) (token : string) : Request :=
  mkRequest (Some ("Bearer " ++ token)) (body_email req) (body_password req)
            (body_token req) (body_newPassword req) (file req)
            (params_id req) (params_email req).

(** No Authorization header at all. *)
Definition anonymous : Request := empty_request.

(** A token of user 7 signed with the right key at time 0 for one minute. *)
Definition expired : Request := with_bearer empty_request (Toy.sign 7 secret 0 60).

(** A token of user 7 signed with another key. *)
Definition forged : Request := with_bearer empty_request (Toy.sign 7 "guess" 900 3600).

(** Not a token. *)
Definition garbage : Request := with_bearer empty_request "garbage".

(** A token of user 7 signed with the right key at time 900 for an hour. *)
Definition session7 : string := Toy.sign 7 secret 900 3600.

End Examples.

(** ** Vocabulary of the properties *)

Section Vocabulary.
Context `{Externals}.

(** The email has an entry in the whitelist. *)
Definition is_whitelisted (d : DB) (email : option string) : bool :=
  existsb (fun e => sql_eq (wl_email e) email) (whitelist_emails d).

(** The first user row MySQL returns for an email. *)
Definition user_by_email (d : DB) (email : option string) : option User :=
  find (fun u => sql_eq (user_email u) email) (users d).

(** The first ledger row that validates for a token value at a time. *)
Definition valid_token_row (d : DB) (token : option string) (t : Z) : option ResetToken :=
  find (token_is_valid token t) (password_reset_tokens d).

(** The first file record with an id. *)
Definition file_by_id (d : DB) (id : Z) : option FileRecord :=
  find (fun f => file_id f =? id) (files d).

(** A file record with this filename exists. *)
Definition filename_taken (d : DB) (filename : string) : bool :=
  existsb (fun f => sql_eq (file_filename f) (Some filename)) (files d).

End Vocabulary.

(** The answers of the handlers that the properties name. *)
Definition not_whitelisted : Response :=
  mkResponse 403 (err_body "Access denied. Your email is not whitelisted.").
Definition invalid_credentials : Response :=
  mkResponse 401 (err_body "Invalid credentials").
Definition invalid_or_expired : Response :=
  mkResponse 400 (err_body "Invalid or expired token").
Definition name_exists : Response :=
  mkResponse 400 (err_body "File with this name already exists").
Definition invalid_password : Response :=
  mkResponse 401 (err_body "Invalid password").
Definition user_not_found : Response :=
  mkResponse 404 (err_body "User not found").
Definition account_deleted : Response :=
  mkResponse 200 (msg_body "User account deleted successfully").

(** ** A populated database and the requests run against it *)
Module Scenario.
Import Examples.

Definition alice : User := mkUser 7 "a@x.com" (Toy.hash "pw1" 10 "salt").

(** The reset token of user 7 issued at time 1000. *)
Definition reset7 : string := Toy.sign 7 secret 1000 (15 * 60).

Definition report : FileRecord := mkFile 1 "report.pdf" "uploads/f1".

Definition populated : DB :=
  mkDB [alice] [report] [mkToken 1 7 reset7 1900 false]
       [mkWhitelist 1 "a@x.com" 0] 8 2 2 2.

Definition with_body (email password token newPassword : option string) : Request :=
  mkRequest None email password token newPassword None 0 "".

Definition connection_lost : Error := mkError (Some "ECONNRESET") "read ECONNRESET".

(** The third round trip fails; nothing else happens. *)
Definition third_fails : list EnvEvent :=
  [quiet; quiet; mkEvent (fun d => d) (Some connection_lost)].

Definition register_alice_again : Request :=
  with_body (Some "a@x.com") (Some "pw2") None None.

Definition delete_report : Request := mkRequest None None None None None None 1 "".

Definition reset_alice : Request := with_body None None (Some reset7) (Some "pw2").

Definition validate_reset7 : Request := with_body None None (Some reset7) None.

Definition alice_logs_in : Request := with_body (Some "a@x.com") (Some "pw1") None None.

Definition alice_forgot : Request := with_body (Some "a@x.com") None None None.

(** The sample database after alice asked for a second reset token. *)
Definition after_reset : DB :=
  mkDB [alice] [report]
       [mkToken 1 7 reset7 1900 false; mkToken 2 7 reset7 1900 false]
       [mkWhitelist 1 "a@x.com" 0] 8 2 3 2.

(** Five minutes later, a request carrying the reset token as bearer. *)
Definition later : World := mkWorld after_reset [] 1300 Examples.secret "salt" [].

Definition reset7_as_bearer : Request := with_bearer empty_request reset7.

Definition disturbed (d : DB) (paths : list string) (evs : list EnvEvent) : World :=
  mkWorld d paths 1000 secret "salt" evs.

End Scenario.

(** I2 as a property of a world: it holds of the database now, and the
    work other connections are scheduled to commit respects it (MySQL
    enforces the UNIQUE key for them too). *)
Definition keeps_files_unique `{Externals} (w : World) : Prop :=
  files_unique (db w) /\
  Forall (fun ev => forall d, files_unique d -> files_unique (concurrent ev d))
         (schedule w).

Module UploadScenario.
Import Examples Scenario.

(** User 7, logged in, uploads a second "report.pdf". *)
Definition report_again : Request :=
  mkRequest (Some ("Bearer " ++ session7)) None None None None
            (Some (mkUploadedFile "report.pdf" "uploads/f2")) 0 "".

End UploadScenario.

(** The second world differs from the first by concurrent work alone:
    some of the scheduled events have happened and nothing else has
    touched the database. *)
Definition only_concurrent (w w' : World) : Prop :=
  exists k, db w' = concurrent_only (firstn k (schedule w)) (db w) /\
            schedule w' = skipn k (schedule w).

(** The world after [k] round trips of which none wrote anything. *)
Definition elapsed (k : nat) (w : World) : World :=
  set_schedule (set_db w (concurrent_only (firstn k (schedule w)) (db w)))
               (skipn k (schedule w)).

(** The fault scheduled for the round trip after [k] others, if any. *)
Definition fault_at (k : nat) (w : World) : option Error :=
  match nth_error (schedule w) k with
  | Some ev => fault ev
  | None => None
  end.

(** The database without a user and without the reset tokens of that user. *)
Definition without_user (uid : Z) (d : DB) : DB :=
  set_users
    (set_tokens d (filter (fun t => negb (rt_user_id t =? uid)) (password_reset_tokens d)))
    (filter (fun u => negb (user_id u =? uid)) (users d)).

Module AccountScenario.
Import Examples Scenario.

(** User 7, logged in, deletes the account with the right password. *)
Definition alice_leaves : Request :=
  mkRequest (Some ("Bearer " ++ session7)) None (Some "pw1") None None None 0 "".

(** Another connection deletes account 7, tokens first, and commits. *)
Definition rival_deletes_alice : EnvEvent := mkEvent (without_user 7) None.

(** The rival commits after this request has read the user row and
    before its first DELETE: the round trips are getConnection, START
    TRANSACTION, SELECT, DELETE, DELETE and ROLLBACK. *)
Definition lost_race : list EnvEvent :=
  [quiet; quiet; quiet; rival_deletes_alice; quiet; quiet].

(** The DELETE of the user row fails after the DELETE of the tokens went
    through; the ROLLBACK that follows succeeds. *)
Definition user_delete_fails : list EnvEvent :=
  [quiet; quiet; quiet; quiet; mkEvent (fun d => d) (Some connection_lost); quiet].

(** Another connection rewrites the password of user 7 and hands the
    user a new reset token while the COMMIT is under way. *)
Definition rival_rewrites_alice : EnvEvent :=
  mkEvent (fun d =>
             set_tokens
               (set_users d (map (fun u => if user_id u =? 7
                                           then mkUser (user_id u) (user_email u) "h(pw9)"
                                           else u) (users d)))
               (password_reset_tokens d ++
                [mkToken 99 7 "late" 5000 false])) None.

Definition rewritten_meanwhile : list EnvEvent :=
  [quiet; quiet; quiet; quiet; quiet; rival_rewrites_alice].

End AccountScenario.

(** ** JavaScript strings

    A JavaScript string is a sequence of UTF-16 code units.  A string
    of the model holds the UTF-8 encoding of the JavaScript string it
    stands for, which is how a request body reaches [express.json()];
    [js_units] gives the code units back.  Bytes that are no UTF-8 are
    read as Node's decoder reads them, as U+FFFD. *)
Inductive Utf8State : Type :=
| Start
| Continue (code_point : N) (needed : nat) (lower upper : N).

(** The first byte of a sequence. *)
Definition utf8_lead (b : N) : list N * Utf8State :=
  (if b <=? 127 then ([b], Start)
   else if (194 <=? b) && (b <=? 223)
   then ([], Continue (N.land b 31) 1 128 191)
   else if (224 <=? b) && (b <=? 239)
   then ([], Continue (N.land b 15) 2
                      (if b =? 224 then 160 else 128)
                      (if b =? 237 then 159 else 191))
   else if (240 <=? b) && (b <=? 244)
   then ([], Continue (N.land b 7) 3
                      (if b =? 240 then 144 else 128)
                      (if b =? 244 then 143 else 191))
   else ([65533], Start))%N.

(** The code points of a sequence of bytes. *)
Fixpoint utf8_decode_from (st : Utf8State) (bytes : list N) : list N :=
  match bytes with
  | [] => match st with Start => [] | Continue _ _ _ _ => [65533%N] end
  | b :: rest =>
      match st with
      | Start =>
          let (out, st') := utf8_lead b in
          (out ++ utf8_decode_from st' rest)%list
      | Continue cp needed lo hi =>
          if ((lo <=? b) && (b <=? hi))%N
          then
            let cp' := N.lor (N.shiftl cp 6) (N.land b 63) in
            match needed with
            | S (S n) => utf8_decode_from (Continue cp' (S n) 128 191) rest
            | _ => cp' :: utf8_decode_from Start rest
            end
          else
            let (out, st') := utf8_lead b in
            (65533%N :: out ++ utf8_decode_from st' rest)%list
      end
  end.

(** The code units of a code point: one, or a surrogate pair. *)
Definition utf16_units (cp : N) : list N :=
  (if cp <? 65536 then [cp]
   else [55296 + (cp - 65536) / 1024; 56320 + (cp - 65536) mod 1024])%N.

Definition bytes_of (s : string) : list N := map N_of_ascii (list_ascii_of_string s).

Definition js_units (s : string) : list N :=
  flat_map utf16_units (utf8_decode_from Start (bytes_of s)).

(** ** Regular expressions

    The pattern of the whitelist handler is a regular expression without
    flags, anchored at both ends: [test] accepts a string exactly when the
    whole string is in the language of the pattern, read one code unit
    at a time. *)
Inductive regex : Type :=
| RNone
| REps
| RClass (p : N -> bool)
| RSeq (a b : regex)
| RAlt (a b : regex)
| RStar (a : regex).

(** [r+] *)
Definition RPlus (r : regex) : regex := RSeq r (RStar r).

Fixpoint nullable (r : regex) : bool :=
  match r with
  | RNone => false
  | REps => true
  | RClass _ => false
  | RSeq a b => nullable a && nullable b
  | RAlt a b => nullable a || nullable b
  | RStar _ => true
  end.

(** What is left of the pattern after reading one code unit. *)
Fixpoint deriv (u : N) (r : regex) : regex :=
  match r with
  | RNone => RNone
  | REps => RNone
  | RClass p => if p u then REps else RNone
  | RSeq a b =>
      if nullable a then RAlt (RSeq (deriv u a) b) (deriv u b)
      else RSeq (deriv u a) b
  | RAlt a b => RAlt (deriv u a) (deriv u b)
  | RStar a => RSeq (deriv u a) (RStar a)
  end.

Fixpoint matches (r : regex) (units : list N) : bool :=
  match units with
  | [] => nullable r
  | u :: rest => matches (deriv u r) rest
  end.

(** The language of a pattern. *)
Inductive lang : regex -> list N -> Prop :=
| lang_eps : lang REps []
| lang_class p u : p u = true -> lang (RClass p) [u]
| lang_seq a b s1 s2 : lang a s1 -> lang b s2 -> lang (RSeq a b) (s1 ++ s2)
| lang_alt_l a b s : lang a s -> lang (RAlt a b) s
| lang_alt_r a b s : lang b s -> lang (RAlt a b) s
| lang_star_nil a : lang (RStar a) []
| lang_star_cons a s1 s2 : lang a s1 -> lang (RStar a) s2 -> lang (RStar a) (s1 ++ s2).

(** [\s]: the white space and the line terminators of ECMAScript, as
    code units: tab, line feed, vertical tab, form feed, carriage return,
    space, no-break space, U+1680, U+2000 to U+200A, U+2028, U+2029,
    U+202F, U+205F, U+3000 and U+FEFF. *)
Definition js_space (u : N) : bool :=
  ((9 <=? u) && (u <=? 13) || (u =? 32) || (u =? 160) || (u =? 5760)
   || (8192 <=? u) && (u <=? 8202) || (u =? 8232) || (u =? 8233)
   || (u =? 8239) || (u =? 8287) || (u =? 12288) || (u =? 65279))%N.

(** The code units of "@" and ".". *)
Definition at_sign : N := 64.
Definition full_stop : N := 46.

(** [[^\s@]] *)
Definition address_unit (u : N) : bool :=
  negb (js_space u) && negb (u =? at_sign)%N.

(** [/^[^\s@]+@[^\s@]+\.[^\s@]+$/] *)
Definition email_pattern : regex :=
  RSeq (RPlus (RClass address_unit))
    (RSeq (RClass (N.eqb at_sign))
       (RSeq (RPlus (RClass address_unit))
          (RSeq (RClass (N.eqb full_stop))
             (RPlus (RClass address_unit))))).

(** [pattern.test(value)]: the value is converted to a string first, and
    [undefined] becomes the string "undefined". *)
Definition regex_test (r : regex) (value : option string) : bool :=
  matches r (js_units (match value with None => "undefined" | Some s => s end)).

(** A non-empty run of code units allowed in an address part. *)
Definition address_part (units : list N) : Prop :=
  units <> [] /\ Forall (fun u => address_unit u = true) units.

(** The code units of [local@domain.tld]. *)
Definition address_of (local domain tld : list N) : list N :=
  (local ++ at_sign :: domain ++ full_stop :: tld)%list.

(** ** The whitelist endpoint that adds an entry *)

Section WhitelistAdd.
Context `{Externals}.

(** [INSERT INTO whitelist_emails (email) VALUES (?)]: email is NOT NULL
    and UNIQUE, created_at defaults to the current time. *)
Definition insert_whitelist (email : option string) (now_ : Z) : Statement Z :=
  fun d =>
    match email with
    | None => inl (bad_null "email")
    | Some e =>
        if existsb (fun entry => sql_eq (wl_email entry) email) (whitelist_emails d)
        then inl (dup_entry e "whitelist_emails.email")
        else
          let id := next_whitelist_id d in
          inr (id, mkDB (users d) (files d) (password_reset_tokens d)
                        (whitelist_emails d ++ [mkWhitelist id e now_])
                        (next_user_id d) (next_file_id d) (next_token_id d)
                        (id + 1))
    end.

(** [err.code === 'ER_DUP_ENTRY'] *)
Definition is_dup_entry (err : Error) : bool :=
  match err_code err with
  | Some code => String.eqb code "ER_DUP_ENTRY"
  | None => false
  end.

(** [app.post('/whitelist', authenticate, ...)]: the connection is taken
    from the pool before the [try] and before the email is looked at. *)
Definition whitelist_add : Request -> M Response :=
  protected (fun _ req =>
    pool_getConnection ;;;
    try_catch
      (if negb (regex_test email_pattern (body_email req))
       then ret (mkResponse 400 (err_body "Invalid email format"))
       else
         w <- get_world ;;
         _ <- pool_query (insert_whitelist (body_email req) (now w)) ;;
         ret (mkResponse 201 (msg_body "Email added to whitelist")))
      (fun err =>
         if is_dup_entry err
         then ret (mkResponse 409 (err_body "Email already exists in whitelist"))
         else internal_error err)).

(** No two whitelist entries share an email (as MySQL compares them). *)
Definition whitelist_unique (d : DB) : Prop :=
  NoDup (map (fun e => collate (wl_email e)) (whitelist_emails d)).

(** No two users share an email (as MySQL compares them). *)
Definition users_unique (d : DB) : Prop :=
  NoDup (map (fun u => collate (user_email u)) (users d)).

(** A property of the database that holds now and that the work other
    connections are scheduled to commit respects. *)
Definition kept (I : DB -> Prop) (w : World) : Prop :=
  I (db w) /\
  Forall (fun ev => forall d, I d -> I (concurrent ev d)) (schedule w).

(** I1: every reset token belongs to a user of the users table. *)
Definition references_ok (d : DB) : Prop :=
  forall t, In t (password_reset_tokens d) ->
            exists u, In u (users d) /\ user_id u = rt_user_id t.

(** What bcrypt guarantees: a password compares equal to its own hash. *)
Record BcryptSound : Prop := {
  bcrypt_compare_hash : forall data rounds salt_,
    bcrypt_compare data (bcrypt_hash data rounds salt_) = true
}.

End WhitelistAdd.

(** More answers of the handlers. *)
Definition invalid_email_format : Response :=
  mkResponse 400 (err_body "Invalid email format").
Definition already_whitelisted : Response :=
  mkResponse 409 (err_body "Email already exists in whitelist").
Definition whitelist_added : Response :=
  mkResponse 201 (msg_body "Email added to whitelist").
Definition whitelist_removed : Response :=
  mkResponse 200 (msg_body "Email removed from whitelist").
Definition not_in_whitelist : Response :=
  mkResponse 404 (err_body "Email not found in whitelist").
Definition user_created : Response := mkResponse 201 (msg_body "User created").
Definition password_updated : Response :=
  mkResponse 200 (msg_body "Password updated successfully").
Definition file_not_found : Response :=
  mkResponse 404 (err_body "File not found in database").
Definition no_file_uploaded : Response :=
  mkResponse 400 (err_body "No file uploaded").

(** The database after a password reset: the hash of the user replaced,
    every ledger row with the token value marked used. *)
Definition after_reset_password `{Externals} (uid : Z) (hash : string)
    (token : option string) (d : DB) : DB :=
  set_tokens
    (set_users d
       (map (fun u => if user_id u =? uid
                      then mkUser (user_id u) (user_email u) hash
                      else u) (users d)))
    (map (fun t => if sql_eq (rt_token t) token
                   then mkToken (rt_id t) (rt_user_id t) (rt_token t)
                                (rt_expires_at t) true
                   else t) (password_reset_tokens d)).

(** An undisturbed world whose database satisfies I1. *)
Definition settled (w : World) : Prop := schedule w = [] /\ references_ok (db w).

(** ** The chat model (models/Chat.js): messages

    The declaration of [chat_messages] is not part of the sources.  The
    statements show its columns; the type of a thread id with its
    comparison, and the value the table gives [timestamp] on insert, are
    parameters.  [id] is the key MySQL assigns on insert (the functions
    return it as [insertId]).  The functions catch nothing: a round trip
    that fails rejects their promise and changes nothing, so they are
    modelled by the statement they send. *)
Module Chat.
Section Messages.
Variable Thread : Type.
Variable thread_eqb : Thread -> Thread -> bool.
Variable timestamp_default : Z -> Z.

Record Message := mkMessage {
  message_id : Z;
  message_thread : Thread;
  message_role : string;
  message_content : string;
  message_timestamp : Z
}.

(** A row of [SELECT role, content, timestamp]. *)
Record MessageView := mkView { role : string; content : string; timestamp : Z }.

Definition view_of (m : Message) : MessageView :=
  mkView (message_role m) (message_content m) (message_timestamp m).

Record ChatDB := mkChatDB { chat_messages : list Message; next_message_id : Z }.

(** [ORDER BY id DESC] *)
Fixpoint insert_desc (m : Message) (sorted : list Message) : list Message :=
  match sorted with
  | [] => [m]
  | x :: rest =>
      if message_id x <? message_id m then m :: x :: rest
      else x :: insert_desc m rest
  end.

Definition order_by_id_desc (l : list Message) : list Message :=
  fold_right insert_desc [] l.

Definition parse_error : Error :=
  mkError (Some "ER_PARSE_ERROR") "You have an error in your SQL syntax".

(** [createMessage(thread_id, role, content)]: the new id and the table
    after the insert at time [now_]. *)
Definition createMessage (thread : Thread) (role_ content_ : string) (now_ : Z)
    (d : ChatDB) : Z * ChatDB :=
  let id := next_message_id d in
  (id, mkChatDB (chat_messages d
                   ++ [mkMessage id thread role_ content_ (timestamp_default now_)])
                (id + 1)).

(** [getMessagesByThread(thread_id, limit = 10, offset = 0)]: a negative
    LIMIT or OFFSET is a syntax error for MySQL. *)
Definition getMessagesByThread (thread : Thread) (limit offset : option Z) (d : ChatDB)
    : Error + list MessageView :=
  let limit := match limit with Some n => n | None => 10 end in
  let offset := match offset with Some n => n | None => 0 end in
  if (limit <? 0) || (offset <? 0) then inl parse_error
  else
    inr (map view_of
           (firstn (Z.to_nat limit)
              (skipn (Z.to_nat offset)
                 (order_by_id_desc
                    (filter (fun m => thread_eqb (message_thread m) thread)
                            (chat_messages d)))))).

(** [deleteOldMessages()] at time [now_]: [affectedRows] and the table
    after [DELETE ... WHERE timestamp < DATE_SUB(NOW(), INTERVAL 30 DAY)]. *)
Definition deleteOldMessages (now_ : Z) (d : ChatDB) : Z * ChatDB :=
  let old m := message_timestamp m <? now_ - 30 * 24 * 60 * 60 in
  (Z.of_nat (length (filter old (chat_messages d))),
   mkChatDB (filter (fun m => negb (old m)) (chat_messages d)) (next_message_id d)).

(** Every id in the table is below the next one MySQL assigns. *)
Definition ids_assigned (d : ChatDB) : Prop :=
  Forall (fun m => message_id m < next_message_id d) (chat_messages d).

(** Newest first. *)
Definition newer_first (a b : Message) : Prop := message_id b <= message_id a.

End Messages.

Arguments mkMessage {Thread}.
Arguments message_id {Thread}.
Arguments message_thread {Thread}.
Arguments message_role {Thread}.
Arguments message_content {Thread}.
Arguments message_timestamp {Thread}.
Arguments mkChatDB {Thread}.
Arguments chat_messages {Thread}.
Arguments next_message_id {Thread}.
Arguments view_of {Thread}.
Arguments insert_desc {Thread}.
Arguments order_by_id_desc {Thread}.
Arguments createMessage {Thread}.
Arguments getMessagesByThread {Thread}.
Arguments deleteOldMessages {Thread}.
Arguments ids_assigned {Thread}.
Arguments newer_first {Thread}.
End Chat.

(** ** More requests against the sample database *)
Module MoreScenario.
Import Examples Scenario.

(** A request of user 7, logged in. *)
Definition as_alice (email : option string) (param_email : string)
    (upload_ : option UploadedFile) : Request :=
  mkRequest (Some ("Bearer " ++ session7)) email None None None upload_ 0 param_email.

Definition add_alice : Request := as_alice (Some "a@x.com") "" None.
Definition add_bob : Request := as_alice (Some "b@x.com") "" None.
Definition add_malformed : Request := as_alice (Some "a@b") "" None.

(** An address with an em space (U+2003, in UTF-8 the bytes 226, 128 and
    131) in its local part. *)
Definition em_space : string :=
  String (ascii_of_nat 226) (String (ascii_of_nat 128) (String (ascii_of_nat 131) "")).
Definition spaced_address : string := "a" ++ em_space ++ "b@x.com".
Definition add_spaced : Request := as_alice (Some spaced_address) "" None.

(** The pool cannot hand out a connection. *)
Definition pool_fails : list EnvEvent := [mkEvent (fun d => d) (Some connection_lost)].
Definition remove_alice : Request := as_alice None "a@x.com" None.
Definition remove_bob : Request := as_alice None "b@x.com" None.

(** The sample database with "b@x.com" whitelisted as well. *)
Definition open_house : DB :=
  set_whitelist populated [mkWhitelist 1 "a@x.com" 0; mkWhitelist 2 "b@x.com" 0].

Definition bob_registers : Request := with_body (Some "b@x.com") (Some "pw") None None.

Definition nobody_forgot : Request := with_body (Some "nobody@x.com") None None None.

Definition alice_new_password : Request := with_body (Some "a@x.com") (Some "pw2") None None.

Definition notes : UploadedFile := mkUploadedFile "notes.txt" "uploads/f2".

Definition upload_notes : Request := as_alice None "" (Some notes).

(** Another connection commits a record named "notes.txt". *)
Definition rival_uploads_notes : EnvEvent :=
  mkEvent (fun d => set_files d (files d ++ [mkFile 9 "notes.txt" "uploads/r"])) None.

(** The same token under another scheme word. *)
Definition token_scheme : Request :=
  mkRequest (Some ("Token " ++ session7)) None None None None None 0 "".

Definition bearer_scheme : Request := with_bearer empty_request session7.

(** A chat table of two threads. *)
Definition chat : Chat.ChatDB string :=
  Chat.mkChatDB
    [Chat.mkMessage 1 "t1" "user" "hello" 100;
     Chat.mkMessage 2 "t2" "user" "other" 110;
     Chat.mkMessage 3 "t1" "assistant" "hi" 120]
    4.

End MoreScenario.

(** * Properties *)

(** ** The toy libraries meet the assumptions on jsonwebtoken *)

Module ToyFacts.
Import Toy.

Lemma count_prefix_rep (c d : ascii) (n : nat) (rest : string) :
  d <> c ->
  count_prefix c (rep n c ++ String d rest) = (n, String d rest).
Proof.
  intros Hd. induction n as [|n IH]; simpl.
  - destruct (Ascii.eqb_spec d c); congruence.
  - rewrite Ascii.eqb_refl, IH. reflexivity.
Qed.

Lemma dec_enc (c d : ascii) (z : Z) (rest : string) :
  d <> c ->
  dec c (enc c z ++ String d rest) = Some (z, String d rest).
Proof.
  intros Hd. unfold enc, dec. simpl.
  rewrite (count_prefix_rep c d _ rest Hd).
  destruct (z <? 0) eqn:Hz; simpl.
  - apply Z.ltb_lt in Hz. do 2 f_equal. lia.
  - apply Z.ltb_ge in Hz. do 2 f_equal. lia.
Qed.

Lemma sign_shape (uid : Z) (key : string) (t life : Z) :
  sign uid key t life =
  enc "u" uid ++ String "." (enc "i" t ++ String "."
    (enc "e" (t + life) ++ String "." (rep (String.length key) "k"))).
Proof. reflexivity. Qed.

Lemma verify_sign (uid : Z) (key : string) (t life t' : Z) :
  t' < t + life ->
  verify (sign uid key t life) key t' = inr (mkPayload uid t (t + life)).
Proof.
  intros Hlt. rewrite sign_shape. unfold verify.
  rewrite dec_enc by discriminate. cbn [skip_dot].
  rewrite dec_enc by discriminate. cbn [skip_dot].
  rewrite dec_enc by discriminate. cbn [skip_dot].
  rewrite String.eqb_refl.
  destruct (t + life <=? t') eqn:Hle; [apply Z.leb_le in Hle; lia | reflexivity].
Qed.

Lemma no_space_app (a b : string) :
  no_space (a ++ b) = no_space a && no_space b.
Proof.
  unfold no_space. induction a as [|c a IH]; simpl; [reflexivity|].
  now rewrite IH, andb_assoc.
Qed.

Lemma no_space_rep (n : nat) (c : ascii) :
  Ascii.eqb c " "%char = false -> no_space (rep n c) = true.
Proof.
  intros Hc. unfold no_space. induction n as [|n IH]; simpl; [reflexivity|].
  now rewrite Hc, IH.
Qed.

Lemma no_space_enc (c : ascii) (z : Z) :
  Ascii.eqb c " "%char = false -> no_space (enc c z) = true.
Proof.
  intros Hc. unfold enc.
  change (no_space (String ?x ?r)) with (negb (Ascii.eqb x " "%char) && no_space r).
  rewrite no_space_rep by assumption. now destruct (z <? 0).
Qed.

Lemma sign_no_space (uid : Z) (key : string) (t life : Z) (x : ascii) :
  In x (list_ascii_of_string (sign uid key t life)) -> x <> " "%char.
Proof.
  assert (Hns : no_space (sign uid key t life) = true).
  { rewrite sign_shape.
    repeat (rewrite no_space_app;
            change (no_space (String "."%char ?r)) with (no_space r)).
    now rewrite !no_space_enc, no_space_rep by reflexivity. }
  intros Hx Heq. unfold no_space in Hns.
  rewrite forallb_forall in Hns. specialize (Hns x Hx).
  subst x. discriminate.
Qed.

Lemma toy_sound : @JwtSound toy.
Proof.
  split.
  - intros uid key t life t' [_ Hlt]. simpl.
    exists (mkPayload uid t (t + life)). split; [|reflexivity].
    now apply verify_sign.
  - intros uid key t life. split.
    + simpl. unfold sign, enc. simpl. discriminate.
    + intros c Hc. now apply (sign_no_space uid key t life).
Qed.

End ToyFacts.

(** ** The request pipeline *)

Lemma arrive_now (w : World) : now (snd (arrive w)) = now w.
Proof. destruct w as [d dk t k s [|ev evs]]; reflexivity. Qed.

Lemma arrive_secret (w : World) : JWT_SECRET (snd (arrive w)) = JWT_SECRET w.
Proof. destruct w as [d dk t k s [|ev evs]]; reflexivity. Qed.

Lemma arrive_disk (w : World) : disk (snd (arrive w)) = disk w.
Proof. destruct w as [d dk t k s [|ev evs]]; reflexivity. Qed.

Lemma arrive_salt (w : World) : salt (snd (arrive w)) = salt w.
Proof. destruct w as [d dk t k s [|ev evs]]; reflexivity. Qed.

Lemma arrive_db (w : World) :
  db (snd (arrive w)) = concurrent_only (firstn 1 (schedule w)) (db w).
Proof. destruct w as [d dk t k s [|ev evs]]; reflexivity. Qed.

Lemma arrive_schedule (w : World) : schedule (snd (arrive w)) = tl (schedule w).
Proof. destruct w as [d dk t k s [|ev evs]]; reflexivity. Qed.

Lemma arrive_undisturbed (w : World) : schedule w = [] -> arrive w = (None, w).
Proof. unfold arrive. now intros ->. Qed.

Lemma set_db_same (w : World) : set_db w (db w) = w.
Proof. now destruct w. Qed.

(** A round trip that returns went through, and the database is what the
    statement made of the one it found. *)
Lemma round_trip_Return {A} (run : DB -> Error + (A * DB)) (w w' : World) (a : A) :
  round_trip run w = (Return a, w') ->
  exists d', fst (arrive w) = None /\
             run (db (snd (arrive w))) = inr (a, d') /\
             w' = set_db (snd (arrive w)) d'.
Proof.
  unfold round_trip. destruct (arrive w) as [flt w1]. simpl.
  destruct flt as [e|]; [discriminate|].
  destruct (run (db w1)) as [e | [a' d']]; [discriminate|].
  intros Heq. inversion Heq; subst. eauto.
Qed.

(** A round trip that throws leaves only the concurrent work behind. *)
Lemma round_trip_Throw {A} (run : DB -> Error + (A * DB)) (w w' : World) (e : Error) :
  round_trip run w = (Throw e, w') -> w' = snd (arrive w).
Proof.
  unfold round_trip. destruct (arrive w) as [flt w1]. simpl.
  destruct flt as [e'|]; [now inversion 1|].
  destruct (run (db w1)) as [e' | [a' d']]; now inversion 1.
Qed.

Lemma round_trip_undisturbed {A} (run : DB -> Error + (A * DB)) (w : World) :
  schedule w = [] ->
  round_trip run w =
  match run (db w) with
  | inl e => (Throw e, w)
  | inr (a, d') => (Return a, set_db w d')
  end.
Proof. intros Hs. unfold round_trip. now rewrite arrive_undisturbed. Qed.

(** ** Splitting the Authorization header *)

Lemma js_split_no_sep (sep : ascii) (s : string) :
  (forall c, In c (list_ascii_of_string s) -> c <> sep) ->
  js_split sep s = [s].
Proof.
  induction s as [|c s IH]; simpl; intros Hs; [reflexivity|].
  destruct (Ascii.eqb_spec c sep) as [Heq | Hne].
  - exfalso. apply (Hs c); auto.
  - rewrite IH; auto.
Qed.

Lemma bearer_of_Bearer (token : string) :
  (forall c, In c (list_ascii_of_string token) -> c <> " "%char) ->
  bearer_of (Some ("Bearer " ++ token)) = Some token.
Proof.
  intros Hs. unfold bearer_of. simpl.
  rewrite (js_split_no_sep " "%char token Hs). reflexivity.
Qed.

(** ** Session verification *)

Section Authenticate.
Context `{Externals}.

Lemma authenticate_cases (req : Request) (w : World) :
  match bearer_of (headers_authorization req) with
  | None | Some EmptyString => authenticate req w = inl access_denied
  | Some token =>
      match jwt_verify token (JWT_SECRET w) (now w) with
      | inl _ => authenticate req w = inl invalid_token
      | inr p => authenticate req w = inr (userId p)
      end
  end.
Proof.
  unfold authenticate.
  destruct (bearer_of (headers_authorization req)) as [[|c token]|]; try reflexivity.
  destruct (jwt_verify _ _ _); reflexivity.
Qed.

(** C4, as the code has it: a request without a usable token is answered
    401 "Access denied"; a token that jsonwebtoken rejects, whatever the
    reason (malformed, bad signature, expired), is answered with the one
    response 400 "Invalid token"; the middleware fails in no other way. *)
Theorem authenticate_failures (req : Request) (w : World) :
  (bearer_of (headers_authorization req) = None \/
   bearer_of (headers_authorization req) = Some "" ->
   authenticate req w = inl access_denied) /\
  (forall token reason,
     bearer_of (headers_authorization req) = Some token -> token <> "" ->
     jwt_verify token (JWT_SECRET w) (now w) = inl reason ->
     authenticate req w = inl invalid_token) /\
  (forall r, authenticate req w = inl r -> r = access_denied \/ r = invalid_token) /\
  kind_of access_denied = Some Unauthorized /\
  kind_of invalid_token = Some BadRequest.
Proof.
  pose proof (authenticate_cases req w) as Hc.
  repeat split.
  - intros [Hb | Hb]; rewrite Hb in Hc; exact Hc.
  - intros token reason Hb Hne Hv. rewrite Hb in Hc.
    destruct token; [congruence|]. now rewrite Hv in Hc.
  - intros r Hr.
    destruct (bearer_of (headers_authorization req)) as [[|c token]|];
      try (rewrite Hc in Hr; inversion Hr; now left).
    destruct (jwt_verify _ _ _); rewrite Hc in Hr; inversion Hr. now right.
Qed.

(** C10: the middleware reads the token, the signing secret and the
    clock, and nothing else of the world: two worlds that agree on the
    secret and the time give the same answer, whatever their databases,
    disks and schedules are. *)
Lemma authenticate_reads_secret_and_clock (req : Request) (w1 w2 : World) :
  JWT_SECRET w1 = JWT_SECRET w2 -> now w1 = now w2 ->
  authenticate req w1 = authenticate req w2.
Proof. intros Hs Hn. unfold authenticate. now rewrite Hs, Hn. Qed.

End Authenticate.

(** ** Properties kept by every step *)

Section Stable.
Context {P : World -> Prop}.

Lemma stable_ret {A} (a : A) : stable P (ret a).
Proof. intros w Hw. exact Hw. Qed.

Lemma stable_throw {A} (e : Error) : stable P (@throw A e).
Proof. intros w Hw. exact Hw. Qed.

Lemma stable_bind {A B} (m : M A) (k : A -> M B) :
  stable P m -> (forall a, stable P (k a)) -> stable P (bind m k).
Proof.
  intros Hm Hk w Hw. unfold bind. specialize (Hm w Hw).
  destruct (m w) as [[a | e] w1]; simpl in *; [now apply Hk | exact Hm].
Qed.

Lemma stable_try_catch {A} (m : M A) (handler : Error -> M A) :
  stable P m -> (forall e, stable P (handler e)) -> stable P (try_catch m handler).
Proof.
  intros Hm Hh w Hw. unfold try_catch. specialize (Hm w Hw).
  destruct (m w) as [[a | e] w1]; simpl in *; [exact Hm | now apply Hh].
Qed.

Lemma stable_round_trip {A} (run : DB -> Error + (A * DB)) :
  (forall w, P w -> P (snd (arrive w))) ->
  (forall w a d', P w -> run (db w) = inr (a, d') -> P (set_db w d')) ->
  stable P (round_trip run).
Proof.
  intros Harrive Hrun w Hw. unfold round_trip.
  specialize (Harrive w Hw). destruct (arrive w) as [flt w1]. simpl in *.
  destruct flt as [e|]; [exact Harrive|].
  destruct (run (db w1)) as [e | [a d']] eqn:Hr; simpl; [exact Harrive|].
  eapply Hrun; eauto.
Qed.

Lemma stable_protected `{Externals} (handler : Z -> Request -> M Response)
    (req : Request) :
  (forall uid, stable P (handler uid req)) -> stable P (protected handler req).
Proof.
  intros Hh w Hw. unfold protected.
  destruct (authenticate req w) as [r | uid]; simpl; [exact Hw | now apply Hh].
Qed.

(** The same for code on a connection. *)
Lemma on_stable_ret {A} (a : A) : on_stable P (on_ret a).
Proof. intros c w Hw. exact Hw. Qed.

Lemma on_stable_bind {A B} (m : OnConn A) (k : A -> OnConn B) :
  on_stable P m -> (forall a, on_stable P (k a)) -> on_stable P (on_bind m k).
Proof.
  intros Hm Hk c w Hw. unfold on_bind. specialize (Hm c w Hw).
  destruct (m c w) as [[[a | e] c1] w1]; simpl in *; [now apply Hk | exact Hm].
Qed.

Lemma on_stable_try_catch {A} (m : OnConn A) (handler : Error -> OnConn A) :
  on_stable P m -> (forall e, on_stable P (handler e)) ->
  on_stable P (on_try_catch m handler).
Proof.
  intros Hm Hh c w Hw. unfold on_try_catch. specialize (Hm c w Hw).
  destruct (m c w) as [[[a | e] c1] w1]; simpl in *; [exact Hm | now apply Hh].
Qed.

Lemma on_stable_lift {A} (m : M A) : stable P m -> on_stable P (on_lift m).
Proof.
  intros Hm c w Hw. unfold on_lift. specialize (Hm w Hw).
  destruct (m w) as [o w1]. exact Hm.
Qed.

Lemma on_stable_round_trip {A}
    (run : Connection -> DB -> Error + (A * Connection * DB)) :
  (forall w, P w -> P (snd (arrive w))) ->
  (forall w d', P w -> P (set_db w d')) ->
  on_stable P (conn_round_trip run).
Proof.
  intros Harrive Hset c w Hw. unfold conn_round_trip.
  specialize (Harrive w Hw). destruct (arrive w) as [flt w1]. simpl in *.
  destruct flt as [e|]; [exact Harrive|].
  destruct (run c (db w1)) as [e | [[a c'] d']]; simpl; [exact Harrive|].
  now apply Hset.
Qed.

Lemma stable_released {A} (body : OnConn A) :
  on_stable P body -> stable P (released body).
Proof.
  intros Hb w Hw. unfold released. specialize (Hb None w Hw).
  destruct (body None w) as [[o c] w1]. exact Hb.
Qed.

End Stable.

(** The clock and the configuration are out of reach of the handlers. *)
Section ClockAndSecret.
Context `{Externals}.
Variables (t : Z) (key : string).

Lemma clock_and_secret_round_trip {A} (run : DB -> Error + (A * DB)) :
  stable (clock_and_secret t key) (round_trip run).
Proof.
  apply stable_round_trip.
  - intros w [Hn Hk]. split; [now rewrite arrive_now | now rewrite arrive_secret].
  - intros w a d' Hw _. exact Hw.
Qed.

Lemma clock_and_secret_on_conn {A}
    (run : Connection -> DB -> Error + (A * Connection * DB)) :
  on_stable (clock_and_secret t key) (conn_round_trip run).
Proof.
  apply on_stable_round_trip.
  - intros w [Hn Hk]. split; [now rewrite arrive_now | now rewrite arrive_secret].
  - intros w d' Hw. exact Hw.
Qed.

Lemma clock_and_secret_whitelist_remove (req : Request) :
  stable (clock_and_secret t key) (whitelist_remove req).
Proof.
  apply stable_protected. intros uid.
  apply stable_bind; [apply clock_and_secret_round_trip | intros _].
  apply stable_try_catch; [|intros e; apply stable_ret].
  apply stable_bind; [apply clock_and_secret_round_trip|].
  intros a. destruct (a =? 0); apply stable_ret.
Qed.

Lemma clock_and_secret_compare (data : option string) (hashed : string) :
  stable (clock_and_secret t key) (bcrypt_compare_async data hashed).
Proof. destruct data; [apply stable_ret | apply stable_throw]. Qed.

Lemma clock_and_secret_rollback (r : Response) :
  on_stable (clock_and_secret t key) (on_bind conn_rollback (fun _ => on_ret r)).
Proof.
  apply on_stable_bind; [apply clock_and_secret_on_conn|].
  intros _. apply on_stable_ret.
Qed.

Lemma clock_and_secret_delete_user (req : Request) :
  stable (clock_and_secret t key) (delete_user req).
Proof.
  apply stable_protected. intros uid.
  apply stable_bind; [apply clock_and_secret_round_trip | intros _].
  apply stable_released. unfold delete_user_on.
  apply on_stable_bind; [apply clock_and_secret_on_conn | intros _].
  apply on_stable_try_catch; [|intros e; apply clock_and_secret_rollback].
  apply on_stable_bind; [apply clock_and_secret_on_conn|].
  intros found. destruct found as [|user rest].
  { apply clock_and_secret_rollback. }
  apply on_stable_bind; [apply on_stable_lift, clock_and_secret_compare|].
  intros matches. destruct matches; simpl.
  2:{ apply clock_and_secret_rollback. }
  apply on_stable_bind; [apply clock_and_secret_on_conn|].
  intros n.
  apply on_stable_bind; [apply clock_and_secret_on_conn|].
  intros affected. destruct (affected =? 0).
  - apply clock_and_secret_rollback.
  - apply on_stable_bind; [apply clock_and_secret_on_conn | intros; apply on_stable_ret].
Qed.

End ClockAndSecret.

(** ** Signed tokens as bearer credentials *)

Section Bearer.
Context `{Externals}.
Hypothesis jwt_sound : JwtSound.

(** A token signed with the server's secret passes the middleware, with
    the user it names, for as long as it lives. *)
Lemma signed_token_authenticates (uid : Z) (t life : Z) (req : Request) (w : World) :
  headers_authorization req =
    Some ("Bearer " ++ jwt_sign uid (JWT_SECRET w) t life) ->
  t <= now w < t + life ->
  authenticate req w = inr uid.
Proof.
  intros Hh Ht.
  destruct (@jwt_sign_compact _ jwt_sound uid (JWT_SECRET w) t life)
    as [Hne Hsp].
  destruct (@jwt_verify_sign _ jwt_sound uid (JWT_SECRET w) t life (now w) Ht)
    as [p [Hv Hp]].
  pose proof (authenticate_cases req w) as Hc.
  rewrite Hh, (bearer_of_Bearer _ Hsp) in Hc.
  destruct (jwt_sign uid (JWT_SECRET w) t life) eqn:Htok; [congruence|].
  rewrite Hv in Hc. now rewrite Hc, Hp.
Qed.

End Bearer.

(** C10: session verification consults no store.  Two runs that differ
    in their databases (whitelist, users), disks and schedules but not in
    secret and clock verify a bearer token alike; in particular the world
    left by removing a whitelist entry or by deleting an account answers
    as the world before it; and a session token issued for an hour (as
    login does) is accepted throughout that hour by every world holding
    the secret, whatever its user and whitelist tables contain. *)
Theorem session_verification_ignores_stores `{Externals} (bearer_req : Request) :
  (forall w1 w2,
     JWT_SECRET w1 = JWT_SECRET w2 -> now w1 = now w2 ->
     authenticate bearer_req w1 = authenticate bearer_req w2) /\
  (forall admin_req w,
     authenticate bearer_req (snd (whitelist_remove admin_req w)) =
     authenticate bearer_req w) /\
  (forall owner_req w,
     authenticate bearer_req (snd (delete_user owner_req w)) =
     authenticate bearer_req w) /\
  (JwtSound ->
   forall uid issued w,
     headers_authorization bearer_req =
       Some ("Bearer " ++ jwt_sign uid (JWT_SECRET w) issued (60 * 60)) ->
     issued <= now w < issued + 60 * 60 ->
     authenticate bearer_req w = inr uid).
Proof.
  repeat split.
  - intros w1 w2. apply authenticate_reads_secret_and_clock.
  - intros admin_req w.
    destruct (clock_and_secret_whitelist_remove (now w) (JWT_SECRET w) admin_req w)
      as [Hn Hk]; [now split|].
    now apply authenticate_reads_secret_and_clock.
  - intros owner_req w.
    destruct (clock_and_secret_delete_user (now w) (JWT_SECRET w) owner_req w)
      as [Hn Hk]; [now split|].
    now apply authenticate_reads_secret_and_clock.
  - intros Hjwt uid issued w Hh Ht.
    now apply (signed_token_authenticates Hjwt uid issued (60 * 60)).
Qed.

(** C9: a reset token is a session token.  When the reset request
    answers 200, the token it hands out is the one recorded in the ledger
    for the user found by email, and, presented as a bearer credential at
    any time of its fifteen minutes to a world holding the same secret, it
    passes the auth middleware with that user's id. *)
Theorem reset_token_passes_as_session `{Externals} (jwt_sound : JwtSound)
    (req : Request) (w w' : World) (r : Response) :
  request_password_reset req w = (Return r, w') ->
  status r = 200 ->
  exists token row user,
    body r = JObj [("message", JStr "Password reset token generated");
                   ("token", JStr token)] /\
    In user (users (concurrent_only (firstn 1 (schedule w)) (db w))) /\
    sql_eq (user_email user) (body_email req) = true /\
    In row (password_reset_tokens (db w')) /\
    rt_token row = token /\ rt_user_id row = user_id user /\
    rt_expires_at row = now w + 15 * 60 /\ rt_used row = false /\
    forall bearer_req w2,
      headers_authorization bearer_req = Some ("Bearer " ++ token) ->
      JWT_SECRET w2 = JWT_SECRET w ->
      now w <= now w2 < now w + 15 * 60 ->
      authenticate bearer_req w2 = inr (user_id user).
Proof.
  intros Hrun Hst.
  unfold request_password_reset, try_catch, bind, pool_query in Hrun.
  destruct (round_trip (select_users_by_email (body_email req)) w)
    as [[found | e] w1] eqn:Hsel.
  2:{ inversion Hrun; subst. discriminate. }
  apply round_trip_Return in Hsel as (d1 & _ & Hq & ->).
  unfold select_users_by_email, select in Hq. inversion Hq; subst found d1. clear Hq.
  rewrite arrive_db in Hrun.
  destruct (filter _ (users _)) as [|user others] eqn:Hfound.
  { inversion Hrun; subst. discriminate. }
  assert (Hin : In user (filter (fun u => sql_eq (user_email u) (body_email req))
                          (users (concurrent_only (firstn 1 (schedule w)) (db w)))))
    by (rewrite Hfound; now left).
  apply filter_In in Hin as [Hin Heq].
  unfold jwt_sign_now, get_world in Hrun. cbn [set_db JWT_SECRET now] in Hrun.
  rewrite arrive_secret, arrive_now in Hrun.
  match type of Hrun with
  | context [round_trip ?run ?w0] =>
      destruct (round_trip run w0) as [[id | e] w2] eqn:Hins
  end.
  2:{ inversion Hrun; subst. discriminate. }
  apply round_trip_Return in Hins as (d2 & _ & Hq & ->).
  inversion Hrun; subst r w'. clear Hrun.
  unfold insert_reset_token in Hq.
  destruct (existsb _ _); [|discriminate].
  inversion Hq; subst id d2. clear Hq.
  eexists _, (mkToken _ (user_id user) _ (now w + 15 * 60) false), user.
  repeat split; try reflexivity; try assumption.
  - simpl. apply in_or_app. right. left. reflexivity.
  - intros bearer_req w2 Hh Hk Ht. simpl.
    apply (signed_token_authenticates jwt_sound (user_id user) (now w) (15 * 60)).
    + now rewrite Hk.
    + exact Ht.
Qed.

(** ** Lists of rows *)

Lemma filter_head_find {R} (f : R -> bool) (l : list R) :
  find f l = hd_error (filter f l).
Proof.
  induction l as [|x l IH]; simpl; [reflexivity|].
  destruct (f x); [reflexivity | exact IH].
Qed.

Lemma filter_nil_existsb {R} (f : R -> bool) (l : list R) :
  existsb f l = false -> filter f l = [].
Proof.
  induction l as [|x l IH]; simpl; [reflexivity|].
  destruct (f x); simpl; [discriminate | exact IH].
Qed.

Lemma filter_cons_existsb {R} (f : R -> bool) (l : list R) :
  existsb f l = true -> exists x rest, filter f l = x :: rest /\ find f l = Some x.
Proof.
  induction l as [|x l IH]; simpl; [discriminate|].
  destruct (f x); simpl; [eauto | exact IH].
Qed.

Lemma find_filter_cons {R} (f : R -> bool) (l : list R) (x : R) :
  find f l = Some x -> exists rest, filter f l = x :: rest.
Proof.
  rewrite filter_head_find. destruct (filter f l) as [|y rest]; simpl; [discriminate|].
  intros Hx. inversion Hx; subst. eauto.
Qed.

Lemma find_none_filter {R} (f : R -> bool) (l : list R) :
  find f l = None -> filter f l = [].
Proof.
  rewrite filter_head_find. destruct (filter f l); simpl; [reflexivity | discriminate].
Qed.

(** ** Login *)

(** The first statement of a handler in an undisturbed run. *)
Ltac first_query Hs :=
  unfold try_catch, bind, pool_query;
  rewrite round_trip_undisturbed by exact Hs.

(** Login past the whitelist check, up to the result of the user lookup. *)
Ltac whitelisted_then_users Hs Hwl Hsame :=
  unfold login; first_query Hs;
  unfold select_whitelist_by_email, select;
  destruct (filter_cons_existsb _ _ Hwl) as (?entry & ?entries & -> & _);
  rewrite Hsame, round_trip_undisturbed by exact Hs;
  unfold select_users_by_email, select.

(** C6: in an undisturbed run the whitelist decides first.  An email
    that is not whitelisted is answered 403 with the whitelist message,
    whatever the users table and the password are; a whitelisted email
    with no user, or with a password bcrypt does not accept, is answered
    with the one 401 "Invalid credentials"; a whitelisted email with a
    matching password is answered with a one-hour token for the user.
    Login changes nothing. *)
Theorem login_checks_whitelist_first `{Externals} (req : Request) (w : World) :
  schedule w = [] ->
  (is_whitelisted (db w) (body_email req) = false ->
   login req w = (Return not_whitelisted, w)) /\
  (is_whitelisted (db w) (body_email req) = true ->
   user_by_email (db w) (body_email req) = None ->
   login req w = (Return invalid_credentials, w)) /\
  (forall user password,
     is_whitelisted (db w) (body_email req) = true ->
     user_by_email (db w) (body_email req) = Some user ->
     body_password req = Some password ->
     bcrypt_compare password (user_password user) = false ->
     login req w = (Return invalid_credentials, w)) /\
  (forall user password,
     is_whitelisted (db w) (body_email req) = true ->
     user_by_email (db w) (body_email req) = Some user ->
     body_password req = Some password ->
     bcrypt_compare password (user_password user) = true ->
     login req w =
     (Return (mkResponse 200
                (JObj [("token",
                        JStr (jwt_sign (user_id user) (JWT_SECRET w) (now w) (60 * 60)))])),
      w)) /\
  kind_of not_whitelisted = Some Forbidden /\
  kind_of invalid_credentials = Some Unauthorized.
Proof.
  intros Hs.
  assert (Hsame : set_db w (db w) = w) by (now destruct w).
  unfold is_whitelisted, user_by_email.
  repeat split.
  - intros Hwl. unfold login. first_query Hs.
    unfold select_whitelist_by_email, select.
    rewrite (filter_nil_existsb _ _ Hwl), Hsame. reflexivity.
  - intros Hwl Hu. whitelisted_then_users Hs Hwl Hsame.
    rewrite (find_none_filter _ _ Hu), Hsame. reflexivity.
  - intros user password Hwl Hu Hp Hc. whitelisted_then_users Hs Hwl Hsame.
    destruct (find_filter_cons _ _ _ Hu) as (others & ->).
    rewrite Hsame, Hp. unfold bcrypt_compare_async, ret. rewrite Hc. reflexivity.
  - intros user password Hwl Hu Hp Hc. whitelisted_then_users Hs Hwl Hsame.
    destruct (find_filter_cons _ _ _ Hu) as (others & ->).
    rewrite Hsame, Hp. unfold bcrypt_compare_async, ret. rewrite Hc. reflexivity.
Qed.

(** ** The reset-token ledger *)

Lemma token_is_valid_iff `{Externals} (token : option string) (t : Z) (row : ResetToken) :
  token_is_valid token t row = true <->
  sql_eq (rt_token row) token = true /\ rt_used row = false /\ t < rt_expires_at row.
Proof.
  unfold token_is_valid. rewrite !andb_true_iff, negb_true_iff, Z.ltb_lt. tauto.
Qed.

(** C8: in an undisturbed run, validation answers 200 with the user of
    the first row that has the token value, is unused and expires after
    now; it answers 200 only if there is such a row; without one it gives
    the one answer 400 "Invalid or expired token", whether the value is
    unknown, used or expired; in particular a value whose rows all expire
    at or before now is rejected whatever their used flags are.
    Validation changes nothing. *)
Theorem verify_reset_token_validates `{Externals} (req : Request) (w : World) :
  schedule w = [] ->
  (forall row,
     valid_token_row (db w) (body_token req) (now w) = Some row ->
     verify_reset_token req w =
     (Return (mkResponse 200
                (JObj [("valid", JBool true); ("userId", JNum (rt_user_id row))])),
      w)) /\
  (valid_token_row (db w) (body_token req) (now w) = None ->
   verify_reset_token req w = (Return invalid_or_expired, w)) /\
  (forall r w',
     verify_reset_token req w = (Return r, w') -> status r = 200 ->
     exists row,
       In row (password_reset_tokens (db w)) /\
       sql_eq (rt_token row) (body_token req) = true /\
       rt_used row = false /\ now w < rt_expires_at row /\
       body r = JObj [("valid", JBool true); ("userId", JNum (rt_user_id row))]) /\
  ((forall row,
      In row (password_reset_tokens (db w)) ->
      sql_eq (rt_token row) (body_token req) = true ->
      rt_used row = true \/ rt_expires_at row <= now w) ->
   verify_reset_token req w = (Return invalid_or_expired, w)) /\
  ((forall row,
      In row (password_reset_tokens (db w)) ->
      sql_eq (rt_token row) (body_token req) = true ->
      rt_expires_at row <= now w) ->
   verify_reset_token req w = (Return invalid_or_expired, w)).
Proof.
  intros Hs.
  assert (Hsame : set_db w (db w) = w) by (now destruct w).
  assert (Hsome : forall row,
    valid_token_row (db w) (body_token req) (now w) = Some row ->
    verify_reset_token req w =
    (Return (mkResponse 200
               (JObj [("valid", JBool true); ("userId", JNum (rt_user_id row))])),
     w)).
  { intros row Hrow. unfold verify_reset_token, try_catch, bind, get_world, pool_query.
    rewrite round_trip_undisturbed by exact Hs.
    unfold select_valid_tokens, select.
    destruct (find_filter_cons _ _ _ Hrow) as (others & ->).
    now rewrite Hsame. }
  assert (Hnone :
    valid_token_row (db w) (body_token req) (now w) = None ->
    verify_reset_token req w = (Return invalid_or_expired, w)).
  { intros Hrow. unfold verify_reset_token, try_catch, bind, get_world, pool_query.
    rewrite round_trip_undisturbed by exact Hs.
    unfold select_valid_tokens, select.
    rewrite (find_none_filter _ _ Hrow). now rewrite Hsame. }
  assert (Hrejected :
    (forall row,
      In row (password_reset_tokens (db w)) ->
      sql_eq (rt_token row) (body_token req) = true ->
      rt_used row = true \/ rt_expires_at row <= now w) ->
    verify_reset_token req w = (Return invalid_or_expired, w)).
  { intros Hall. apply Hnone. unfold valid_token_row.
    destruct (find _ _) as [row|] eqn:Hfind; [|reflexivity].
    apply find_some in Hfind as [Hin Hvalid].
    apply token_is_valid_iff in Hvalid as (Heq & Hused & Hexp).
    destruct (Hall row Hin Heq); [congruence | lia]. }
  repeat split.
  - exact Hsome.
  - exact Hnone.
  - intros r w' Hrun Hst.
    destruct (valid_token_row (db w) (body_token req) (now w)) as [row|] eqn:Hrow.
    + rewrite (Hsome row eq_refl) in Hrun. inversion Hrun; subst r w'.
      apply find_some in Hrow as [Hin Hvalid].
      apply token_is_valid_iff in Hvalid as (Heq & Hused & Hexp).
      exists row. simpl. auto.
    + rewrite (Hnone eq_refl) in Hrun. inversion Hrun; subst r. discriminate.
  - exact Hrejected.
  - intros Hall. apply Hrejected. intros row Hin Heq. right. now apply Hall.
Qed.

(** ** Registration *)

(** In an undisturbed run, registering an email some user already has
    ends in the catch-all: 500 with MySQL's duplicate-entry message.  The
    world is as before: no user is added, no hash is touched. *)
Lemma register_taken_email `{Externals} (req : Request) (w : World)
    (email password : string) :
  schedule w = [] ->
  body_email req = Some email -> body_password req = Some password ->
  existsb (fun u => sql_eq (user_email u) (Some email)) (users (db w)) = true ->
  register req w =
  (Return (mkResponse 500
             (err_body ("Duplicate entry '" ++ email ++ "' for key 'users.email'"))), w).
Proof.
  intros Hs He Hp Hdup.
  unfold register, try_catch, bind, pool_query, bcrypt_hash_async.
  rewrite Hp, round_trip_undisturbed by exact Hs.
  unfold insert_user. rewrite He, Hdup. reflexivity.
Qed.

(** C3 on the sample database: a second registration of "a@x.com" is
    answered 500 (Internal, not Conflict); the world, and with it alice's
    hash, is unchanged. *)
Theorem register_again_answers_500 :
  @register toy Scenario.register_alice_again
            (Examples.world_at Scenario.populated []) =
  (Return (mkResponse 500
             (err_body "Duplicate entry 'a@x.com' for key 'users.email'")),
   Examples.world_at Scenario.populated []) /\
  kind_of (mkResponse 500
             (err_body "Duplicate entry 'a@x.com' for key 'users.email'"))
  = Some Internal.
Proof. split; vm_compute; reflexivity. Qed.

(** ** Deleting a file *)

(** In an undisturbed run over a record whose blob is not on disk, the
    unlink throws, the record is deleted all the same, and the answer
    still says [physicalFileDeleted: true]. *)
Lemma delete_file_missing_blob `{Externals} (req : Request) (w : World)
    (row : FileRecord) :
  schedule w = [] ->
  file_by_id (db w) (params_id req) = Some row ->
  existsb (String.eqb (file_path row)) (disk w) = false ->
  delete_file req w =
  (Return
     (mkResponse 200
        (JObj [("message", JStr "File deleted completely");
               ("details",
                JObj [("dbRecordDeleted",
                       JBool (Z.of_nat (length (filter (fun f => file_id f =? params_id req)
                                                       (files (db w)))) =? 1));
                      ("physicalFileDeleted", JBool true);
                      ("deletedId", JNum (params_id req))])])),
   set_db w (set_files (db w)
               (filter (fun f => negb (file_id f =? params_id req)) (files (db w))))).
Proof.
  intros Hs Hrow Hmissing.
  assert (Hsame : set_db w (db w) = w) by (now destruct w).
  unfold delete_file, try_catch, bind, pool_query.
  rewrite round_trip_undisturbed by exact Hs.
  unfold select_files_by_id, select.
  destruct (find_filter_cons _ _ _ Hrow) as (others & Hfound).
  rewrite Hfound, Hsame. unfold fs_unlink. rewrite Hmissing.
  unfold console_error, ret.
  rewrite round_trip_undisturbed by exact Hs.
  unfold delete_file_by_id. rewrite Hfound. reflexivity.
Qed.

(** C1 on the sample database: the blob of record 1 is not on disk, the
    record is deleted, and the answer reports both deletions as done. *)
Theorem delete_file_missing_blob_reports_true :
  existsb (String.eqb "uploads/f1") (disk (Examples.world_at Scenario.populated [])) = false /\
  delete_file Scenario.delete_report (Examples.world_at Scenario.populated []) =
  (Return
     (mkResponse 200
        (JObj [("message", JStr "File deleted completely");
               ("details",
                JObj [("dbRecordDeleted", JBool true);
                      ("physicalFileDeleted", JBool true);
                      ("deletedId", JNum 1)])])),
   Examples.world_at (set_files Scenario.populated []) []).
Proof. split; vm_compute; reflexivity. Qed.

(** ** Resetting a password *)

(** The two updates of a reset are two round trips.  When the third
    round trip of the request fails, whatever the database, the answer is
    500, the new hash is stored and the ledger is as it was. *)
Lemma reset_password_torn `{Externals} (req : Request) (d : DB)
    (paths : list string) (t : Z) (key salt_ : string) (e : Error)
    (rest : list EnvEvent) (row : ResetToken) (password : string) :
  valid_token_row d (body_token req) t = Some row ->
  body_newPassword req = Some password ->
  reset_password req
    (mkWorld d paths t key salt_
       (quiet :: quiet :: mkEvent (fun d => d) (Some e) :: rest)) =
  (Return (mkResponse 500 (err_body (err_message e))),
   mkWorld
     (set_users d
        (map (fun u => if user_id u =? rt_user_id row
                       then mkUser (user_id u) (user_email u)
                                   (bcrypt_hash password 10 salt_)
                       else u) (users d)))
     paths t key salt_ rest).
Proof.
  intros Hrow Hp.
  destruct (find_filter_cons _ _ _ Hrow) as (others & Hfound).
  unfold reset_password, try_catch, bind, get_world, pool_query, round_trip, arrive.
  cbn [schedule fault concurrent quiet db set_db set_schedule disk now JWT_SECRET salt
       select_valid_tokens select].
  rewrite Hfound. unfold bcrypt_hash_async. rewrite Hp.
  cbn [schedule fault concurrent quiet db set_db set_schedule disk now JWT_SECRET salt
       update_user_password].
  reflexivity.
Qed.

(** C2 on the sample database: the two updates are separate round trips.
    When the connection is lost at the third one (marking the token), the
    request is answered 500, alice's password is already the new hash,
    and the token is still unused. *)
Theorem reset_password_is_not_atomic :
  let '(answer, w') :=
    @reset_password toy Scenario.reset_alice
      (Scenario.disturbed Scenario.populated [] Scenario.third_fails) in
  answer = Return (mkResponse 500 (err_body "read ECONNRESET")) /\
  users (db w') = [mkUser 7 "a@x.com" (Toy.hash "pw2" 10 "salt")] /\
  users (db w') <> users Scenario.populated /\
  password_reset_tokens (db w') = password_reset_tokens Scenario.populated /\
  map rt_used (password_reset_tokens (db w')) = [false].
Proof. vm_compute. repeat split; try reflexivity. discriminate. Qed.

(** ** Uploading a file *)

Section Upload.
Context `{Externals}.

(** The UNIQUE key on [files.filename]: an insert that goes through
    keeps the filenames distinct. *)
Lemma insert_file_keeps_unique (filename path_ : string) (d d' : DB) (id : Z) :
  files_unique d -> insert_file filename path_ d = inr (id, d') -> files_unique d'.
Proof.
  unfold insert_file, files_unique. intros Hu Hins.
  destruct (existsb _ (files d)) eqn:Htaken; [discriminate|].
  inversion Hins; subst id d'. clear Hins. cbn [files].
  rewrite map_app. apply NoDup_app; [exact Hu | repeat constructor; intros [] |].
  intros name Hin [Hname | []]. subst name.
  apply in_map_iff in Hin as (f & Hf & Hin).
  assert (Hex : existsb (fun f => sql_eq (file_filename f) (Some filename)) (files d) = true).
  { apply existsb_exists. exists f. split; [exact Hin|].
    unfold sql_eq. rewrite Hf. apply String.eqb_refl. }
  congruence.
Qed.

Lemma keeps_files_unique_arrive (w : World) :
  keeps_files_unique w -> keeps_files_unique (snd (arrive w)).
Proof.
  destruct w as [d dk t k s [|ev evs]]; [trivial|].
  unfold keeps_files_unique. cbn. intros [Hu Hall].
  inversion Hall as [|ev' evs' Hev Hevs]; subst. split; [now apply Hev | exact Hevs].
Qed.

Lemma keeps_files_unique_select {R} (table : DB -> list R) (where_ : R -> bool) :
  stable keeps_files_unique (pool_query (select table where_)).
Proof.
  apply stable_round_trip; [exact keeps_files_unique_arrive|].
  intros w a d' Hw Hq. unfold select in Hq. inversion Hq; subst. now destruct w.
Qed.

Lemma keeps_files_unique_insert (filename path_ : string) :
  stable keeps_files_unique (pool_query (insert_file filename path_)).
Proof.
  apply stable_round_trip; [exact keeps_files_unique_arrive|].
  intros w a d' [Hu Hall] Hq. split; [|exact Hall].
  exact (insert_file_keeps_unique _ _ _ _ _ Hu Hq).
Qed.

(** Whatever the request and the schedule, an upload leaves the
    filenames distinct. *)
Lemma upload_keeps_files_unique (req : Request) :
  stable keeps_files_unique (upload req).
Proof.
  apply stable_protected. intros uid.
  apply stable_bind.
  { intros w Hw. unfold upload_single. destruct (file req); exact Hw. }
  intros _. apply stable_try_catch; [|intros e; apply stable_ret].
  destruct (file req) as [f|]; [|apply stable_ret].
  apply stable_bind; [apply keeps_files_unique_select|].
  intros existing. destruct (0 <? length existing)%nat; [apply stable_ret|].
  apply stable_bind; [apply keeps_files_unique_insert | intros; apply stable_ret].
Qed.

End Upload.

(** C5, as the code has it: in an undisturbed run an authenticated
    upload whose filename is already recorded is answered 400 "File with
    this name already exists" (the status of a bad request; the handler
    has no 409) and the database is left as it was, only the blob multer
    stored is new on disk; and whatever the request and the schedule, an
    upload never leaves two records with one filename. *)
Theorem upload_rejects_taken_name `{Externals} (req : Request) (w : World)
    (uid : Z) (f : UploadedFile) :
  schedule w = [] ->
  authenticate req w = inr uid ->
  file req = Some f ->
  filename_taken (db w) (originalname f) = true ->
  upload req w = (Return name_exists, set_disk w (path f :: disk w)) /\
  db (snd (upload req w)) = db w /\
  kind_of name_exists = Some BadRequest /\
  (forall any_req any_w,
     keeps_files_unique any_w -> files_unique (db (snd (upload any_req any_w)))).
Proof.
  intros Hs Hauth Hf Htaken.
  assert (Hrun : upload req w = (Return name_exists, set_disk w (path f :: disk w))).
  { unfold upload, protected. rewrite Hauth.
    unfold bind at 1. unfold upload_single. rewrite Hf.
    unfold try_catch, bind, pool_query.
    rewrite round_trip_undisturbed by exact Hs.
    unfold select_files_by_filename, select.
    destruct (filter_cons_existsb _ _ Htaken) as (row & others & Hfound & _).
    cbn [db set_disk]. rewrite Hfound. destruct w; reflexivity. }
  repeat split.
  - exact Hrun.
  - now rewrite Hrun.
  - intros any_req any_w Hk. now apply (upload_keeps_files_unique any_req any_w).
Qed.

(** ** Deleting an account *)

Lemma key_in_one (a b : Z) : key_in a [b] = (a =? b).
Proof. unfold key_in. simpl. apply orb_false_r. Qed.

(** Committing the deletions under the keys of one user. *)
Lemma apply_txn_without_user (uid : Z) (d : DB) :
  apply_txn (mkTxn [uid] [uid]) d = without_user uid d.
Proof.
  unfold apply_txn, without_user, visible_token, visible_user.
  cbn [deleted_tokens_of deleted_user_ids].
  f_equal; [f_equal|]; apply filter_ext; intros x; now rewrite key_in_one.
Qed.

Lemma filter_visible_no_users (key : User -> bool) (tokens_of : list Z)
    (l : list User) :
  filter (fun u => key u && visible_user (mkTxn tokens_of []) u) l = filter key l.
Proof. apply filter_ext. intros u. apply andb_true_r. Qed.

(** Once the tokens of a user are deleted in the transaction, none of
    them stands in the way of deleting the user. *)
Lemma no_visible_token_left (uid : Z) (l : list ResetToken) :
  existsb (fun t => (rt_user_id t =? uid) && visible_token (mkTxn [uid] []) t) l
  = false.
Proof.
  induction l as [|t l IH]; [reflexivity|]. simpl. rewrite IH.
  unfold visible_token. cbn [deleted_tokens_of]. rewrite key_in_one.
  now destruct (rt_user_id t =? uid).
Qed.

Lemma elapsed_0 (w : World) : elapsed 0 w = w.
Proof. now destruct w. Qed.

Lemma firstn_skipn_next {R} (k : nat) (l : list R) :
  match skipn k l with
  | [] => firstn (S k) l = firstn k l /\ skipn (S k) l = []
  | x :: rest => firstn (S k) l = (firstn k l ++ [x])%list /\ skipn (S k) l = rest
  end.
Proof.
  revert l. induction k as [|k IH]; intros l.
  - destruct l; simpl; auto.
  - destruct l as [|y l]; [simpl; auto|].
    specialize (IH l). cbn [skipn]. destruct (skipn k l) as [|x rest].
    + destruct IH as [IH1 IH2]. split; [|exact IH2].
      change (firstn (S (S k)) (y :: l)) with (y :: firstn (S k) l).
      now rewrite IH1.
    + destruct IH as [IH1 IH2]. split; [|exact IH2].
      change (firstn (S (S k)) (y :: l)) with (y :: firstn (S k) l).
      now rewrite IH1.
Qed.

Lemma concurrent_only_app (evs1 evs2 : list EnvEvent) (d : DB) :
  concurrent_only (evs1 ++ evs2) d = concurrent_only evs2 (concurrent_only evs1 d).
Proof. unfold concurrent_only. apply fold_left_app. Qed.

(** One more round trip that writes nothing. *)
Lemma arrive_elapsed (k : nat) (w : World) :
  snd (arrive (elapsed k w)) = elapsed (S k) w.
Proof.
  unfold arrive, elapsed. cbn [schedule set_schedule set_db db].
  pose proof (firstn_skipn_next k (schedule w)) as Hn.
  destruct (skipn k (schedule w)) as [|ev rest]; destruct Hn as [Hf Hs];
    rewrite Hf, Hs; [reflexivity|].
  now rewrite concurrent_only_app.
Qed.

Lemma only_concurrent_elapsed (k : nat) (w : World) : only_concurrent w (elapsed k w).
Proof. exists k. split; reflexivity. Qed.

Lemma elapsed_undisturbed (k : nat) (w : World) : schedule w = [] -> elapsed k w = w.
Proof.
  intros Hs. unfold elapsed. rewrite Hs, firstn_nil, skipn_nil.
  destruct w; cbn in *. now subst.
Qed.

Lemma conn_round_trip_eq {A}
    (run : Connection -> DB -> Error + (A * Connection * DB))
    (c : Connection) (w : World) :
  conn_round_trip run c w =
  match fst (arrive w) with
  | Some e => (Throw e, c, snd (arrive w))
  | None =>
      match run c (db (snd (arrive w))) with
      | inl e => (Throw e, c, snd (arrive w))
      | inr (a, c', d') => (Return a, c', set_db (snd (arrive w)) d')
      end
  end.
Proof. unfold conn_round_trip. now destruct (arrive w). Qed.

Lemma nth_error_skipn_head {R} (k : nat) (l : list R) :
  nth_error l k = match skipn k l with [] => None | x :: _ => Some x end.
Proof.
  revert l. induction k as [|k IH]; intros [|y l]; try reflexivity. apply IH.
Qed.

(** The fault that the next round trip meets. *)
Lemma arrive_fault (k : nat) (w : World) : fst (arrive (elapsed k w)) = fault_at k w.
Proof.
  unfold arrive, elapsed, fault_at. cbn [schedule set_schedule set_db].
  rewrite nth_error_skipn_head. now destruct (skipn k (schedule w)).
Qed.

Lemma fault_at_undisturbed (k : nat) (w : World) : schedule w = [] -> fault_at k w = None.
Proof. intros Hs. unfold fault_at. rewrite Hs. now destruct k. Qed.

(** The round trip to the pool. *)
Lemma pool_getConnection_run (w : World) :
  pool_getConnection w =
  (match fault_at 0 w with Some e => Throw e | None => Return tt end, elapsed 1 w).
Proof.
  rewrite <- (arrive_fault 0 w), <- (arrive_elapsed 0 w), elapsed_0.
  unfold pool_getConnection, round_trip.
  destruct (arrive w) as [[e|] w1]; [reflexivity|]. cbn [fst snd].
  now rewrite set_db_same.
Qed.

Lemma pool_getConnection_undisturbed (w : World) :
  schedule w = [] -> pool_getConnection w = (Return tt, w).
Proof.
  intros Hs. rewrite pool_getConnection_run, fault_at_undisturbed by exact Hs.
  now rewrite elapsed_undisturbed.
Qed.

Section DeleteAccount.
Context `{Externals}.

(** The handler behind the auth middleware, once the pool has answered. *)
Lemma delete_user_connected (req : Request) (w : World) (uid : Z) :
  authenticate req w = inr uid ->
  delete_user req w =
  match fault_at 0 w with
  | Some e => (Throw e, elapsed 1 w)
  | None => released (delete_user_on uid req) (elapsed 1 w)
  end.
Proof.
  intros Hauth. unfold delete_user, protected. rewrite Hauth.
  rewrite <- (arrive_fault 0 w), <- (arrive_elapsed 0 w), elapsed_0.
  unfold bind, pool_getConnection, round_trip.
  destruct (arrive w) as [[e|] w1]; [reflexivity|]. cbn [fst snd].
  now rewrite set_db_same.
Qed.

(** A ROLLBACK and the answer after it. *)
Lemma rollback_then (r : Response) (c : Connection) (k : nat) (w : World) :
  on_bind conn_rollback (fun _ => on_ret r) c (elapsed k w) =
  match fault_at k w with
  | Some e => (Throw e, c, elapsed (S k) w)
  | None => (Return r, None, elapsed (S k) w)
  end.
Proof.
  unfold on_bind, conn_rollback. rewrite conn_round_trip_eq, arrive_elapsed, arrive_fault.
  destruct (fault_at k w); [reflexivity|].
  now rewrite set_db_same.
Qed.

Lemma conn_query_open {A} (stmt : TxStatement A) (tx : Txn) (k : nat) (w : World) :
  conn_query stmt (Some tx) (elapsed k w) =
  match fault_at k w with
  | Some e => (Throw e, Some tx, elapsed (S k) w)
  | None =>
      match stmt tx (db (elapsed (S k) w)) with
      | inl e => (Throw e, Some tx, elapsed (S k) w)
      | inr (a, tx') => (Return a, Some tx', elapsed (S k) w)
      end
  end.
Proof.
  unfold conn_query. rewrite conn_round_trip_eq, arrive_elapsed, arrive_fault.
  destruct (fault_at k w); [reflexivity|].
  destruct (stmt tx (db (elapsed (S k) w))) as [e | [a tx']]; [reflexivity|].
  now rewrite set_db_same.
Qed.

Lemma conn_begin_fresh (k : nat) (w : World) :
  conn_beginTransaction None (elapsed k w) =
  match fault_at k w with
  | Some e => (Throw e, None, elapsed (S k) w)
  | None => (Return tt, Some begin_txn, elapsed (S k) w)
  end.
Proof.
  unfold conn_beginTransaction. rewrite conn_round_trip_eq, arrive_elapsed, arrive_fault.
  destruct (fault_at k w); [reflexivity|].
  cbn [committed]. now rewrite set_db_same.
Qed.

Lemma conn_commit_open (tx : Txn) (k : nat) (w : World) :
  conn_commit (Some tx) (elapsed k w) =
  match fault_at k w with
  | Some e => (Throw e, Some tx, elapsed (S k) w)
  | None => (Return tt, None,
             set_db (elapsed (S k) w) (apply_txn tx (db (elapsed (S k) w))))
  end.
Proof.
  unfold conn_commit. rewrite conn_round_trip_eq, arrive_elapsed, arrive_fault.
  now destruct (fault_at k w).
Qed.

Lemma select_in_fresh (uid : Z) (d : DB) :
  tx_select_users_by_id uid begin_txn d =
  inr (filter (fun u => user_id u =? uid) (users d), begin_txn).
Proof. unfold tx_select_users_by_id. now rewrite (filter_visible_no_users _ []). Qed.

Lemma delete_user_in_txn (uid : Z) (d : DB) :
  tx_delete_user_by_id uid (mkTxn [uid] []) d =
  match filter (fun u => user_id u =? uid) (users d) with
  | [] => inr (0, mkTxn [uid] [])
  | u :: l => inr (Z.of_nat (length (u :: l)), mkTxn [uid] [uid])
  end.
Proof.
  unfold tx_delete_user_by_id.
  rewrite (filter_visible_no_users _ [uid]), no_visible_token_left.
  now destruct (filter _ (users d)).
Qed.

(** *** Runs in which the round trips go through *)

Ltac begin_and_select Hauth Hf :=
  rewrite (delete_user_connected _ _ _ Hauth), (Hf 0%nat) by lia;
  unfold released, delete_user_on;
  unfold on_bind at 1; rewrite conn_begin_fresh, (Hf 1%nat) by lia;
  unfold on_try_catch; unfold on_bind at 1;
  rewrite conn_query_open, select_in_fresh, (Hf 2%nat) by lia.

(** No user row for the authenticated id: ROLLBACK and 401. *)
Lemma delete_user_absent_run (req : Request) (w : World) (uid : Z) :
  authenticate req w = inr uid ->
  (forall k, (k < 4)%nat -> fault_at k w = None) ->
  find (fun u => user_id u =? uid) (users (db (elapsed 3 w))) = None ->
  delete_user req w = (Return invalid_password, elapsed 4 w).
Proof.
  intros Hauth Hf Hnone. begin_and_select Hauth Hf.
  rewrite (find_none_filter _ _ Hnone), rollback_then, (Hf 3%nat) by lia.
  reflexivity.
Qed.

(** The confirming password does not match: ROLLBACK and 401. *)
Lemma delete_user_mismatch_run (req : Request) (w : World) (uid : Z)
    (user : User) (password : string) :
  authenticate req w = inr uid ->
  (forall k, (k < 4)%nat -> fault_at k w = None) ->
  find (fun u => user_id u =? uid) (users (db (elapsed 3 w))) = Some user ->
  body_password req = Some password ->
  bcrypt_compare password (user_password user) = false ->
  delete_user req w = (Return invalid_password, elapsed 4 w).
Proof.
  intros Hauth Hf Hsome Hp Hc. begin_and_select Hauth Hf.
  destruct (find_filter_cons _ _ _ Hsome) as (others & ->).
  unfold on_bind at 1, on_lift, bcrypt_compare_async, ret. rewrite Hp, Hc.
  cbn [negb]. rewrite rollback_then, (Hf 3%nat) by lia. reflexivity.
Qed.

Ltac delete_tokens_and_user Hauth Hf Hsome Hp Hc :=
  begin_and_select Hauth Hf;
  let others := fresh "others" in
  destruct (find_filter_cons _ _ _ Hsome) as (others & ->);
  unfold on_bind at 1, on_lift, bcrypt_compare_async, ret; rewrite Hp, Hc;
  cbn [negb]; unfold on_bind at 1; rewrite conn_query_open, (Hf 3%nat) by lia;
  cbn [tx_delete_tokens_by_user begin_txn deleted_tokens_of deleted_user_ids];
  unfold on_bind at 1; rewrite conn_query_open, delete_user_in_txn.

(** The confirming password matches and the user row is still there
    when its DELETE arrives: the tokens of the user and the user row go
    in one COMMIT, whatever others did to them meanwhile. *)
Lemma delete_user_match_run (req : Request) (w : World) (uid : Z)
    (user still : User) (password : string) :
  authenticate req w = inr uid ->
  (forall k, (k < 6)%nat -> fault_at k w = None) ->
  find (fun u => user_id u =? uid) (users (db (elapsed 3 w))) = Some user ->
  body_password req = Some password ->
  bcrypt_compare password (user_password user) = true ->
  find (fun u => user_id u =? uid) (users (db (elapsed 5 w))) = Some still ->
  delete_user req w =
  (Return account_deleted,
   set_db (elapsed 6 w) (without_user uid (db (elapsed 6 w)))).
Proof.
  intros Hauth Hf Hsome Hp Hc Hstill.
  delete_tokens_and_user Hauth Hf Hsome Hp Hc.
  rewrite (Hf 4%nat) by lia.
  destruct (find_filter_cons _ _ _ Hstill) as (rest & ->).
  replace (Z.of_nat (length (still :: rest)) =? 0) with false
    by (symmetry; apply Z.eqb_neq; simpl length; lia).
  unfold on_bind at 1. rewrite conn_commit_open, (Hf 5%nat) by lia.
  unfold on_ret. now rewrite apply_txn_without_user.
Qed.

(** The user row is gone when its DELETE arrives (another connection
    removed it after the SELECT): zero rows are affected, the transaction
    rolls back and the answer is 404.  The database is what the other
    connections made of it. *)
Lemma delete_user_zero_rows (req : Request) (w : World) (uid : Z)
    (user : User) (password : string) :
  authenticate req w = inr uid ->
  (forall k, (k < 6)%nat -> fault_at k w = None) ->
  find (fun u => user_id u =? uid) (users (db (elapsed 3 w))) = Some user ->
  body_password req = Some password ->
  bcrypt_compare password (user_password user) = true ->
  find (fun u => user_id u =? uid) (users (db (elapsed 5 w))) = None ->
  delete_user req w = (Return user_not_found, elapsed 6 w).
Proof.
  intros Hauth Hf Hsome Hp Hc Hgone.
  delete_tokens_and_user Hauth Hf Hsome Hp Hc.
  rewrite (Hf 4%nat), (find_none_filter _ _ Hgone) by lia. cbn [Z.eqb].
  rewrite rollback_then, (Hf 5%nat) by lia. reflexivity.
Qed.

(** The DELETE of the user row fails after the DELETE of the tokens
    went through: the [catch] rolls the token deletion back and answers
    500. *)
Lemma delete_user_fails_midway (req : Request) (w : World) (uid : Z)
    (user : User) (password : string) (e : Error) :
  authenticate req w = inr uid ->
  (forall k, (k < 4)%nat -> fault_at k w = None) ->
  fault_at 4 w = Some e -> fault_at 5 w = None ->
  find (fun u => user_id u =? uid) (users (db (elapsed 3 w))) = Some user ->
  body_password req = Some password ->
  bcrypt_compare password (user_password user) = true ->
  delete_user req w =
  (Return (mkResponse 500 (err_body (err_message e))), elapsed 6 w).
Proof.
  intros Hauth Hf Hfault Hback Hsome Hp Hc.
  delete_tokens_and_user Hauth Hf Hsome Hp Hc.
  rewrite Hfault, rollback_then, Hback. reflexivity.
Qed.

(** *** Undisturbed runs *)

Lemma no_fault_undisturbed (w : World) (n : nat) :
  schedule w = [] -> forall k, (k < n)%nat -> fault_at k w = None.
Proof. intros Hs k _. now apply fault_at_undisturbed. Qed.

(** No user row for the authenticated id: 401, nothing changed. *)
Lemma delete_user_absent (req : Request) (w : World) (uid : Z) :
  schedule w = [] ->
  authenticate req w = inr uid ->
  find (fun u => user_id u =? uid) (users (db w)) = None ->
  delete_user req w = (Return invalid_password, w).
Proof.
  intros Hs Hauth Hnone.
  rewrite (delete_user_absent_run req w uid Hauth (no_fault_undisturbed w 4 Hs));
    rewrite elapsed_undisturbed by exact Hs; [reflexivity | exact Hnone].
Qed.

(** The confirming password does not match: 401, nothing changed. *)
Lemma delete_user_mismatch (req : Request) (w : World) (uid : Z)
    (user : User) (password : string) :
  schedule w = [] ->
  authenticate req w = inr uid ->
  find (fun u => user_id u =? uid) (users (db w)) = Some user ->
  body_password req = Some password ->
  bcrypt_compare password (user_password user) = false ->
  delete_user req w = (Return invalid_password, w).
Proof.
  intros Hs Hauth Hsome Hp Hc.
  rewrite (delete_user_mismatch_run req w uid user password Hauth
             (no_fault_undisturbed w 4 Hs));
    rewrite ?elapsed_undisturbed by exact Hs; auto.
Qed.

(** The confirming password matches: the tokens of the user and the user
    row go in one commit. *)
Lemma delete_user_match (req : Request) (w : World) (uid : Z)
    (user : User) (password : string) :
  schedule w = [] ->
  authenticate req w = inr uid ->
  find (fun u => user_id u =? uid) (users (db w)) = Some user ->
  body_password req = Some password ->
  bcrypt_compare password (user_password user) = true ->
  delete_user req w = (Return account_deleted, set_db w (without_user uid (db w))).
Proof.
  intros Hs Hauth Hsome Hp Hc.
  rewrite (delete_user_match_run req w uid user user password Hauth
             (no_fault_undisturbed w 6 Hs));
    rewrite ?elapsed_undisturbed by exact Hs; auto.
Qed.

(** The account deletion without a confirming password: bcrypt throws,
    the transaction rolls back. *)
Lemma delete_user_missing_password (req : Request) (w : World) (uid : Z) (user : User) :
  schedule w = [] ->
  authenticate req w = inr uid ->
  find (fun u => user_id u =? uid) (users (db w)) = Some user ->
  body_password req = None ->
  delete_user req w =
  (Return (mkResponse 500 (err_body "data and hash arguments required")), w).
Proof.
  intros Hs Hauth Hsome Hp.
  pose proof (no_fault_undisturbed w 4 Hs) as Hf.
  rewrite <- (elapsed_undisturbed 3 w Hs) in Hsome.
  begin_and_select Hauth Hf.
  destruct (find_filter_cons _ _ _ Hsome) as (others & ->).
  unfold on_bind at 1, on_lift, bcrypt_compare_async, throw. rewrite Hp.
  rewrite rollback_then, (Hf 3%nat) by lia.
  now rewrite elapsed_undisturbed.
Qed.

(** *** Atomicity under any schedule *)

Ltac other_outcome :=
  let Heq := fresh "Heq" in
  cbv beta iota; intros Heq; inversion Heq; subst; right;
  (split; [discriminate|]);
  (split; [eauto | intros; congruence]).

Ltac rolled_back :=
  repeat (rewrite rollback_then; destruct (fault_at _ _); cbv beta iota);
  other_outcome.

Lemma delete_user_on_all_or_nothing (uid : Z) (req : Request) (k : nat) (w : World) o c' w' :
  delete_user_on uid req None (elapsed k w) = (o, c', w') ->
  (o = Return account_deleted /\ c' = None /\
   w' = set_db (elapsed (5 + k) w) (without_user uid (db (elapsed (5 + k) w)))) \/
  (o <> Return account_deleted /\ (exists n, w' = elapsed n w) /\
   (forall r, o = Return r -> c' = None)).
Proof.
  unfold delete_user_on.
  unfold on_bind at 1. rewrite conn_begin_fresh.
  destruct (fault_at k w) as [e|].
  { other_outcome. }
  unfold on_try_catch. unfold on_bind at 1.
  rewrite conn_query_open, select_in_fresh.
  destruct (fault_at (S k) w) as [e|].
  { rolled_back. }
  destruct (filter _ (users (db (elapsed (S (S k)) w)))) as [|user others].
  { rolled_back. }
  unfold on_bind at 1, on_lift, bcrypt_compare_async, throw, ret.
  destruct (body_password req) as [password|].
  2:{ rolled_back. }
  destruct (bcrypt_compare password (user_password user)); cbn [negb].
  2:{ rolled_back. }
  unfold on_bind at 1. rewrite conn_query_open.
  destruct (fault_at (S (S k)) w) as [e|].
  { rolled_back. }
  cbn [tx_delete_tokens_by_user begin_txn deleted_tokens_of deleted_user_ids].
  unfold on_bind at 1. rewrite conn_query_open, delete_user_in_txn.
  destruct (fault_at (S (S (S k))) w) as [e|].
  { rolled_back. }
  destruct (filter _ (users (db (elapsed (S (S (S (S k)))) w)))) as [|u l].
  { cbn [Z.eqb]. rolled_back. }
  replace (Z.of_nat (length (u :: l)) =? 0) with false
    by (symmetry; apply Z.eqb_neq; simpl length; lia).
  unfold on_bind at 1. rewrite conn_commit_open.
  destruct (fault_at (S (S (S (S k)))) w) as [e|].
  { rolled_back. }
  unfold on_ret. rewrite apply_txn_without_user.
  intros Heq. inversion Heq; subst. left. auto.
Qed.

(** Under any schedule, the handler either commits and answers 200, or
    leaves the database to the others. *)
Lemma delete_user_all_or_nothing (req : Request) (w : World) (uid : Z)
    (o : Outcome Response) (w' : World) :
  authenticate req w = inr uid ->
  delete_user req w = (o, w') ->
  (o = Return account_deleted /\
   w' = set_db (elapsed 6 w) (without_user uid (db (elapsed 6 w)))) \/
  (o <> Return account_deleted /\ exists n, w' = elapsed n w).
Proof.
  intros Hauth. rewrite (delete_user_connected _ _ _ Hauth).
  destruct (fault_at 0 w) as [e|].
  { intros Heq. inversion Heq; subst. right. split; [discriminate | eauto]. }
  unfold released.
  destruct (delete_user_on uid req None (elapsed 1 w)) as [[o1 c1] w1] eqn:Hrun.
  intros Heq. inversion Heq; subst o1 w1.
  destruct (delete_user_on_all_or_nothing _ _ _ _ _ _ _ Hrun)
    as [(Ho & _ & Hw) | (Ho & Hw & _)]; [left | right]; auto.
Qed.

End DeleteAccount.

(** What a commit of the deletion leaves of the user. *)
Lemma without_user_gone (uid : Z) (d : DB) :
  find (fun u => user_id u =? uid) (users (without_user uid d)) = None /\
  filter (fun t => rt_user_id t =? uid) (password_reset_tokens (without_user uid d)) = [].
Proof.
  unfold without_user. cbn [users password_reset_tokens set_users set_tokens]. split.
  - induction (users d) as [|u l IH]; [reflexivity|]. simpl.
    destruct (user_id u =? uid) eqn:Hu; simpl; [exact IH | now rewrite Hu].
  - induction (password_reset_tokens d) as [|t l IH]; [reflexivity|]. simpl.
    destruct (rt_user_id t =? uid) eqn:Ht; simpl; [exact IH | now rewrite Ht].
Qed.

(** C7: the account deletion is one atomic unit.  In an undisturbed run
    of an authenticated request, a password that does not match is
    answered 401 and leaves the world as it was (so is a request whose
    user row is already gone when the handler looks it up), and a
    matching one removes every reset token of the user and the user row
    and answers 200.  Under every schedule of faults and concurrent
    commits, whether the request is answered or not, either the answer
    is 200 and the database is the one the others made without the user
    and without any token of the user (the six round trips are
    getConnection, START TRANSACTION, SELECT, DELETE, DELETE and
    COMMIT), or the answer is not 200 and the world holds nothing but
    what the other connections did.  Both happen under concurrency: when
    no round trip fails and the user row is still there at its DELETE the
    deletion commits, whatever the others did to the rows meanwhile; when
    the row is gone by then, zero rows are affected, the answer is 404 and
    no token deletion of this request remains; and when the DELETE of the
    user row fails after the DELETE of the tokens went through, the
    token deletion is rolled back and the answer is 500.  A request that
    is answered leaves no transaction open on its connection. *)
Theorem delete_account_is_atomic `{Externals} (req : Request) (w : World) (uid : Z) :
  authenticate req w = inr uid ->
  (forall user password,
     schedule w = [] ->
     find (fun u => user_id u =? uid) (users (db w)) = Some user ->
     body_password req = Some password ->
     bcrypt_compare password (user_password user) = false ->
     delete_user req w = (Return invalid_password, w)) /\
  (schedule w = [] ->
   find (fun u => user_id u =? uid) (users (db w)) = None ->
   delete_user req w = (Return invalid_password, w)) /\
  (forall user password,
     schedule w = [] ->
     find (fun u => user_id u =? uid) (users (db w)) = Some user ->
     body_password req = Some password ->
     bcrypt_compare password (user_password user) = true ->
     delete_user req w = (Return account_deleted, set_db w (without_user uid (db w)))) /\
  (forall o w',
     delete_user req w = (o, w') ->
     (o = Return account_deleted /\
      w' = set_db (elapsed 6 w) (without_user uid (db (elapsed 6 w)))) \/
     (o <> Return account_deleted /\ exists n, w' = elapsed n w)) /\
  (forall d,
     find (fun u => user_id u =? uid) (users (without_user uid d)) = None /\
     filter (fun t => rt_user_id t =? uid)
            (password_reset_tokens (without_user uid d)) = []) /\
  (forall user password,
     (forall k, (k < 4)%nat -> fault_at k w = None) ->
     find (fun u => user_id u =? uid) (users (db (elapsed 3 w))) = Some user ->
     body_password req = Some password ->
     bcrypt_compare password (user_password user) = false ->
     delete_user req w = (Return invalid_password, elapsed 4 w)) /\
  (forall user still password,
     (forall k, (k < 6)%nat -> fault_at k w = None) ->
     find (fun u => user_id u =? uid) (users (db (elapsed 3 w))) = Some user ->
     body_password req = Some password ->
     bcrypt_compare password (user_password user) = true ->
     find (fun u => user_id u =? uid) (users (db (elapsed 5 w))) = Some still ->
     delete_user req w =
     (Return account_deleted,
      set_db (elapsed 6 w) (without_user uid (db (elapsed 6 w))))) /\
  (forall user password,
     (forall k, (k < 6)%nat -> fault_at k w = None) ->
     find (fun u => user_id u =? uid) (users (db (elapsed 3 w))) = Some user ->
     body_password req = Some password ->
     bcrypt_compare password (user_password user) = true ->
     find (fun u => user_id u =? uid) (users (db (elapsed 5 w))) = None ->
     delete_user req w = (Return user_not_found, elapsed 6 w)) /\
  (forall user password e,
     (forall k, (k < 4)%nat -> fault_at k w = None) ->
     fault_at 4 w = Some e -> fault_at 5 w = None ->
     find (fun u => user_id u =? uid) (users (db (elapsed 3 w))) = Some user ->
     body_password req = Some password ->
     bcrypt_compare password (user_password user) = true ->
     delete_user req w =
     (Return (mkResponse 500 (err_body (err_message e))), elapsed 6 w)) /\
  (forall w0 r c' w',
     delete_user_on uid req None w0 = (Return r, c', w') -> c' = None) /\
  kind_of invalid_password = Some Unauthorized /\
  kind_of user_not_found = Some NotFound.
Proof.
  intros Hauth.
  split; [intros user password Hs Hu Hp Hc;
          now apply (delete_user_mismatch req w uid user password)|].
  split; [intros Hs Hu; now apply (delete_user_absent req w uid)|].
  split; [intros user password Hs Hu Hp Hc;
          now apply (delete_user_match req w uid user password)|].
  split; [intros o w' Hrun; now apply (delete_user_all_or_nothing req w uid)|].
  split; [intros d; apply without_user_gone|].
  split; [intros user password Hf Hu Hp Hc;
          now apply (delete_user_mismatch_run req w uid user password)|].
  split; [intros user still password Hf Hu Hp Hc Hstill;
          now apply (delete_user_match_run req w uid user still password)|].
  split; [intros user password Hf Hu Hp Hc Hgone;
          now apply (delete_user_zero_rows req w uid user password)|].
  split; [intros user password e Hf Hfault Hback Hu Hp Hc;
          now apply (delete_user_fails_midway req w uid user password e)|].
  split; [|split; reflexivity].
  intros w0 r c' w' Hrun. rewrite <- (elapsed_0 w0) in Hrun.
  destruct (delete_user_on_all_or_nothing _ _ _ _ _ _ _ Hrun)
    as [(_ & Hc & _) | (_ & _ & Hc)]; [exact Hc | now apply (Hc r)].
Qed.

(** ** The properties on the sample database *)

Module Runs.
Import Examples Scenario UploadScenario AccountScenario.

(** C4 as stated fails: an expired token (like a forged one and like
    garbage) is answered 400, which is not the 401 of a missing token, so
    a caller tells a missing token from a rejected one. *)
Lemma authenticate_expired_is_400_not_401 :
  @authenticate toy anonymous (world_at populated []) = inl access_denied /\
  @authenticate toy expired (world_at populated []) = inl invalid_token /\
  @authenticate toy forged (world_at populated []) = inl invalid_token /\
  @authenticate toy garbage (world_at populated []) = inl invalid_token /\
  kind_of invalid_token <> Some Unauthorized /\
  status invalid_token <> status access_denied /\
  ~ (forall r, @authenticate toy expired (world_at populated []) = inl r ->
               kind_of r = Some Unauthorized).
Proof.
  assert (Hexpired : @authenticate toy expired (world_at populated []) = inl invalid_token)
    by (vm_compute; reflexivity).
  repeat split; try (vm_compute; reflexivity); try discriminate.
  intros Hall. specialize (Hall invalid_token Hexpired). discriminate.
Qed.

(** C5 as stated fails: the upload of a filename that is taken is
    answered 400, the status of a bad request, not a conflict. *)
Lemma upload_taken_name_is_400_not_409 :
  @filename_taken toy populated "report.pdf" = true /\
  @authenticate toy report_again (world_at populated []) = inr 7 /\
  fst (@upload toy report_again (world_at populated [])) = Return name_exists /\
  kind_of name_exists <> Some Conflict /\
  ~ (forall r w', @upload toy report_again (world_at populated []) = (Return r, w') ->
                  kind_of r = Some Conflict).
Proof.
  assert (Hrun : @upload toy report_again (world_at populated [])
                 = (Return name_exists, world_at populated ["uploads/f2"]))
    by (vm_compute; reflexivity).
  repeat split; try (vm_compute; reflexivity); try discriminate.
  intros Hall. specialize (Hall _ _ Hrun). discriminate.
Qed.

Lemma upload_rejects_taken_name_witness :
  schedule (world_at populated []) = [] /\
  @authenticate toy report_again (world_at populated []) = inr 7 /\
  @filename_taken toy (db (world_at populated [])) "report.pdf" = true /\
  @upload toy report_again (world_at populated []) =
  (Return name_exists, set_disk (world_at populated []) ["uploads/f2"]) /\
  db (snd (@upload toy report_again (world_at populated []))) = populated.
Proof.
  pose proof (@upload_rejects_taken_name toy report_again (world_at populated []) 7
                (mkUploadedFile "report.pdf" "uploads/f2")
                eq_refl ltac:(vm_compute; reflexivity) eq_refl
                ltac:(vm_compute; reflexivity)) as (Hrun & Hdb & _).
  repeat split; try (vm_compute; reflexivity); assumption.
Defined.

Lemma login_checks_whitelist_first_witness :
  schedule (world_at populated []) = [] /\
  @login toy alice_logs_in (world_at populated []) =
  (Return (mkResponse 200 (JObj [("token", JStr (Toy.sign 7 secret 1000 (60 * 60)))])),
   world_at populated []).
Proof.
  split; [reflexivity|].
  destruct (@login_checks_whitelist_first toy alice_logs_in (world_at populated []) eq_refl)
    as (_ & _ & _ & Hok & _).
  apply (Hok alice "pw1"); vm_compute; reflexivity.
Defined.

Lemma verify_reset_token_validates_witness :
  schedule (world_at populated []) = [] /\
  @verify_reset_token toy validate_reset7 (world_at populated []) =
  (Return (mkResponse 200 (JObj [("valid", JBool true); ("userId", JNum 7)])),
   world_at populated []).
Proof.
  split; [reflexivity|].
  destruct (@verify_reset_token_validates toy validate_reset7 (world_at populated []) eq_refl)
    as (Hok & _).
  apply (Hok (mkToken 1 7 reset7 1900 false)). vm_compute. reflexivity.
Defined.

Lemma delete_account_is_atomic_witness :
  @authenticate toy alice_leaves (disturbed populated [] user_delete_fails) = inr 7 /\
  @delete_user toy alice_leaves (disturbed populated [] user_delete_fails) =
  (Return (mkResponse 500 (err_body "read ECONNRESET")), world_at populated []) /\
  password_reset_tokens populated = [mkToken 1 7 reset7 1900 false].
Proof.
  assert (Hauth : @authenticate toy alice_leaves
                    (disturbed populated [] user_delete_fails) = inr 7)
    by (vm_compute; reflexivity).
  split; [exact Hauth | split; [|reflexivity]].
  destruct (@delete_account_is_atomic toy alice_leaves
              (disturbed populated [] user_delete_fails) 7 Hauth)
    as (_ & _ & _ & _ & _ & _ & _ & _ & Hmidway & _).
  rewrite (Hmidway alice "pw1" connection_lost); try reflexivity.
  intros k Hk. do 4 (destruct k as [|k]; [reflexivity|]). lia.
Defined.

Lemma reset_token_passes_as_session_witness :
  @request_password_reset toy alice_forgot (world_at populated []) =
  (Return (mkResponse 200
             (JObj [("message", JStr "Password reset token generated");
                    ("token", JStr reset7)])),
   world_at after_reset []) /\
  @authenticate toy reset7_as_bearer later = inr 7.
Proof.
  assert (Hrun : @request_password_reset toy alice_forgot (world_at populated []) =
                 (Return (mkResponse 200
                            (JObj [("message", JStr "Password reset token generated");
                                   ("token", JStr reset7)])),
                  world_at after_reset []))
    by (vm_compute; reflexivity).
  split; [exact Hrun|].
  destruct (@reset_token_passes_as_session toy ToyFacts.toy_sound alice_forgot
              (world_at populated []) (world_at after_reset []) _ Hrun eq_refl)
    as (token & row & user & Hbody & Hin & _ & _ & _ & _ & _ & _ & Hpass).
  assert (Htoken : token = reset7) by (cbn [body] in Hbody; congruence).
  assert (Huser : user = alice) by (destruct Hin as [Hu | []]; congruence).
  subst token user.
  apply Hpass; [reflexivity | reflexivity | cbn; lia].
Defined.

(** The same request in an undisturbed world goes through. *)
Example alice_leaves_undisturbed :
  @delete_user toy alice_leaves (world_at populated []) =
  (Return account_deleted, world_at (without_user 7 populated) []).
Proof.
  apply (@delete_user_match toy alice_leaves (world_at populated []) 7 alice "pw1");
    vm_compute; reflexivity.
Qed.

(** The rival deletes the account after the SELECT of this request: 404,
    and the database is the rival's. *)
Example alice_leaves_too_late :
  @delete_user toy alice_leaves (disturbed populated [] lost_race) =
  (Return user_not_found, world_at (without_user 7 populated) []).
Proof.
  rewrite (@delete_user_zero_rows toy alice_leaves
             (disturbed populated [] lost_race) 7 alice "pw1");
    try reflexivity.
  intros k Hk. do 6 (destruct k as [|k]; [reflexivity|]). lia.
Qed.

(** The rival rewrites the user row and adds a token for it while the
    COMMIT is under way: the commit still leaves neither the user nor a
    token of the user. *)
Example alice_leaves_while_rewritten :
  @delete_user toy alice_leaves (disturbed populated [] rewritten_meanwhile) =
  (Return account_deleted, world_at (without_user 7 populated) []) /\
  users (without_user 7 populated) = [] /\
  password_reset_tokens (without_user 7 populated) = [].
Proof.
  split; [|split; reflexivity].
  rewrite (@delete_user_match_run toy alice_leaves
             (disturbed populated [] rewritten_meanwhile) 7 alice alice "pw1");
    try reflexivity.
  intros k Hk. do 6 (destruct k as [|k]; [reflexivity|]). lia.
Qed.

End Runs.

(** * Further properties of the server *)

(** ** The matcher decides the language of a pattern *)

Lemma lang_seq_inv (a b : regex) (s : list N) :
  lang (RSeq a b) s -> exists s1 s2, s = (s1 ++ s2)%list /\ lang a s1 /\ lang b s2.
Proof. intros Hl. inversion Hl; subst. eauto. Qed.

Lemma lang_alt_inv (a b : regex) (s : list N) :
  lang (RAlt a b) s -> lang a s \/ lang b s.
Proof. intros Hl. inversion Hl; subst; auto. Qed.

Lemma nullable_lang (r : regex) : nullable r = true <-> lang r [].
Proof.
  induction r as [| | p | a IHa b IHb | a IHa b IHb | a IHa]; simpl.
  - split; [discriminate | intros Hl; inversion Hl].
  - split; [constructor | reflexivity].
  - split; [discriminate | intros Hl; inversion Hl].
  - rewrite andb_true_iff, IHa, IHb. split.
    + intros [Ha Hb]. apply (lang_seq a b [] [] Ha Hb).
    + intros Hl. apply lang_seq_inv in Hl as (s1 & s2 & Heq & Ha & Hb).
      symmetry in Heq. apply app_eq_nil in Heq as [-> ->]. auto.
  - rewrite orb_true_iff, IHa, IHb. split.
    + intros [Ha | Hb]; [now apply lang_alt_l | now apply lang_alt_r].
    + apply lang_alt_inv.
  - split; [constructor | reflexivity].
Qed.

(** A non-empty word of a starred pattern starts with a non-empty word
    of the pattern. *)
Lemma lang_star_cons_inv (a : regex) (u : N) (s : list N) :
  lang (RStar a) (u :: s) ->
  exists s1 s2, s = (s1 ++ s2)%list /\ lang a (u :: s1) /\ lang (RStar a) s2.
Proof.
  intros Hl. remember (RStar a) as r eqn:Hr. remember (u :: s) as w eqn:Hw.
  revert s Hw.
  induction Hl as [ | | | | | a' | a' w1 w2 H1 _ H2 IH2]; intros tail Hw;
    try discriminate.
  inversion Hr; subst a'. destruct w1 as [|u1 w1]; simpl in Hw.
  - now apply IH2.
  - inversion Hw; subst u1 tail. eauto.
Qed.

Lemma deriv_lang (r : regex) (u : N) (s : list N) :
  lang (deriv u r) s <-> lang r (u :: s).
Proof.
  revert s. induction r as [| | p | a IHa b IHb | a IHa b IHb | a IHa]; intros s; simpl.
  - split; intros Hl; inversion Hl.
  - split; intros Hl; inversion Hl.
  - destruct (p u) eqn:Hp; split; intros Hl; inversion Hl; subst.
    + now constructor.
    + constructor.
    + congruence.
  - assert (Hfirst : lang (RSeq (deriv u a) b) s -> lang (RSeq a b) (u :: s)).
    { intros Hl. apply lang_seq_inv in Hl as (s1 & s2 & -> & Ha & Hb).
      apply IHa in Ha. apply (lang_seq a b (u :: s1) s2 Ha Hb). }
    assert (Hback : lang (RSeq a b) (u :: s) ->
                    lang (RSeq (deriv u a) b) s \/
                    (nullable a = true /\ lang (deriv u b) s)).
    { intros Hl. apply lang_seq_inv in Hl as (s1 & s2 & Heq & Ha & Hb).
      destruct s1 as [|u1 s1]; simpl in Heq.
      - right. subst s2. split; [now apply nullable_lang | now apply IHb].
      - inversion Heq; subst u1 s. left.
        apply lang_seq; [now apply IHa | exact Hb]. }
    destruct (nullable a) eqn:Hn; split.
    + intros Hl. apply lang_alt_inv in Hl as [Hl | Hl]; [now apply Hfirst|].
      apply IHb in Hl. apply nullable_lang in Hn.
      apply (lang_seq a b [] (u :: s) Hn Hl).
    + intros Hl. destruct (Hback Hl) as [H1 | [_ H2]];
        [now apply lang_alt_l | now apply lang_alt_r].
    + exact Hfirst.
    + intros Hl. destruct (Hback Hl) as [H1 | [H2 _]]; [exact H1 | discriminate].
  - split.
    + intros Hl. apply lang_alt_inv in Hl as [Hl | Hl];
        [apply lang_alt_l; now apply IHa | apply lang_alt_r; now apply IHb].
    + intros Hl. apply lang_alt_inv in Hl as [Hl | Hl];
        [apply lang_alt_l; now apply IHa | apply lang_alt_r; now apply IHb].
  - split.
    + intros Hl. apply lang_seq_inv in Hl as (s1 & s2 & -> & Ha & Hs).
      apply IHa in Ha. apply (lang_star_cons a (u :: s1) s2 Ha Hs).
    + intros Hl. apply lang_star_cons_inv in Hl as (s1 & s2 & -> & Ha & Hs).
      apply lang_seq; [now apply IHa | exact Hs].
Qed.

Lemma matches_lang (r : regex) (s : list N) : matches r s = true <-> lang r s.
Proof.
  revert r. induction s as [|u s IH]; intros r; simpl.
  - apply nullable_lang.
  - rewrite IH. apply deriv_lang.
Qed.

(** ** The email pattern *)

Lemma lang_class_inv (p : N -> bool) (s : list N) :
  lang (RClass p) s -> exists u, s = [u] /\ p u = true.
Proof. intros Hl. inversion Hl; subst. eauto. Qed.

Lemma lang_star_class (p : N -> bool) (s : list N) :
  lang (RStar (RClass p)) s <-> Forall (fun u => p u = true) s.
Proof.
  split.
  - intros Hl. remember (RStar (RClass p)) as r eqn:Hr.
    induction Hl as [ | | | | | a | a w1 w2 H1 _ H2 IH2]; try discriminate.
    + constructor.
    + inversion Hr; subst a. apply lang_class_inv in H1 as (u & -> & Hu).
      simpl. constructor; [exact Hu | now apply IH2].
  - induction s as [|u s IH]; intros Hall.
    + constructor.
    + inversion Hall; subst.
      apply (lang_star_cons (RClass p) [u] s); [now constructor | auto].
Qed.

Lemma lang_plus_class (p : N -> bool) (s : list N) :
  lang (RPlus (RClass p)) s <-> s <> [] /\ Forall (fun u => p u = true) s.
Proof.
  unfold RPlus. split.
  - intros Hl. apply lang_seq_inv in Hl as (s1 & s2 & -> & H1 & H2).
    apply lang_class_inv in H1 as (u & -> & Hu). apply lang_star_class in H2.
    simpl. split; [discriminate | now constructor].
  - intros [Hne Hall]. destruct s as [|u s]; [congruence|].
    inversion Hall; subst.
    apply (lang_seq (RClass p) (RStar (RClass p)) [u] s);
      [now constructor | now apply lang_star_class].
Qed.

Lemma lang_unit (u : N) (s : list N) : lang (RClass (N.eqb u)) s <-> s = [u].
Proof.
  split.
  - intros Hl. apply lang_class_inv in Hl as (v & -> & Hv).
    apply N.eqb_eq in Hv. now subst.
  - intros ->. constructor. apply N.eqb_refl.
Qed.

Lemma email_pattern_shape (units : list N) :
  matches email_pattern units = true <->
  exists local domain tld,
    units = address_of local domain tld /\
    address_part local /\ address_part domain /\ address_part tld.
Proof.
  rewrite matches_lang. unfold email_pattern, address_part, address_of. split.
  - intros Hl.
    apply lang_seq_inv in Hl as (local & r1 & -> & Hlocal & Hl).
    apply lang_seq_inv in Hl as (at_ & r2 & -> & Hat & Hl).
    apply lang_seq_inv in Hl as (domain & r3 & -> & Hdomain & Hl).
    apply lang_seq_inv in Hl as (dot & tld & -> & Hdot & Htld).
    apply lang_unit in Hat, Hdot. subst at_ dot.
    apply lang_plus_class in Hlocal, Hdomain, Htld.
    exists local, domain, tld. auto.
  - intros (local & domain & tld & -> & Hlocal & Hdomain & Htld).
    apply lang_plus_class in Hlocal, Hdomain, Htld.
    apply lang_seq; [exact Hlocal|].
    apply (lang_seq _ _ [at_sign]); [now apply lang_unit|].
    apply lang_seq; [exact Hdomain|].
    apply (lang_seq _ _ [full_stop]); [now apply lang_unit | exact Htld].
Qed.

(** The code units of a string of ASCII characters are its characters. *)
Lemma js_units_ascii (s : string) :
  Forall (fun b => (b <=? 127)%N = true) (bytes_of s) ->
  js_units s = bytes_of s.
Proof.
  unfold js_units. induction (bytes_of s) as [|b rest IH]; intros Hall;
    [reflexivity|].
  inversion Hall as [|b' rest' Hb Hrest]; subst.
  cbn [utf8_decode_from]. unfold utf8_lead. rewrite Hb.
  cbn [app flat_map]. rewrite (IH Hrest). unfold utf16_units.
  replace (b <? 65536)%N with true; [reflexivity|].
  symmetry. apply N.ltb_lt. apply N.leb_le in Hb. lia.
Qed.

(** X1: the whitelist pattern accepts exactly the strings whose code
    units read [local@domain.tld] with three non-empty parts that hold
    neither "@" nor white space, where white space is what [\s] matches in
    JavaScript: line terminators and the Unicode spaces up to U+3000 and
    U+FEFF among them.  The value tested is the string the email is
    converted to, "undefined" when it is missing; a string of ASCII
    characters is read byte by byte. *)
Theorem email_pattern_accepts (value : option string) :
  (regex_test email_pattern value = true <->
   exists local domain tld,
     js_units (match value with None => "undefined" | Some s => s end)
     = address_of local domain tld /\
     address_part local /\ address_part domain /\ address_part tld) /\
  (forall u,
     address_unit u = true <->
     u <> at_sign /\
     ~ In u [9; 10; 11; 12; 13; 32; 160; 5760; 8192; 8193; 8194; 8195; 8196;
             8197; 8198; 8199; 8200; 8201; 8202; 8232; 8233; 8239; 8287;
             12288; 65279]%N) /\
  (forall s,
     Forall (fun b => (b <=? 127)%N = true) (bytes_of s) ->
     js_units s = bytes_of s) /\
  regex_test email_pattern None = false.
Proof.
  split; [apply email_pattern_shape|].
  split; [|split; [exact js_units_ascii | reflexivity]].
  intros u. unfold address_unit, js_space, at_sign. cbn [In].
  rewrite andb_true_iff, !negb_true_iff, !orb_false_iff, !andb_false_iff,
    !N.eqb_neq, !N.leb_gt. lia.
Qed.

(** X2: an accepted address holds no white space and exactly one "@". *)
Theorem email_pattern_one_at_no_space (email : string) :
  regex_test email_pattern (Some email) = true ->
  Forall (fun u => js_space u = false) (js_units email) /\
  length (filter (N.eqb at_sign) (js_units email)) = 1%nat.
Proof.
  unfold regex_test. intros Hm. apply email_pattern_shape in Hm
    as (local & domain & tld & -> & [_ Hl] & [_ Hd] & [_ Ht]).
  assert (Hpart : forall l,
            Forall (fun u => address_unit u = true) l ->
            Forall (fun u => js_space u = false) l /\
            filter (N.eqb at_sign) l = []).
  { intros l Hall. induction Hall as [|u us Hu _ [IH1 IH2]]; [split; constructor|].
    unfold address_unit in Hu. apply andb_true_iff in Hu as [Hsp Hat].
    apply negb_true_iff in Hsp, Hat. rewrite N.eqb_sym in Hat.
    split; [now constructor|]. cbn [filter]. now rewrite Hat. }
  destruct (Hpart _ Hl) as [Hl1 Hl2]. destruct (Hpart _ Hd) as [Hd1 Hd2].
  destruct (Hpart _ Ht) as [Ht1 Ht2].
  unfold address_of. split.
  - apply Forall_app. split; [exact Hl1|]. constructor; [reflexivity|].
    apply Forall_app. split; [exact Hd1|]. constructor; [reflexivity | exact Ht1].
  - rewrite filter_app. cbn [filter]. rewrite N.eqb_refl, filter_app. cbn [filter].
    rewrite Hl2, Hd2, Ht2. reflexivity.
Qed.

(** ** Invariants under a schedule *)

Lemma kept_arrive (I : DB -> Prop) (w : World) : kept I w -> kept I (snd (arrive w)).
Proof.
  destruct w as [d dk t k s [|ev evs]]; [trivial|].
  unfold kept. cbn. intros [Hi Hall].
  inversion Hall as [|ev' evs' Hev Hevs]; subst. split; [now apply Hev | exact Hevs].
Qed.

Lemma kept_round_trip (I : DB -> Prop) {A} (run : DB -> Error + (A * DB)) :
  (forall d a d', I d -> run d = inr (a, d') -> I d') ->
  stable (kept I) (round_trip run).
Proof.
  intros Hrun. apply stable_round_trip; [apply kept_arrive|].
  intros w a d' [Hi Hall] Hq. split; [now apply (Hrun (db w) a d') | exact Hall].
Qed.

Lemma kept_select (I : DB -> Prop) {R} (table : DB -> list R) (where_ : R -> bool) :
  stable (kept I) (pool_query (select table where_)).
Proof.
  apply kept_round_trip. intros d a d' Hi Hq. unfold select in Hq.
  now inversion Hq; subst.
Qed.

(** ** Adding to the whitelist *)

Section WhitelistAddFacts.
Context `{Externals}.

Lemma whitelist_add_authenticated (req : Request) (w : World) (uid : Z) :
  authenticate req w = inr uid ->
  whitelist_add req w =
  (pool_getConnection ;;;
   try_catch
     (if negb (regex_test email_pattern (body_email req))
      then ret invalid_email_format
      else
        w0 <- get_world ;;
        _ <- pool_query (insert_whitelist (body_email req) (now w0)) ;;
        ret whitelist_added)
     (fun err => if is_dup_entry err then ret already_whitelisted
                 else internal_error err)) w.
Proof. intros Hauth. unfold whitelist_add, protected. now rewrite Hauth. Qed.

(** X3: a request that the middleware lets through and whose email is
    missing or does not read local@domain.tld is answered 400 without a
    statement being sent, once the pool has handed out a connection:
    under every schedule the world is the one the round trip to the pool
    leaves.  When that round trip fails, which happens outside the
    [try], the request is left unanswered.  In an undisturbed run the
    answer is 400 and the world is untouched. *)
Theorem whitelist_add_rejects_malformed (req : Request) (w : World) (uid : Z) :
  authenticate req w = inr uid ->
  (body_email req = None \/
   exists s, body_email req = Some s /\
     ~ (exists local domain tld,
          js_units s = address_of local domain tld /\
          address_part local /\ address_part domain /\ address_part tld)) ->
  whitelist_add req w =
    (match fault_at 0 w with
     | Some e => Throw e
     | None => Return invalid_email_format
     end, elapsed 1 w) /\
  (schedule w = [] -> whitelist_add req w = (Return invalid_email_format, w)) /\
  kind_of invalid_email_format = Some BadRequest.
Proof.
  intros Hauth Hbad.
  assert (Htest : regex_test email_pattern (body_email req) = false).
  { destruct Hbad as [-> | (s & -> & Hshape)]; [reflexivity|].
    unfold regex_test.
    destruct (matches email_pattern (js_units s)) eqn:Hm; [|reflexivity].
    exfalso. apply Hshape. now apply email_pattern_shape. }
  assert (Hrun : whitelist_add req w =
                 (match fault_at 0 w with
                  | Some e => Throw e
                  | None => Return invalid_email_format
                  end, elapsed 1 w)).
  { rewrite (whitelist_add_authenticated _ _ _ Hauth).
    unfold bind. rewrite pool_getConnection_run.
    destruct (fault_at 0 w); [reflexivity|].
    unfold try_catch. now rewrite Htest. }
  split; [exact Hrun | split; [|reflexivity]].
  intros Hs. rewrite Hrun, fault_at_undisturbed by exact Hs.
  now rewrite elapsed_undisturbed.
Qed.

(** The UNIQUE key on [whitelist_emails.email]. *)
Lemma insert_whitelist_keeps_unique (email : option string) (t : Z) (d d' : DB) (id : Z) :
  whitelist_unique d -> insert_whitelist email t d = inr (id, d') -> whitelist_unique d'.
Proof.
  unfold insert_whitelist, whitelist_unique. intros Hu Hins.
  destruct email as [e|]; [|discriminate].
  destruct (existsb _ (whitelist_emails d)) eqn:Htaken; [discriminate|].
  inversion Hins; subst id d'. clear Hins. cbn [whitelist_emails].
  rewrite map_app. apply NoDup_app; [exact Hu | repeat constructor; intros [] |].
  intros name Hin [Hname | []]. subst name.
  apply in_map_iff in Hin as (entry & He & Hin).
  assert (Hex : existsb (fun x => sql_eq (wl_email x) (Some e)) (whitelist_emails d) = true).
  { apply existsb_exists. exists entry. split; [exact Hin|].
    unfold sql_eq. rewrite He. apply String.eqb_refl. }
  congruence.
Qed.

(** X6: Whatever the request and the schedule, adding to the whitelist never
    leaves two entries with one email. *)
Theorem whitelist_add_keeps_unique (req : Request) (w : World) :
  kept whitelist_unique w -> whitelist_unique (db (snd (whitelist_add req w))).
Proof.
  intros Hk.
  enough (Hst : stable (kept whitelist_unique) (whitelist_add req))
    by (now apply Hst).
  apply stable_protected. intros uid.
  apply stable_bind;
    [apply kept_round_trip; intros d a d' Hi Hq; now inversion Hq; subst | intros _].
  apply stable_try_catch.
  - destruct (negb _); [apply stable_ret|].
    apply stable_bind; [intros w0 Hw0; exact Hw0|]. intros w0.
    apply stable_bind; [|intros; apply stable_ret].
    apply kept_round_trip. intros d a d' Hi Hq.
    now apply (insert_whitelist_keeps_unique _ _ _ _ _ Hi Hq).
  - intros e. destruct (is_dup_entry e); apply stable_ret.
Qed.

End WhitelistAddFacts.

Lemma existsb_filter_negb {R} (f : R -> bool) (l : list R) :
  existsb f (filter (fun x => negb (f x)) l) = false.
Proof.
  induction l as [|x l IH]; simpl; [reflexivity|].
  destruct (f x) eqn:Hx; simpl; [exact IH | now rewrite Hx].
Qed.

Lemma filter_negb_none {R} (f : R -> bool) (l : list R) :
  existsb f l = false -> filter (fun x => negb (f x)) l = l.
Proof.
  induction l as [|x l IH]; simpl; [reflexivity|].
  destruct (f x); simpl; [discriminate | intros Hl; now rewrite IH].
Qed.

Section WhitelistRuns.
Context `{Externals}.

(** Login of an email that is not whitelisted, in an undisturbed run. *)
Lemma login_forbidden (req : Request) (w : World) :
  schedule w = [] ->
  is_whitelisted (db w) (body_email req) = false ->
  login req w = (Return not_whitelisted, w).
Proof.
  intros Hs Hwl. unfold login. first_query Hs.
  unfold select_whitelist_by_email, select.
  rewrite (filter_nil_existsb _ _ Hwl), set_db_same. reflexivity.
Qed.

(** X4: In an undisturbed run, a well-formed email that the whitelist already
    holds is answered 409 and nothing changes. *)
Theorem whitelist_add_listed (req : Request) (w : World) (uid : Z) (email : string) :
  schedule w = [] ->
  authenticate req w = inr uid ->
  body_email req = Some email ->
  regex_test email_pattern (Some email) = true ->
  is_whitelisted (db w) (Some email) = true ->
  whitelist_add req w = (Return already_whitelisted, w) /\
  kind_of already_whitelisted = Some Conflict.
Proof.
  intros Hs Hauth He Hm Hlisted. split; [|reflexivity].
  rewrite (whitelist_add_authenticated _ _ _ Hauth).
  unfold bind at 1. rewrite pool_getConnection_undisturbed by exact Hs.
  unfold try_catch. rewrite He, Hm. cbn [negb].
  unfold bind, get_world, pool_query.
  rewrite round_trip_undisturbed by exact Hs.
  unfold insert_whitelist. unfold is_whitelisted in Hlisted. now rewrite Hlisted.
Qed.

(** X5: In an undisturbed run, a well-formed email that the whitelist does
    not hold is appended with the current time, the answer is 201, the
    other tables are untouched, and the email is whitelisted afterwards;
    removing it again gives the whitelist table back. *)
Theorem whitelist_add_fresh (req : Request) (w : World) (uid : Z) (email : string) :
  schedule w = [] ->
  authenticate req w = inr uid ->
  body_email req = Some email ->
  regex_test email_pattern (Some email) = true ->
  is_whitelisted (db w) (Some email) = false ->
  exists w',
    whitelist_add req w = (Return whitelist_added, w') /\
    whitelist_emails (db w') =
      (whitelist_emails (db w)
         ++ [mkWhitelist (next_whitelist_id (db w)) email (now w)])%list /\
    users (db w') = users (db w) /\
    files (db w') = files (db w) /\
    password_reset_tokens (db w') = password_reset_tokens (db w) /\
    is_whitelisted (db w') (Some email) = true /\
    (forall remove_req,
       authenticate remove_req w' = inr uid ->
       params_email remove_req = email ->
       exists w'',
         whitelist_remove remove_req w' = (Return whitelist_removed, w'') /\
         whitelist_emails (db w'') = whitelist_emails (db w)).
Proof.
  intros Hs Hauth He Hm Hfresh.
  rewrite (whitelist_add_authenticated _ _ _ Hauth).
  unfold bind at 1. rewrite pool_getConnection_undisturbed by exact Hs.
  unfold try_catch. rewrite He, Hm. cbn [negb].
  unfold bind, get_world, pool_query.
  rewrite round_trip_undisturbed by exact Hs.
  unfold insert_whitelist. unfold is_whitelisted in Hfresh. rewrite Hfresh.
  eexists. split; [reflexivity|].
  assert (Hself : sql_eq email (Some email) = true) by apply String.eqb_refl.
  cbn [db set_db whitelist_emails users files password_reset_tokens].
  repeat split.
  - unfold is_whitelisted. cbn [whitelist_emails].
    rewrite existsb_app. cbn [existsb wl_email]. rewrite Hself.
    now rewrite orb_true_r.
  - intros remove_req Hauth' Hp.
    unfold whitelist_remove, protected. rewrite Hauth'.
    unfold bind at 1. rewrite pool_getConnection_undisturbed by exact Hs.
    unfold try_catch, bind, pool_query.
    rewrite round_trip_undisturbed by exact Hs.
    unfold delete_whitelist_by_email. rewrite Hp.
    cbn [db set_db whitelist_emails].
    rewrite !filter_app. cbn [filter wl_email]. rewrite Hself. cbn [negb].
    rewrite (filter_nil_existsb _ _ Hfresh), (filter_negb_none _ _ Hfresh).
    cbn [app length Z.of_nat]. eexists. split; [reflexivity|].
    cbn [db set_db set_whitelist whitelist_emails]. now rewrite app_nil_r.
Qed.

(** X7: In an undisturbed run, removing an email that is not in the whitelist
    is answered 404 and changes nothing; removing one that is there is
    answered 200, and from then on a login with that email is answered
    403 whatever the users table and the password are. *)
Theorem whitelist_remove_blocks_login (req : Request) (w : World) (uid : Z) :
  schedule w = [] ->
  authenticate req w = inr uid ->
  (is_whitelisted (db w) (Some (params_email req)) = false ->
   whitelist_remove req w = (Return not_in_whitelist, w)) /\
  (is_whitelisted (db w) (Some (params_email req)) = true ->
   exists w',
     whitelist_remove req w = (Return whitelist_removed, w') /\
     users (db w') = users (db w) /\
     is_whitelisted (db w') (Some (params_email req)) = false /\
     forall login_req,
       body_email login_req = Some (params_email req) ->
       login login_req w' = (Return not_whitelisted, w')).
Proof.
  intros Hs Hauth.
  assert (Hrun : whitelist_remove req w =
    try_catch
      (affectedRows <- pool_query (delete_whitelist_by_email (params_email req)) ;;
       if affectedRows =? 0 then ret not_in_whitelist else ret whitelist_removed)
      internal_error w).
  { unfold whitelist_remove, protected. rewrite Hauth.
    unfold bind at 1. now rewrite pool_getConnection_undisturbed by exact Hs. }
  rewrite Hrun. unfold try_catch, bind, pool_query.
  rewrite round_trip_undisturbed by exact Hs.
  unfold delete_whitelist_by_email, is_whitelisted. split.
  - intros Hno. rewrite (filter_nil_existsb _ _ Hno), (filter_negb_none _ _ Hno).
    cbn [length Z.of_nat Z.eqb]. unfold ret. f_equal.
    destruct w as [d ? ? ? ? ?]. now destruct d.
  - intros Hyes. destruct (filter_cons_existsb _ _ Hyes) as (entry & rest & Hf & _).
    rewrite Hf.
    replace (Z.of_nat (length (entry :: rest)) =? 0) with false
      by (symmetry; apply Z.eqb_neq; simpl length; lia).
    eexists. split; [reflexivity|].
    cbn [db set_db set_whitelist users whitelist_emails].
    assert (Hgone : existsb (fun e => sql_eq (wl_email e) (Some (params_email req)))
              (filter (fun e => negb (sql_eq (wl_email e) (Some (params_email req))))
                      (whitelist_emails (db w))) = false)
      by apply existsb_filter_negb.
    repeat split; [exact Hgone|].
    intros login_req Hemail. apply login_forbidden; [exact Hs|].
    unfold is_whitelisted. rewrite Hemail. exact Hgone.
Qed.

End WhitelistRuns.

(** ** Registration and login *)

Lemma find_app_fresh {R} (f : R -> bool) (l : list R) (x : R) :
  existsb f l = false -> f x = true -> find f (l ++ [x]) = Some x.
Proof.
  induction l as [|y l IH]; simpl; intros Hl Hx.
  - now rewrite Hx.
  - destruct (f y); [discriminate | now apply IH].
Qed.

Section Accounts.
Context `{Externals}.

(** Login of a whitelisted email with the password of its user, in an
    undisturbed run. *)
Lemma login_accepts (req : Request) (w : World) (user : User) (password : string) :
  schedule w = [] ->
  is_whitelisted (db w) (body_email req) = true ->
  user_by_email (db w) (body_email req) = Some user ->
  body_password req = Some password ->
  bcrypt_compare password (user_password user) = true ->
  login req w =
  (Return (mkResponse 200
             (JObj [("token",
                     JStr (jwt_sign (user_id user) (JWT_SECRET w) (now w) (60 * 60)))])),
   w).
Proof.
  intros Hs Hwl Hu Hp Hc. unfold is_whitelisted in Hwl. unfold user_by_email in Hu.
  whitelisted_then_users Hs Hwl (set_db_same w).
  destruct (find_filter_cons _ _ _ Hu) as (others & ->).
  rewrite set_db_same, Hp. unfold bcrypt_compare_async, ret. rewrite Hc. reflexivity.
Qed.

(** Login of a whitelisted email with a password bcrypt does not accept,
    in an undisturbed run. *)
Lemma login_rejects (req : Request) (w : World) (user : User) (password : string) :
  schedule w = [] ->
  is_whitelisted (db w) (body_email req) = true ->
  user_by_email (db w) (body_email req) = Some user ->
  body_password req = Some password ->
  bcrypt_compare password (user_password user) = false ->
  login req w = (Return invalid_credentials, w).
Proof.
  intros Hs Hwl Hu Hp Hc. unfold is_whitelisted in Hwl. unfold user_by_email in Hu.
  whitelisted_then_users Hs Hwl (set_db_same w).
  destruct (find_filter_cons _ _ _ Hu) as (others & ->).
  rewrite set_db_same, Hp. unfold bcrypt_compare_async, ret. rewrite Hc. reflexivity.
Qed.

(** Registration of an email no user has, in an undisturbed run. *)
Lemma register_fresh_run (req : Request) (w : World) (email password : string) :
  schedule w = [] ->
  body_email req = Some email -> body_password req = Some password ->
  existsb (fun u => sql_eq (user_email u) (Some email)) (users (db w)) = false ->
  register req w =
  (Return user_created,
   set_db w
     (mkDB (users (db w)
              ++ [mkUser (next_user_id (db w)) email (bcrypt_hash password 10 (salt w))])
           (files (db w)) (password_reset_tokens (db w)) (whitelist_emails (db w))
           (next_user_id (db w) + 1) (next_file_id (db w)) (next_token_id (db w))
           (next_whitelist_id (db w)))).
Proof.
  intros Hs He Hp Hfresh.
  unfold register, try_catch, bind, pool_query, bcrypt_hash_async.
  rewrite Hp, round_trip_undisturbed by exact Hs.
  unfold insert_user. rewrite He, Hfresh. reflexivity.
Qed.

(** X8: In an undisturbed run, registering an email that no user has stores
    one new user under the next id with the bcrypt hash of the password,
    answers 201 and touches nothing else. *)
Theorem register_fresh (req : Request) (w : World) (email password : string) :
  schedule w = [] ->
  body_email req = Some email -> body_password req = Some password ->
  existsb (fun u => sql_eq (user_email u) (Some email)) (users (db w)) = false ->
  exists w',
    register req w = (Return user_created, w') /\
    users (db w') =
      (users (db w)
         ++ [mkUser (next_user_id (db w)) email (bcrypt_hash password 10 (salt w))])%list /\
    next_user_id (db w') = next_user_id (db w) + 1 /\
    files (db w') = files (db w) /\
    password_reset_tokens (db w') = password_reset_tokens (db w) /\
    whitelist_emails (db w') = whitelist_emails (db w) /\
    disk w' = disk w.
Proof.
  intros Hs He Hp Hfresh. eexists. split.
  - now apply (register_fresh_run req w email password).
  - destruct w. cbn. repeat split.
Qed.

(** X9: Register, then log in: when bcrypt accepts a password against its
    own hash, a user who registered with a whitelisted email logs in with
    the same email and password and gets a token for the new id. *)
Theorem register_then_login (bcrypt_sound : BcryptSound)
    (req login_req : Request) (w : World) (email password : string) :
  schedule w = [] ->
  body_email req = Some email -> body_password req = Some password ->
  existsb (fun u => sql_eq (user_email u) (Some email)) (users (db w)) = false ->
  is_whitelisted (db w) (Some email) = true ->
  body_email login_req = Some email -> body_password login_req = Some password ->
  exists w',
    register req w = (Return user_created, w') /\
    login login_req w' =
    (Return (mkResponse 200
               (JObj [("token",
                       JStr (jwt_sign (next_user_id (db w)) (JWT_SECRET w) (now w)
                                      (60 * 60)))])),
     w').
Proof.
  intros Hs He Hp Hfresh Hwl Hle Hlp. eexists. split.
  - now apply (register_fresh_run req w email password).
  - set (new := mkUser (next_user_id (db w)) email (bcrypt_hash password 10 (salt w))).
    assert (Hlogin := login_accepts login_req
      (set_db w
         (mkDB (users (db w) ++ [new]) (files (db w)) (password_reset_tokens (db w))
               (whitelist_emails (db w)) (next_user_id (db w) + 1) (next_file_id (db w))
               (next_token_id (db w)) (next_whitelist_id (db w))))
      new password).
    destruct w as [d paths t key salt_ evs]. cbn in Hs. subst evs. cbn in *.
    apply Hlogin; clear Hlogin; try reflexivity.
    + unfold is_whitelisted. cbn. now rewrite Hle.
    + unfold user_by_email. cbn. rewrite Hle.
      apply find_app_fresh; [exact Hfresh | apply String.eqb_refl].
    + exact Hlp.
    + apply (@bcrypt_compare_hash _ bcrypt_sound).
Qed.

(** The UNIQUE key on [users.email]. *)
Lemma insert_user_keeps_unique (email : option string) (hash : string) (d d' : DB) (id : Z) :
  users_unique d -> insert_user email hash d = inr (id, d') -> users_unique d'.
Proof.
  unfold insert_user, users_unique. intros Hu Hins.
  destruct email as [e|]; [|discriminate].
  destruct (existsb _ (users d)) eqn:Htaken; [discriminate|].
  inversion Hins; subst id d'. clear Hins. cbn [users].
  rewrite map_app. apply NoDup_app; [exact Hu | repeat constructor; intros [] |].
  intros name Hin [Hname | []]. subst name.
  apply in_map_iff in Hin as (u & Hue & Hin).
  assert (Hex : existsb (fun x => sql_eq (user_email x) (Some e)) (users d) = true).
  { apply existsb_exists. exists u. split; [exact Hin|].
    unfold sql_eq. rewrite Hue. apply String.eqb_refl. }
  congruence.
Qed.

(** X10: Whatever the request and the schedule, a registration never leaves
    two users with one email. *)
Theorem register_keeps_emails_unique (req : Request) (w : World) :
  kept users_unique w -> users_unique (db (snd (register req w))).
Proof.
  intros Hk.
  enough (Hst : stable (kept users_unique) (register req)) by (now apply Hst).
  apply stable_try_catch; [|intros e; apply stable_ret].
  apply stable_bind.
  - intros w0 Hw0. unfold bcrypt_hash_async. destruct (body_password req); exact Hw0.
  - intros hashed. apply stable_bind; [|intros; apply stable_ret].
    apply kept_round_trip. intros d a d' Hi Hq.
    now apply (insert_user_keeps_unique _ _ _ _ _ Hi Hq).
Qed.

(** X11: A registration without a password is answered 500 with bcrypt's
    message before any statement is sent (under every schedule the world
    is untouched); one without an email is answered 500 with MySQL's
    NOT NULL message and stores nothing. *)
Theorem register_incomplete (req : Request) (w : World) :
  (body_password req = None ->
   register req w =
   (Return (mkResponse 500 (err_body "data and salt arguments required")), w)) /\
  (forall password,
     schedule w = [] ->
     body_password req = Some password -> body_email req = None ->
     register req w =
     (Return (mkResponse 500 (err_body "Column 'email' cannot be null")), w)).
Proof.
  split.
  - intros Hp. unfold register, try_catch, bind, bcrypt_hash_async. now rewrite Hp.
  - intros password Hs Hp He.
    unfold register, try_catch, bind, pool_query, bcrypt_hash_async.
    rewrite Hp, round_trip_undisturbed by exact Hs.
    unfold insert_user. now rewrite He.
Qed.

(** X12: In an undisturbed run, a login without an email is answered 403 (a
    NULL parameter matches no whitelist row), and a login of a
    whitelisted email of an existing user without a password is answered
    500 with bcrypt's message, not the 401 of a wrong password. *)
Theorem login_missing_fields (req : Request) (w : World) :
  schedule w = [] ->
  (body_email req = None -> login req w = (Return not_whitelisted, w)) /\
  (forall user,
     is_whitelisted (db w) (body_email req) = true ->
     user_by_email (db w) (body_email req) = Some user ->
     body_password req = None ->
     login req w =
     (Return (mkResponse 500 (err_body "data and hash arguments required")), w)).
Proof.
  intros Hs. split.
  - intros He. apply login_forbidden; [exact Hs|].
    unfold is_whitelisted. rewrite He.
    induction (whitelist_emails (db w)) as [|e l IH]; [reflexivity | exact IH].
  - intros user Hwl Hu Hp. unfold is_whitelisted in Hwl. unfold user_by_email in Hu.
    whitelisted_then_users Hs Hwl (set_db_same w).
    destruct (find_filter_cons _ _ _ Hu) as (others & ->).
    rewrite set_db_same, Hp. reflexivity.
Qed.

End Accounts.

(** ** Password reset *)

Lemma find_map_same_key {R} (key : R -> bool) (g : R -> R) (l : list R) :
  (forall x, key (g x) = key x) ->
  find key (map g l) = option_map g (find key l).
Proof.
  intros Hg. induction l as [|x l IH]; simpl; [reflexivity|].
  rewrite Hg. destruct (key x); [reflexivity | exact IH].
Qed.

Lemma find_none_all {R} (f : R -> bool) (l : list R) :
  (forall x, In x l -> f x = false) -> find f l = None.
Proof.
  induction l as [|x l IH]; simpl; intros Hall; [reflexivity|].
  rewrite (Hall x) by auto. apply IH. auto.
Qed.

Lemma find_app_old {R} (f : R -> bool) (l l' : list R) (x : R) :
  find f l = Some x -> find f (l ++ l') = Some x.
Proof.
  induction l as [|y l IH]; simpl; [discriminate|].
  destruct (f y); [auto | exact IH].
Qed.

Section Reset.
Context `{Externals}.

Lemma verify_valid_run (req : Request) (w : World) (row : ResetToken) :
  schedule w = [] ->
  valid_token_row (db w) (body_token req) (now w) = Some row ->
  verify_reset_token req w =
  (Return (mkResponse 200
             (JObj [("valid", JBool true); ("userId", JNum (rt_user_id row))])), w).
Proof.
  intros Hs Hrow. unfold verify_reset_token, try_catch, bind, get_world, pool_query.
  rewrite round_trip_undisturbed by exact Hs.
  unfold select_valid_tokens, select.
  destruct (find_filter_cons _ _ _ Hrow) as (others & ->).
  now rewrite set_db_same.
Qed.

Lemma verify_invalid_run (req : Request) (w : World) :
  schedule w = [] ->
  valid_token_row (db w) (body_token req) (now w) = None ->
  verify_reset_token req w = (Return invalid_or_expired, w).
Proof.
  intros Hs Hrow. unfold verify_reset_token, try_catch, bind, get_world, pool_query.
  rewrite round_trip_undisturbed by exact Hs.
  unfold select_valid_tokens, select.
  rewrite (find_none_filter _ _ Hrow). now rewrite set_db_same.
Qed.

(** The ledger after a reset token was issued. *)
Lemma request_reset_run (req : Request) (w : World) (user : User) :
  schedule w = [] ->
  user_by_email (db w) (body_email req) = Some user ->
  request_password_reset req w =
  (Return (mkResponse 200
             (JObj [("message", JStr "Password reset token generated");
                    ("token",
                     JStr (jwt_sign (user_id user) (JWT_SECRET w) (now w) (15 * 60)))])),
   set_db w
     (mkDB (users (db w)) (files (db w))
           (password_reset_tokens (db w)
              ++ [mkToken (next_token_id (db w)) (user_id user)
                          (jwt_sign (user_id user) (JWT_SECRET w) (now w) (15 * 60))
                          (now w + 15 * 60) false])
           (whitelist_emails (db w))
           (next_user_id (db w)) (next_file_id (db w)) (next_token_id (db w) + 1)
           (next_whitelist_id (db w)))).
Proof.
  intros Hs Hu. unfold user_by_email in Hu.
  unfold request_password_reset, try_catch, bind, pool_query.
  rewrite round_trip_undisturbed by exact Hs.
  unfold select_users_by_email, select.
  destruct (find_filter_cons _ _ _ Hu) as (others & ->).
  rewrite set_db_same. unfold jwt_sign_now, get_world.
  rewrite round_trip_undisturbed by exact Hs.
  unfold insert_reset_token.
  assert (Hex : existsb (fun u => user_id u =? user_id user) (users (db w)) = true).
  { apply existsb_exists. exists user. split; [|apply Z.eqb_refl].
    now apply find_some in Hu. }
  now rewrite Hex.
Qed.

(** X14: In an undisturbed run, a reset request for an email no user has (or
    without an email) is answered 404 and changes nothing. *)
Theorem request_reset_unknown_email (req : Request) (w : World) :
  schedule w = [] ->
  user_by_email (db w) (body_email req) = None ->
  request_password_reset req w = (Return user_not_found, w) /\
  kind_of user_not_found = Some NotFound.
Proof.
  intros Hs Hu. split; [|reflexivity]. unfold user_by_email in Hu.
  unfold request_password_reset, try_catch, bind, pool_query.
  rewrite round_trip_undisturbed by exact Hs.
  unfold select_users_by_email, select.
  rewrite (find_none_filter _ _ Hu), set_db_same. reflexivity.
Qed.

(** X15: Issue, then validate: in undisturbed runs, the token handed out for
    a user validates on the ledger it left at every time before its
    expiry, fifteen minutes after the issue; when the ledger held no row
    with that token value before, the validation names that user. *)
Theorem issued_token_validates (req verify_req : Request) (w w2 : World) (user : User) :
  schedule w = [] ->
  user_by_email (db w) (body_email req) = Some user ->
  let token := jwt_sign (user_id user) (JWT_SECRET w) (now w) (15 * 60) in
  schedule w2 = [] ->
  db w2 = db (snd (request_password_reset req w)) ->
  now w2 < now w + 15 * 60 ->
  body_token verify_req = Some token ->
  (exists row,
     verify_reset_token verify_req w2 =
     (Return (mkResponse 200
                (JObj [("valid", JBool true); ("userId", JNum (rt_user_id row))])), w2)) /\
  (existsb (fun t => sql_eq (rt_token t) (Some token)) (password_reset_tokens (db w)) = false ->
   verify_reset_token verify_req w2 =
   (Return (mkResponse 200
              (JObj [("valid", JBool true); ("userId", JNum (user_id user))])), w2)).
Proof.
  intros Hs Hu token Hs2 Hdb Ht Htok.
  rewrite (request_reset_run req w user Hs Hu) in Hdb. cbn [snd db set_db] in Hdb.
  fold token in Hdb.
  set (new := mkToken (next_token_id (db w)) (user_id user) token (now w + 15 * 60) false)
    in Hdb.
  assert (Hnew : token_is_valid (Some token) (now w2) new = true).
  { unfold token_is_valid, new. cbn [rt_token rt_used rt_expires_at sql_eq].
    rewrite String.eqb_refl. cbn [negb andb]. now apply Z.ltb_lt. }
  split.
  - destruct (valid_token_row (db w2) (body_token verify_req) (now w2)) as [row|] eqn:Hrow.
    + exists row. now apply verify_valid_run.
    + exfalso. unfold valid_token_row in Hrow. rewrite Hdb, Htok in Hrow.
      cbn [password_reset_tokens] in Hrow.
      assert (Hno := find_none _ _ Hrow new).
      rewrite Hno in Hnew; [discriminate | apply in_or_app; right; now left].
  - intros Hfresh.
    replace (user_id user) with (rt_user_id new) by reflexivity.
    apply verify_valid_run; [exact Hs2|].
    unfold valid_token_row. rewrite Hdb, Htok. cbn [password_reset_tokens].
    apply find_app_fresh; [|exact Hnew].
    destruct (existsb (token_is_valid (Some token) (now w2))
                      (password_reset_tokens (db w))) eqn:Hex; [|reflexivity].
    apply existsb_exists in Hex as (t & Hin & Hv).
    apply token_is_valid_iff in Hv as (Heq & _).
    assert (Hex : existsb (fun t => sql_eq (rt_token t) (Some token))
                          (password_reset_tokens (db w)) = true)
      by (apply existsb_exists; eauto).
    congruence.
Qed.

End Reset.

Section ResetPassword.
Context `{Externals}.

(** A reset with a valid token in an undisturbed run. *)
Lemma reset_password_run (req : Request) (w : World) (row : ResetToken)
    (password : string) :
  schedule w = [] ->
  valid_token_row (db w) (body_token req) (now w) = Some row ->
  body_newPassword req = Some password ->
  reset_password req w =
  (Return password_updated,
   set_db w (after_reset_password (rt_user_id row) (bcrypt_hash password 10 (salt w))
                                  (body_token req) (db w))).
Proof.
  intros Hs Hrow Hp.
  unfold reset_password, try_catch, bind, get_world, pool_query.
  rewrite round_trip_undisturbed by exact Hs.
  unfold select_valid_tokens, select.
  destruct (find_filter_cons _ _ _ Hrow) as (others & ->).
  rewrite set_db_same. unfold bcrypt_hash_async. rewrite Hp.
  rewrite round_trip_undisturbed by exact Hs.
  unfold update_user_password.
  rewrite round_trip_undisturbed by (destruct w; exact Hs).
  unfold update_token_used. destruct w as [d ? ? ? ? ?]. reflexivity.
Qed.

(** No row with the token value validates once the value was consumed. *)
Lemma consumed_token_invalid (uid : Z) (hash : string) (token : option string)
    (d : DB) (t : Z) :
  valid_token_row (after_reset_password uid hash token d) token t = None.
Proof.
  unfold valid_token_row, after_reset_password. cbn [password_reset_tokens set_tokens].
  apply find_none_all. intros row Hin.
  apply in_map_iff in Hin as (old & Hrow & _). subst row.
  unfold token_is_valid. destruct (sql_eq (rt_token old) token) eqn:Heq.
  - cbn [rt_token rt_used]. rewrite Heq. reflexivity.
  - now rewrite Heq.
Qed.

(** X16: In an undisturbed run, a reset with a valid token answers 200,
    replaces the hash of the token's user and marks every row with the
    token value used; files and whitelist are untouched.  The token is
    then spent: on the database left behind, at any time, both the
    validation and a second reset with it are answered 400 "Invalid or
    expired token", and the second reset changes nothing. *)
Theorem reset_password_consumes_token (req : Request) (w : World) (row : ResetToken)
    (password : string) :
  schedule w = [] ->
  valid_token_row (db w) (body_token req) (now w) = Some row ->
  body_newPassword req = Some password ->
  exists w',
    reset_password req w = (Return password_updated, w') /\
    db w' = after_reset_password (rt_user_id row) (bcrypt_hash password 10 (salt w))
                                 (body_token req) (db w) /\
    files (db w') = files (db w) /\
    whitelist_emails (db w') = whitelist_emails (db w) /\
    (forall u, In u (users (db w')) ->
       user_id u = rt_user_id row ->
       user_password u = bcrypt_hash password 10 (salt w)) /\
    (forall again w2,
       schedule w2 = [] -> db w2 = db w' -> body_token again = body_token req ->
       verify_reset_token again w2 = (Return invalid_or_expired, w2) /\
       reset_password again w2 = (Return invalid_or_expired, w2)).
Proof.
  intros Hs Hrow Hp. eexists. split; [now apply (reset_password_run req w row password)|].
  cbn [db set_db].
  split; [reflexivity|]. split; [reflexivity|]. split; [reflexivity|]. split.
  - intros u Hin Hid. unfold after_reset_password in Hin.
    cbn [users set_users set_tokens] in Hin.
    apply in_map_iff in Hin as (old & Hu & _).
    destruct (user_id old =? rt_user_id row) eqn:Hold; subst u; [reflexivity|].
    apply Z.eqb_neq in Hold. contradiction.
  - intros again w2 Hs2 Hdb Htok.
    assert (Hspent : valid_token_row (db w2) (body_token again) (now w2) = None)
      by (rewrite Hdb, Htok; apply consumed_token_invalid).
    split; [now apply verify_invalid_run|].
    unfold reset_password, try_catch, bind, get_world, pool_query.
    rewrite round_trip_undisturbed by exact Hs2.
    unfold select_valid_tokens, select.
    rewrite (find_none_filter _ _ Hspent). now rewrite set_db_same.
Qed.

(** X17: In an undisturbed run, a reset with a token that does not validate
    is answered 400 and changes nothing; one with a valid token but
    without a new password is answered 500 with bcrypt's message and
    changes nothing either: the token stays usable. *)
Theorem reset_password_refusals (req : Request) (w : World) :
  schedule w = [] ->
  (valid_token_row (db w) (body_token req) (now w) = None ->
   reset_password req w = (Return invalid_or_expired, w)) /\
  (forall row,
     valid_token_row (db w) (body_token req) (now w) = Some row ->
     body_newPassword req = None ->
     reset_password req w =
     (Return (mkResponse 500 (err_body "data and salt arguments required")), w)).
Proof.
  intros Hs. split.
  - intros Hrow. unfold reset_password, try_catch, bind, get_world, pool_query.
    rewrite round_trip_undisturbed by exact Hs.
    unfold select_valid_tokens, select.
    rewrite (find_none_filter _ _ Hrow). now rewrite set_db_same.
  - intros row Hrow Hp. unfold reset_password, try_catch, bind, get_world, pool_query.
    rewrite round_trip_undisturbed by exact Hs.
    unfold select_valid_tokens, select.
    destruct (find_filter_cons _ _ _ Hrow) as (others & ->).
    rewrite set_db_same. unfold bcrypt_hash_async. now rewrite Hp.
Qed.

(** X18: Reset, then log in: when bcrypt accepts a password against its own
    hash, after a reset in an undisturbed run the user the token belongs
    to, if whitelisted, logs in with the new password; a password that
    bcrypt does not accept against the new hash is answered 401. *)
Theorem reset_then_login (bcrypt_sound : BcryptSound)
    (req login_req : Request) (w : World) (row : ResetToken) (user : User)
    (password : string) :
  schedule w = [] ->
  valid_token_row (db w) (body_token req) (now w) = Some row ->
  body_newPassword req = Some password ->
  user_by_email (db w) (body_email login_req) = Some user ->
  user_id user = rt_user_id row ->
  is_whitelisted (db w) (body_email login_req) = true ->
  exists w',
    reset_password req w = (Return password_updated, w') /\
    (body_password login_req = Some password ->
     login login_req w' =
     (Return (mkResponse 200
                (JObj [("token",
                        JStr (jwt_sign (user_id user) (JWT_SECRET w) (now w) (60 * 60)))])),
      w')) /\
    (forall other,
       body_password login_req = Some other ->
       bcrypt_compare other (bcrypt_hash password 10 (salt w)) = false ->
       login login_req w' = (Return invalid_credentials, w')).
Proof.
  intros Hs Hrow Hp Hu Hid Hwl. eexists.
  split; [now apply (reset_password_run req w row password)|].
  set (hash := bcrypt_hash password 10 (salt w)).
  set (d' := after_reset_password (rt_user_id row) hash (body_token req) (db w)).
  assert (Hu' : user_by_email d' (body_email login_req)
                = Some (mkUser (user_id user) (user_email user) hash)).
  { unfold user_by_email, d', after_reset_password. cbn [users set_users set_tokens].
    rewrite find_map_same_key.
    - unfold user_by_email in Hu. rewrite Hu. cbn [option_map].
      rewrite Hid, Z.eqb_refl. now rewrite <- Hid.
    - intros x. now destruct (user_id x =? rt_user_id row). }
  assert (Hwl' : is_whitelisted d' (body_email login_req) = true) by exact Hwl.
  destruct w as [d paths t key salt_ evs]. cbn in Hs. subst evs.
  split.
  - intros Hlp.
    apply (login_accepts login_req (mkWorld d' paths t key salt_ [])
             (mkUser (user_id user) (user_email user) hash) password);
      try assumption; try reflexivity.
    apply (@bcrypt_compare_hash _ bcrypt_sound).
  - intros other Hlp Hno.
    apply (login_rejects login_req (mkWorld d' paths t key salt_ [])
             (mkUser (user_id user) (user_email user) hash) other);
      try assumption; reflexivity.
Qed.

End ResetPassword.

(** ** The file registry *)

Lemma find_filter_negb {R} (f : R -> bool) (l : list R) :
  find f (filter (fun x => negb (f x)) l) = None.
Proof.
  induction l as [|x l IH]; simpl; [reflexivity|].
  destruct (f x) eqn:Hx; simpl; [exact IH | now rewrite Hx].
Qed.

Section FileRegistry.
Context `{Externals}.

(** In an undisturbed run, deleting an id that has no record is answered
    404 and changes nothing, on disk or in the database. *)
Lemma delete_file_unknown_id (req : Request) (w : World) :
  schedule w = [] ->
  file_by_id (db w) (params_id req) = None ->
  delete_file req w = (Return file_not_found, w) /\
  kind_of file_not_found = Some NotFound.
Proof.
  intros Hs Hnone. split; [|reflexivity].
  unfold delete_file, try_catch, bind, pool_query.
  rewrite round_trip_undisturbed by exact Hs.
  unfold select_files_by_id, select. unfold file_by_id in Hnone.
  rewrite (find_none_filter _ _ Hnone), set_db_same. reflexivity.
Qed.

(** In an undisturbed run, deleting a record whose blob is on disk
    removes the blob from the disk and the record from the table, and
    no record with that id is left. *)
Lemma delete_file_with_blob (req : Request) (w : World)
    (row : FileRecord) :
  schedule w = [] ->
  file_by_id (db w) (params_id req) = Some row ->
  existsb (String.eqb (file_path row)) (disk w) = true ->
  exists r w',
    delete_file req w = (Return r, w') /\ status r = 200 /\
    disk w' = filter (fun q => negb (String.eqb (file_path row) q)) (disk w) /\
    ~ In (file_path row) (disk w') /\
    files (db w') = filter (fun f => negb (file_id f =? params_id req)) (files (db w)) /\
    file_by_id (db w') (params_id req) = None /\
    users (db w') = users (db w).
Proof.
  intros Hs Hrow Hblob.
  unfold delete_file, try_catch, bind, pool_query.
  rewrite round_trip_undisturbed by exact Hs.
  unfold select_files_by_id, select. unfold file_by_id in Hrow.
  destruct (find_filter_cons _ _ _ Hrow) as (others & Hfound).
  rewrite Hfound, set_db_same. unfold fs_unlink. rewrite Hblob.
  rewrite round_trip_undisturbed by (destruct w; exact Hs).
  unfold delete_file_by_id.
  do 2 eexists. split; [reflexivity|]. cbn [status].
  split; [reflexivity|]. destruct w as [d paths t key salt_ evs].
  cbn [disk db set_db set_disk files set_files users].
  split; [reflexivity|]. split.
  - intros Hin. apply filter_In in Hin as [_ Hne].
    now rewrite String.eqb_refl in Hne.
  - split; [reflexivity|]. split; [|reflexivity].
    unfold file_by_id. cbn [files]. apply find_filter_negb.
Qed.

(** X19: In an undisturbed run, deleting an id that has no record is answered
    404 and changes nothing, on disk or in the database; deleting a record
    whose blob is on disk removes the blob from the disk and the record
    from the table, and no record with that id is left. *)
Theorem delete_file_undisturbed (req : Request) (w : World) :
  schedule w = [] ->
  (file_by_id (db w) (params_id req) = None ->
   delete_file req w = (Return file_not_found, w) /\
   kind_of file_not_found = Some NotFound) /\
  (forall row,
     file_by_id (db w) (params_id req) = Some row ->
     existsb (String.eqb (file_path row)) (disk w) = true ->
     exists r w',
       delete_file req w = (Return r, w') /\ status r = 200 /\
       disk w' = filter (fun q => negb (String.eqb (file_path row) q)) (disk w) /\
       ~ In (file_path row) (disk w') /\
       files (db w') = filter (fun f => negb (file_id f =? params_id req)) (files (db w)) /\
       file_by_id (db w') (params_id req) = None /\
       users (db w') = users (db w)).
Proof.
  intros Hs. split.
  - intros Hnone. now apply delete_file_unknown_id.
  - intros row Hrow Hblob. now apply (delete_file_with_blob req w row).
Qed.

(** X20: Under every schedule of faults and concurrent commits: when the
    deletion is answered 200, the database it leaves holds no record
    with the deleted id. *)
Theorem delete_file_200_means_gone (req : Request) (w w' : World) (r : Response) :
  delete_file req w = (Return r, w') ->
  status r = 200 ->
  file_by_id (db w') (params_id req) = None.
Proof.
  intros Hrun Hst.
  unfold delete_file, try_catch, bind, pool_query in Hrun.
  destruct (round_trip (select_files_by_id (params_id req)) w)
    as [[rows | e] w1] eqn:Hsel.
  2:{ inversion Hrun; subst. discriminate. }
  destruct rows as [|row others]; [inversion Hrun; subst; discriminate|].
  destruct (fs_unlink (file_path row) w1) as [[[] | e] w2];
    unfold console_error, ret in Hrun.
  - destruct (round_trip (delete_file_by_id (params_id req)) w2)
      as [[n | e] w3] eqn:Hdel; [|inversion Hrun; subst; discriminate].
    apply round_trip_Return in Hdel as (d' & _ & Hq & ->).
    inversion Hrun; subst r w'. unfold delete_file_by_id in Hq.
    inversion Hq; subst n d'. unfold file_by_id. cbn [db set_db files set_files].
    apply find_filter_negb.
  - destruct (round_trip (delete_file_by_id (params_id req)) w2)
      as [[n | e'] w3] eqn:Hdel; [|inversion Hrun; subst; discriminate].
    apply round_trip_Return in Hdel as (d' & _ & Hq & ->).
    inversion Hrun; subst r w'. unfold delete_file_by_id in Hq.
    inversion Hq; subst n d'. unfold file_by_id. cbn [db set_db files set_files].
    apply find_filter_negb.
Qed.

Lemma upload_authenticated (req : Request) (w : World) (uid : Z) :
  authenticate req w = inr uid ->
  upload req w =
  (upload_single req ;;;
   try_catch
     (match file req with
      | None => ret no_file_uploaded
      | Some f =>
          existing <- pool_query (select_files_by_filename (originalname f)) ;;
          if (0 <? length existing)%nat
          then ret name_exists
          else
            insertId <- pool_query (insert_file (originalname f) (path f)) ;;
            ret (mkResponse 200
                   (JObj [("message", JStr "File uploaded successfully");
                          ("fileId", JNum insertId);
                          ("path", JStr (path f))]))
      end)
     internal_error) w.
Proof. intros Hauth. unfold upload, protected. now rewrite Hauth. Qed.

(** X21: In an undisturbed run, an authenticated upload under a filename that
    no record has stores the blob, appends one record under the next id
    and reports that id; the listing of the files then shows the record
    last. *)
Theorem upload_fresh_name (req : Request) (w : World) (uid : Z) (f : UploadedFile) :
  schedule w = [] ->
  authenticate req w = inr uid ->
  file req = Some f ->
  filename_taken (db w) (originalname f) = false ->
  exists w',
    upload req w =
    (Return (mkResponse 200
               (JObj [("message", JStr "File uploaded successfully");
                      ("fileId", JNum (next_file_id (db w)));
                      ("path", JStr (path f))])), w') /\
    files (db w') =
      (files (db w) ++ [mkFile (next_file_id (db w)) (originalname f) (path f)])%list /\
    next_file_id (db w') = next_file_id (db w) + 1 /\
    disk w' = path f :: disk w /\
    filename_taken (db w') (originalname f) = true /\
    forall list_req,
      list_files list_req w' =
      (Return (mkResponse 200
                 (JArr (map json_of_file (files (db w))
                          ++ [json_of_file
                                (mkFile (next_file_id (db w)) (originalname f) (path f))]))),
       w').
Proof.
  intros Hs Hauth Hf Hfresh.
  rewrite (upload_authenticated _ _ _ Hauth).
  unfold bind at 1. unfold upload_single. rewrite Hf.
  unfold try_catch, bind, pool_query.
  rewrite round_trip_undisturbed by exact Hs.
  unfold select_files_by_filename, select. unfold filename_taken in Hfresh.
  cbn [db set_disk]. rewrite (filter_nil_existsb _ _ Hfresh).
  cbn [length Nat.ltb Nat.leb].
  rewrite round_trip_undisturbed by (destruct w; exact Hs).
  unfold insert_file. cbn [db set_db set_disk]. rewrite Hfresh.
  eexists. split; [reflexivity|].
  destruct w as [d paths t key salt_ evs]. cbn in Hs. subst evs.
  cbn [db set_db set_disk files next_file_id disk].
  split; [reflexivity|]. split; [reflexivity|]. split; [reflexivity|]. split.
  - unfold filename_taken. cbn [files]. rewrite existsb_app.
    cbn [existsb file_filename]. unfold sql_eq at 2. rewrite String.eqb_refl.
    now rewrite orb_true_r.
  - intros list_req. unfold list_files, try_catch, bind, pool_query.
    rewrite round_trip_undisturbed by reflexivity.
    unfold select_files, select. cbn [db set_db set_disk files].
    assert (Hall : forall l : list FileRecord, filter (fun _ => true) l = l).
    { intros l. induction l as [|x l IH]; simpl; [reflexivity | now rewrite IH]. }
    rewrite Hall. unfold ret. cbn [db set_db set_disk files]. now rewrite map_app.
Qed.

(** X22: An upload the middleware does not let through is answered by the
    middleware and touches nothing, not even the upload directory; an
    authenticated upload without a file part is answered 400 before any
    statement is sent.  Both hold under every schedule. *)
Theorem upload_refusals (req : Request) (w : World) :
  (forall answered,
     authenticate req w = inl answered -> upload req w = (Return answered, w)) /\
  (forall uid,
     authenticate req w = inr uid -> file req = None ->
     upload req w = (Return no_file_uploaded, w)).
Proof.
  split.
  - intros answered Hauth. unfold upload, protected. now rewrite Hauth.
  - intros uid Hauth Hf. rewrite (upload_authenticated _ _ _ Hauth).
    unfold bind, upload_single, try_catch. now rewrite Hf.
Qed.

(** X23: Check, then insert: when another connection commits a record with
    the same filename between the SELECT and the INSERT of an upload, the
    INSERT hits the UNIQUE key and the upload is answered 500 with
    MySQL's duplicate-entry message (not the 400 of the check); the
    database is the one the other connection left. *)
Theorem upload_lost_race (req : Request) (d : DB) (paths : list string)
    (t : Z) (key salt_ : string) (c1 c2 : DB -> DB) (rest : list EnvEvent)
    (uid : Z) (f : UploadedFile) :
  let w := mkWorld d paths t key salt_ (mkEvent c1 None :: mkEvent c2 None :: rest) in
  authenticate req w = inr uid ->
  file req = Some f ->
  filename_taken (c1 d) (originalname f) = false ->
  filename_taken (c2 (c1 d)) (originalname f) = true ->
  upload req w =
  (Return (mkResponse 500
             (err_body ("Duplicate entry '" ++ originalname f
                        ++ "' for key 'files.filename'"))),
   mkWorld (c2 (c1 d)) (path f :: paths) t key salt_ rest).
Proof.
  intros w Hauth Hf Hfree Htaken. subst w.
  rewrite (upload_authenticated _ _ _ Hauth).
  unfold bind at 1. unfold upload_single. rewrite Hf.
  unfold try_catch, bind, pool_query, round_trip, arrive.
  cbn [schedule fault concurrent db set_db set_disk set_schedule disk now JWT_SECRET salt].
  unfold select_files_by_filename, select. unfold filename_taken in Hfree, Htaken.
  rewrite (filter_nil_existsb _ _ Hfree).
  cbn [length Nat.ltb Nat.leb schedule fault concurrent db set_db set_disk set_schedule
       disk now JWT_SECRET salt].
  unfold insert_file. rewrite Htaken. reflexivity.
Qed.

End FileRegistry.

(** ** The Authorization header *)

Lemma js_split_nonempty (sep : ascii) (s : string) : js_split sep s <> [].
Proof.
  destruct s as [|c s]; simpl; [discriminate|].
  destruct (Ascii.eqb c sep); [discriminate|].
  destruct (js_split sep s); discriminate.
Qed.

Lemma concat_cons_char (sep : string) (c : ascii) (part : string) (parts : list string) :
  String.concat sep (String c part :: parts) = String c (String.concat sep (part :: parts)).
Proof. destruct parts; reflexivity. Qed.

(** X24: [s.split(c).join(c)] is [s], and no part holds the separator. *)
Theorem js_split_join (sep : ascii) (s : string) :
  String.concat (String sep "") (js_split sep s) = s /\
  Forall (fun part => Forall (fun c => c <> sep) (list_ascii_of_string part))
         (js_split sep s).
Proof.
  induction s as [|c s [IHjoin IHparts]]; simpl.
  - split; [reflexivity | repeat constructor].
  - destruct (Ascii.eqb_spec c sep) as [-> | Hne].
    + split.
      * destruct (js_split sep s) as [|part parts] eqn:Hs;
          [now apply js_split_nonempty in Hs|].
        change (String.concat (String sep "") ("" :: part :: parts))
          with (String sep (String.concat (String sep "") (part :: parts))).
        now rewrite IHjoin.
      * constructor; [constructor | exact IHparts].
    + destruct (js_split sep s) as [|part parts] eqn:Hs;
        [now apply js_split_nonempty in Hs|].
      split.
      * rewrite concat_cons_char. now rewrite IHjoin.
      * inversion IHparts; subst. constructor; [|assumption].
        simpl. constructor; assumption.
Qed.

Lemma js_split_app (sep : ascii) (a b : string) :
  (forall c, In c (list_ascii_of_string a) -> c <> sep) ->
  js_split sep (a ++ String sep b) = a :: js_split sep b.
Proof.
  induction a as [|c a IH]; simpl; intros Ha.
  - now rewrite Ascii.eqb_refl.
  - destruct (Ascii.eqb_spec c sep) as [Heq | Hne]; [exfalso; apply (Ha c); auto|].
    rewrite IH; auto.
Qed.

(** X25: The middleware never looks at the scheme: whatever word stands
    before the first space, and whatever follows a second space, the
    token between them is verified as a bearer token would be. *)
Theorem authenticate_ignores_scheme `{Externals} (req bearer_req : Request) (w : World)
    (scheme token rest : string) :
  (forall c, In c (list_ascii_of_string scheme) -> c <> " "%char) ->
  (forall c, In c (list_ascii_of_string token) -> c <> " "%char) ->
  rest = "" \/ (exists tail, rest = String " " tail) ->
  headers_authorization req = Some (scheme ++ " " ++ token ++ rest)%string ->
  headers_authorization bearer_req = Some ("Bearer " ++ token)%string ->
  authenticate req w = authenticate bearer_req w.
Proof.
  intros Hscheme Htoken Hrest Hh Hb.
  assert (Hsame : bearer_of (headers_authorization req) = Some token).
  { rewrite Hh. unfold bearer_of.
    change (scheme ++ " " ++ token ++ rest)%string
      with (scheme ++ String " " (token ++ rest))%string.
    rewrite (js_split_app " "%char scheme _ Hscheme).
    destruct Hrest as [-> | (tail & ->)].
    - rewrite (js_split_no_sep " "%char (token ++ "")).
      + cbn [nth_error]. f_equal. clear. induction token; simpl; congruence.
      + intros c Hc. apply Htoken. clear -Hc.
        induction token; simpl in *; [contradiction | destruct Hc; auto].
    - now rewrite (js_split_app " "%char token tail Htoken). }
  pose proof (authenticate_cases req w) as Hc1.
  pose proof (authenticate_cases bearer_req w) as Hc2.
  rewrite Hsame in Hc1. rewrite Hb, (bearer_of_Bearer _ Htoken) in Hc2.
  destruct token as [|c token]; [now rewrite Hc1, Hc2|].
  destruct (jwt_verify _ _ _); now rewrite Hc1, Hc2.
Qed.

(** ** Handlers that only read *)

Lemma firstn_plus {R} (k1 k2 : nat) (l : list R) :
  firstn (k1 + k2) l = (firstn k1 l ++ firstn k2 (skipn k1 l))%list.
Proof.
  revert l. induction k1 as [|k1 IH]; intros l; [reflexivity|].
  destruct l as [|x l]; simpl.
  - now rewrite firstn_nil.
  - now rewrite IH.
Qed.

Lemma only_concurrent_refl (w : World) : only_concurrent w w.
Proof. exists 0%nat. split; reflexivity. Qed.

Lemma only_concurrent_trans (w1 w2 w3 : World) :
  only_concurrent w1 w2 -> only_concurrent w2 w3 -> only_concurrent w1 w3.
Proof.
  intros (k1 & Hd1 & Hs1) (k2 & Hd2 & Hs2). exists (k1 + k2)%nat. split.
  - rewrite Hd2, Hs1, Hd1, <- concurrent_only_app. f_equal.
    symmetry. apply firstn_plus.
  - rewrite Hs2, Hs1, skipn_skipn. f_equal. apply Nat.add_comm.
Qed.

Lemma only_concurrent_arrive (w : World) : only_concurrent w (snd (arrive w)).
Proof.
  exists 1%nat. split; [apply arrive_db|].
  rewrite arrive_schedule. now destruct (schedule w).
Qed.

Section ReadOnly.
Context `{Externals}.
Variable w0 : World.

Lemma only_concurrent_select {R} (table : DB -> list R) (where_ : R -> bool) :
  stable (only_concurrent w0) (pool_query (select table where_)).
Proof.
  apply stable_round_trip.
  - intros w Hw. exact (only_concurrent_trans _ _ _ Hw (only_concurrent_arrive w)).
  - intros w a d' Hw Hq. unfold select in Hq. inversion Hq; subst.
    now rewrite set_db_same.
Qed.

Lemma only_concurrent_pure {A} (m : M A) :
  (forall w, snd (m w) = w) -> stable (only_concurrent w0) m.
Proof. intros Hm w Hw. now rewrite Hm. Qed.

Lemma login_only_reads (req : Request) : stable (only_concurrent w0) (login req).
Proof.
  apply stable_try_catch; [|intros e; apply stable_ret].
  apply stable_bind; [apply only_concurrent_select|].
  intros whitelist. destruct whitelist as [|entry entries]; [apply stable_ret|].
  apply stable_bind; [apply only_concurrent_select|].
  intros found. destruct found as [|user others]; [apply stable_ret|].
  apply stable_bind.
  { apply only_concurrent_pure. intros w. unfold bcrypt_compare_async.
    now destruct (body_password req). }
  intros matches. destruct (negb matches); [apply stable_ret|].
  apply stable_bind; [now apply only_concurrent_pure | intros; apply stable_ret].
Qed.

Lemma verify_only_reads (req : Request) :
  stable (only_concurrent w0) (verify_reset_token req).
Proof.
  apply stable_try_catch; [|intros e; apply stable_ret].
  apply stable_bind; [now apply only_concurrent_pure|].
  intros w. apply stable_bind; [apply only_concurrent_select|].
  intros tokens. destruct tokens; apply stable_ret.
Qed.

Lemma list_files_only_reads (req : Request) :
  stable (only_concurrent w0) (list_files req).
Proof.
  apply stable_try_catch; [|intros e; apply stable_ret].
  apply stable_bind; [apply only_concurrent_select | intros; apply stable_ret].
Qed.

End ReadOnly.

(** X13: Login, token validation and the file listing write nothing: under
    every schedule of faults and concurrent commits, whatever they
    answer, the database afterwards holds only what other connections
    did (in an undisturbed run it is the database before), so a failed
    login leaves no trace and no counter. *)
Theorem readers_write_nothing `{Externals} (req : Request) (w : World) :
  only_concurrent w (snd (login req w)) /\
  only_concurrent w (snd (verify_reset_token req w)) /\
  only_concurrent w (snd (list_files req w)) /\
  (schedule w = [] ->
   db (snd (login req w)) = db w /\
   db (snd (verify_reset_token req w)) = db w /\
   db (snd (list_files req w)) = db w).
Proof.
  assert (H1 := login_only_reads w req w (only_concurrent_refl w)).
  assert (H2 := verify_only_reads w req w (only_concurrent_refl w)).
  assert (H3 := list_files_only_reads w req w (only_concurrent_refl w)).
  split; [exact H1|]. split; [exact H2|]. split; [exact H3|].
  intros Hs.
  destruct H1 as (k1 & Hdb1 & _). destruct H2 as (k2 & Hdb2 & _).
  destruct H3 as (k3 & Hdb3 & _).
  rewrite Hdb1, Hdb2, Hdb3, Hs, !firstn_nil. repeat split.
Qed.

(** ** Referential integrity *)

Section References.
Context `{Externals}.

Lemma settled_round_trip {A} (run : DB -> Error + (A * DB)) :
  (forall d a d', references_ok d -> run d = inr (a, d') -> references_ok d') ->
  stable settled (round_trip run).
Proof.
  intros Hrun. apply stable_round_trip.
  - intros w [Hs Hok]. rewrite (arrive_undisturbed w Hs). now split.
  - intros w a d' [Hs Hok] Hq. split; [exact Hs | now apply (Hrun (db w) a d')].
Qed.

Lemma settled_select {R} (table : DB -> list R) (where_ : R -> bool) :
  stable settled (pool_query (select table where_)).
Proof.
  apply settled_round_trip. intros d a d' Hok Hq. unfold select in Hq.
  now inversion Hq; subst.
Qed.

Lemma settled_pure {A} (m : M A) : (forall w, snd (m w) = w) -> stable settled m.
Proof. intros Hm w Hw. now rewrite Hm. Qed.

Lemma references_insert_user (email : option string) (hash : string) (d d' : DB) (id : Z) :
  references_ok d -> insert_user email hash d = inr (id, d') -> references_ok d'.
Proof.
  unfold insert_user. intros Hok Hq. destruct email as [e|]; [|discriminate].
  destruct (existsb _ _); [discriminate|]. inversion Hq; subst id d'.
  intros t Hin. cbn in Hin. destruct (Hok t Hin) as (u & Hu & Hid).
  exists u. split; [|exact Hid]. cbn. apply in_or_app. now left.
Qed.

Lemma references_insert_token (uid : Z) (token : string) (t : Z) (d d' : DB) (id : Z) :
  references_ok d -> insert_reset_token uid token t d = inr (id, d') -> references_ok d'.
Proof.
  unfold insert_reset_token. intros Hok Hq.
  destruct (existsb _ (users d)) eqn:Hex; [|discriminate].
  inversion Hq; subst id d'. intros row Hin. cbn in Hin. cbn [users].
  apply in_app_or in Hin as [Hin | [<- | []]]; [now apply Hok|].
  apply existsb_exists in Hex as (u & Hu & Hid). apply Z.eqb_eq in Hid.
  exists u. now split.
Qed.

Lemma references_update_password (hash : string) (uid : Z) (d d' : DB) (n : Z) :
  references_ok d -> update_user_password hash uid d = inr (n, d') -> references_ok d'.
Proof.
  unfold update_user_password. intros Hok Hq. inversion Hq; subst n d'.
  intros t Hin. cbn in Hin. destruct (Hok t Hin) as (u & Hu & Hid).
  exists (if user_id u =? uid then mkUser (user_id u) (user_email u) hash else u).
  split.
  - cbn. apply in_map_iff. exists u. now split.
  - now destruct (user_id u =? uid).
Qed.

Lemma references_update_used (token : option string) (d d' : DB) (n : Z) :
  references_ok d -> update_token_used token d = inr (n, d') -> references_ok d'.
Proof.
  unfold update_token_used. intros Hok Hq. inversion Hq; subst n d'.
  intros t Hin. cbn in Hin. apply in_map_iff in Hin as (old & Ht & Hin).
  destruct (Hok old Hin) as (u & Hu & Hid). exists u. split; [exact Hu|].
  subst t. now destruct (sql_eq (rt_token old) token).
Qed.

Lemma references_without_user (uid : Z) (d : DB) :
  references_ok d -> references_ok (without_user uid d).
Proof.
  intros Hok t Hin. unfold without_user in *. cbn in Hin.
  apply filter_In in Hin as [Hin Hne]. apply negb_true_iff in Hne.
  destruct (Hok t Hin) as (u & Hu & Hid). exists u. split; [|exact Hid].
  cbn. apply filter_In. split; [exact Hu|]. now rewrite Hid, Hne.
Qed.

Lemma delete_user_settled (req : Request) : stable settled (delete_user req).
Proof.
  intros w [Hs Hok].
  destruct (authenticate req w) as [answered | uid] eqn:Hauth.
  { unfold delete_user, protected. rewrite Hauth. now split. }
  destruct (find (fun u => user_id u =? uid) (users (db w))) as [user|] eqn:Hu.
  2:{ rewrite (delete_user_absent req w uid Hs Hauth Hu). now split. }
  destruct (body_password req) as [password|] eqn:Hp.
  2:{ rewrite (delete_user_missing_password req w uid user Hs Hauth Hu Hp). now split. }
  destruct (bcrypt_compare password (user_password user)) eqn:Hc.
  - rewrite (delete_user_match req w uid user password Hs Hauth Hu Hp Hc).
    split; [exact Hs | now apply references_without_user].
  - rewrite (delete_user_mismatch req w uid user password Hs Hauth Hu Hp Hc). now split.
Qed.

(** X26: I1 is kept: in undisturbed runs, if every reset token belongs to a
    user before a registration, a reset request, a password reset or an
    account deletion, then so it is afterwards, whatever the request and
    its answer. *)
Theorem referential_integrity_kept (req : Request) (w : World) :
  schedule w = [] ->
  references_ok (db w) ->
  references_ok (db (snd (register req w))) /\
  references_ok (db (snd (request_password_reset req w))) /\
  references_ok (db (snd (reset_password req w))) /\
  references_ok (db (snd (delete_user req w))).
Proof.
  intros Hs Hok. assert (Hw : settled w) by now split.
  assert (Hregister : stable settled (register req)).
  { apply stable_try_catch; [|intros e; apply stable_ret].
    apply stable_bind.
    - apply settled_pure. intros w1. unfold bcrypt_hash_async.
      now destruct (body_password req).
    - intros hashed. apply stable_bind; [|intros; apply stable_ret].
      apply settled_round_trip. intros d a d'. apply references_insert_user. }
  assert (Hrequest : stable settled (request_password_reset req)).
  { apply stable_try_catch; [|intros e; apply stable_ret].
    apply stable_bind; [apply settled_select|].
    intros found. destruct found as [|user others]; [apply stable_ret|].
    apply stable_bind; [now apply settled_pure|]. intros token.
    apply stable_bind; [now apply settled_pure|]. intros w1.
    apply stable_bind; [|intros; apply stable_ret].
    apply settled_round_trip. intros d a d'. apply references_insert_token. }
  assert (Hreset : stable settled (reset_password req)).
  { apply stable_try_catch; [|intros e; apply stable_ret].
    apply stable_bind; [now apply settled_pure|]. intros w1.
    apply stable_bind; [apply settled_select|].
    intros tokens. destruct tokens as [|t others]; [apply stable_ret|].
    apply stable_bind.
    { apply settled_pure. intros w2. unfold bcrypt_hash_async.
      now destruct (body_newPassword req). }
    intros hashed.
    apply stable_bind;
      [apply settled_round_trip; intros d a d'; apply references_update_password|].
    intros n.
    apply stable_bind; [|intros; apply stable_ret].
    apply settled_round_trip. intros d a d'. apply references_update_used. }
  split; [apply (Hregister w Hw)|].
  split; [apply (Hrequest w Hw)|].
  split; [apply (Hreset w Hw) | apply (delete_user_settled req w Hw)].
Qed.

End References.

(** ** The chat model: pages of messages and retention *)

Module ChatFacts.
Import Chat.
Section Messages.
Variable Thread : Type.
Variable thread_eqb : Thread -> Thread -> bool.
Variable timestamp_default : Z -> Z.

Lemma insert_desc_In (m x : Message Thread) (l : list (Message Thread)) :
  In x (insert_desc m l) <-> x = m \/ In x l.
Proof.
  induction l as [|y l IH]; simpl; [intuition congruence|].
  destruct (message_id y <? message_id m); simpl; [intuition congruence|].
  rewrite IH. intuition congruence.
Qed.

Lemma order_by_id_desc_In (x : Message Thread) (l : list (Message Thread)) :
  In x (order_by_id_desc l) <-> In x l.
Proof.
  induction l as [|y l IH]; simpl; [tauto|].
  rewrite insert_desc_In, IH. intuition congruence.
Qed.

Lemma insert_desc_sorted (m : Message Thread) (l : list (Message Thread)) :
  StronglySorted newer_first l -> StronglySorted newer_first (insert_desc m l).
Proof.
  induction 1 as [|y l Hl IH Hy]; simpl; [repeat constructor|].
  destruct (message_id y <? message_id m) eqn:Hlt.
  - apply Z.ltb_lt in Hlt. constructor; [now constructor|].
    constructor; [unfold newer_first; lia|].
    rewrite Forall_forall in *. intros x Hx. specialize (Hy x Hx).
    unfold newer_first in *. lia.
  - apply Z.ltb_ge in Hlt. constructor; [exact IH|].
    rewrite Forall_forall in *. intros x Hx. apply insert_desc_In in Hx as [-> | Hx];
      [exact Hlt | now apply Hy].
Qed.

Lemma order_by_id_desc_sorted (l : list (Message Thread)) :
  StronglySorted newer_first (order_by_id_desc l).
Proof.
  induction l as [|y l IH]; simpl; [constructor | now apply insert_desc_sorted].
Qed.

Lemma sorted_skipn (n : nat) (l : list (Message Thread)) :
  StronglySorted newer_first l -> StronglySorted newer_first (skipn n l).
Proof.
  revert l. induction n as [|n IH]; intros l Hl; [exact Hl|].
  destruct l as [|x l]; [constructor|]. simpl. apply IH. now inversion Hl.
Qed.

Lemma In_firstn (n : nat) (l : list (Message Thread)) (x : Message Thread) :
  In x (firstn n l) -> In x l.
Proof.
  revert l. induction n as [|n IH]; intros l; [intros []|].
  destruct l as [|y l]; simpl; [trivial | intros [-> | Hx]; auto].
Qed.

Lemma In_skipn (n : nat) (l : list (Message Thread)) (x : Message Thread) : In x (skipn n l) -> In x l.
Proof.
  revert l. induction n as [|n IH]; intros l; [trivial|].
  destruct l as [|y l]; simpl; [trivial | auto].
Qed.

Lemma sorted_firstn (n : nat) (l : list (Message Thread)) :
  StronglySorted newer_first l -> StronglySorted newer_first (firstn n l).
Proof.
  revert l. induction n as [|n IH]; intros l Hl; [constructor|].
  destruct l as [|x l]; [constructor|]. simpl. inversion Hl; subst.
  constructor; [now apply IH|].
  rewrite Forall_forall in *. intros y Hy. apply H2. eapply In_firstn; eauto.
Qed.

(** X27: A page holds at most [limit] rows; they are rows of the thread,
    newest (greatest id) first. *)
Theorem page_is_bounded_and_ordered (thread : Thread) (limit offset : Z)
    (d : ChatDB Thread) (page : list MessageView) :
  getMessagesByThread thread_eqb thread (Some limit) (Some offset) d = inr page ->
  0 <= limit /\ 0 <= offset /\
  exists rows,
    page = map view_of rows /\
    Z.of_nat (length page) <= limit /\
    StronglySorted newer_first rows /\
    forall m, In m rows ->
      In m (chat_messages d) /\ thread_eqb (message_thread m) thread = true.
Proof.
  unfold getMessagesByThread.
  destruct (limit <? 0) eqn:Hl; [discriminate|].
  destruct (offset <? 0) eqn:Ho; [discriminate|].
  apply Z.ltb_ge in Hl, Ho. cbn [orb]. intros Hpage. inversion Hpage; subst page.
  split; [exact Hl|]. split; [exact Ho|].
  eexists. split; [reflexivity|]. split; [|split].
  - rewrite length_map. pose proof (firstn_le_length (Z.to_nat limit)
      (skipn (Z.to_nat offset)
         (order_by_id_desc
            (filter (fun m => thread_eqb (message_thread m) thread) (chat_messages d))))).
    lia.
  - apply sorted_firstn, sorted_skipn, order_by_id_desc_sorted.
  - intros m Hm. apply In_firstn, In_skipn, order_by_id_desc_In, filter_In in Hm.
    exact Hm.
Qed.

(** A negative limit or offset is refused with MySQL's syntax error. *)
Theorem page_rejects_negative (thread : Thread) (limit offset : Z) (d : ChatDB Thread) :
  limit < 0 \/ offset < 0 ->
  getMessagesByThread thread_eqb thread (Some limit) (Some offset) d = inl parse_error.
Proof.
  intros Hneg. unfold getMessagesByThread.
  destruct (limit <? 0) eqn:Hl; [reflexivity|].
  destruct (offset <? 0) eqn:Ho; [reflexivity|].
  apply Z.ltb_ge in Hl, Ho. lia.
Qed.

(** X28: Pages concatenate: the page of [n] rows at offset [k] followed by
    the page of [m] rows at offset [k + n] is the page of [n + m] rows at
    offset [k]; without arguments the page is the first ten rows. *)
Theorem pages_concatenate (thread : Thread) (n m k : Z) (d : ChatDB Thread) :
  0 <= n -> 0 <= m -> 0 <= k ->
  exists first second,
    getMessagesByThread thread_eqb thread (Some n) (Some k) d = inr first /\
    getMessagesByThread thread_eqb thread (Some m) (Some (k + n)) d = inr second /\
    getMessagesByThread thread_eqb thread (Some (n + m)) (Some k) d
      = inr (first ++ second)%list /\
    getMessagesByThread thread_eqb thread None None d
      = getMessagesByThread thread_eqb thread (Some 10) (Some 0) d.
Proof.
  intros Hn Hm Hk. unfold getMessagesByThread.
  replace (n <? 0) with false by (symmetry; apply Z.ltb_ge; lia).
  replace (m <? 0) with false by (symmetry; apply Z.ltb_ge; lia).
  replace (k <? 0) with false by (symmetry; apply Z.ltb_ge; lia).
  replace (k + n <? 0) with false by (symmetry; apply Z.ltb_ge; lia).
  replace (n + m <? 0) with false by (symmetry; apply Z.ltb_ge; lia).
  cbn [orb]. do 2 eexists. split; [reflexivity|]. split; [reflexivity|].
  split; [|reflexivity]. f_equal. rewrite <- map_app. f_equal.
  rewrite !Z2Nat.inj_add by lia. rewrite firstn_plus. f_equal. f_equal.
  rewrite skipn_skipn. f_equal. apply Nat.add_comm.
Qed.

Lemma filter_split_length {R} (f : R -> bool) (l : list R) :
  (length (filter f l) + length (filter (fun x => negb (f x)) l))%nat = length l.
Proof.
  induction l as [|x l IH]; simpl; [reflexivity|].
  destruct (f x); simpl; lia.
Qed.

Lemma filter_filter_negb {R} (f : R -> bool) (l : list R) :
  filter f (filter (fun x => negb (f x)) l) = [].
Proof.
  induction l as [|x l IH]; simpl; [reflexivity|].
  destruct (f x) eqn:Hx; simpl; [exact IH | now rewrite Hx].
Qed.

Lemma filter_negb_idem {R} (f : R -> bool) (l : list R) :
  filter (fun x => negb (f x)) (filter (fun x => negb (f x)) l)
  = filter (fun x => negb (f x)) l.
Proof.
  induction l as [|x l IH]; simpl; [reflexivity|].
  destruct (f x) eqn:Hx; simpl; [exact IH | now rewrite Hx, IH].
Qed.

(** X29: Retention: after the purge at a time, the table holds exactly the
    messages not older than thirty days, the count returned is the number
    of rows that went, and a second purge at that time removes nothing. *)
Theorem purge_keeps_thirty_days (now_ : Z) (d : ChatDB Thread) :
  let '(affected, d') := deleteOldMessages now_ d in
  (forall m, In m (chat_messages d') <->
             In m (chat_messages d) /\ now_ - 30 * 24 * 60 * 60 <= message_timestamp m) /\
  affected + Z.of_nat (length (chat_messages d')) = Z.of_nat (length (chat_messages d)) /\
  next_message_id d' = next_message_id d /\
  deleteOldMessages now_ d' = (0, d').
Proof.
  unfold deleteOldMessages. cbn [chat_messages next_message_id].
  set (old := fun m : Message Thread => message_timestamp m <? now_ - 30 * 24 * 60 * 60).
  split; [|split; [|split]].
  - intros m. rewrite filter_In. unfold old. rewrite negb_true_iff, Z.ltb_ge. tauto.
  - rewrite <- Nat2Z.inj_add. f_equal. apply filter_split_length.
  - reflexivity.
  - now rewrite filter_filter_negb, filter_negb_idem.
Qed.

Lemma order_newest_last (l : list (Message Thread)) (new : Message Thread) :
  Forall (fun m => message_id m < message_id new) l ->
  order_by_id_desc (l ++ [new]) = new :: order_by_id_desc l.
Proof.
  unfold order_by_id_desc. induction 1 as [|x l Hx _ IH]; simpl; [reflexivity|].
  rewrite IH. simpl.
  replace (message_id new <? message_id x) with false
    by (symmetry; apply Z.ltb_ge; lia).
  reflexivity.
Qed.

(** X30: Create, then read: when every id in the table is below the next id,
    a message created in a thread is assigned that id, keeps the ids
    below the next one, and heads the first page of its thread, before
    the rows the page showed until then. *)
Theorem created_message_heads_page (thread : Thread) (role_ content_ : string)
    (now_ n : Z) (d : ChatDB Thread) (page : list MessageView) :
  thread_eqb thread thread = true ->
  ids_assigned d ->
  0 <= n ->
  getMessagesByThread thread_eqb thread (Some n) None d = inr page ->
  let '(id, d') := createMessage timestamp_default thread role_ content_ now_ d in
  id = next_message_id d /\
  ids_assigned d' /\
  getMessagesByThread thread_eqb thread (Some (n + 1)) None d'
    = inr (mkView role_ content_ (timestamp_default now_) :: page).
Proof.
  intros Hrefl Hids Hn Hpage. unfold createMessage.
  split; [reflexivity|]. split.
  - unfold ids_assigned in *. cbn [chat_messages next_message_id].
    apply Forall_app. split.
    + eapply Forall_impl; [|exact Hids]. cbn. intros m Hm. lia.
    + constructor; [cbn; lia | constructor].
  - unfold getMessagesByThread in *.
    replace (n <? 0) with false in Hpage by (symmetry; apply Z.ltb_ge; lia).
    replace (n + 1 <? 0) with false by (symmetry; apply Z.ltb_ge; lia).
    cbn [orb Z.ltb Z.compare Z.to_nat skipn] in *. inversion Hpage; subst page.
    cbn [chat_messages]. rewrite filter_app.
    cbn [filter message_thread]. rewrite Hrefl.
    rewrite order_newest_last.
    + replace (Z.to_nat (n + 1)) with (S (Z.to_nat n)) by lia. reflexivity.
    + unfold ids_assigned in Hids. rewrite Forall_forall in *.
      intros m Hm. apply filter_In in Hm as [Hm _]. cbn. now apply Hids.
Qed.

End Messages.
End ChatFacts.

(** ** The further properties on the sample database *)

Module MoreRuns.
Import Examples Scenario MoreScenario.

Lemma toy_bcrypt_sound : @BcryptSound toy.
Proof. split. intros data rounds salt_. apply String.eqb_refl. Qed.

Lemma session7_authenticates (d : DB) (evs : list EnvEvent) (email : option string)
    (param_email : string) (upload_ : option UploadedFile) :
  @authenticate toy (as_alice email param_email upload_) (disturbed d [] evs) = inr 7.
Proof. vm_compute. reflexivity. Qed.

Lemma populated_whitelist_unique : @whitelist_unique toy populated.
Proof. repeat constructor. intros []. Qed.

Lemma populated_users_unique : @users_unique toy populated.
Proof. repeat constructor. intros []. Qed.

Lemma populated_references_ok : references_ok populated.
Proof.
  intros t [<- | []]. exists alice. split; [now left | reflexivity].
Qed.

Lemma email_pattern_one_at_no_space_witness :
  regex_test email_pattern (Some "a@x.com") = true /\
  js_units "a@x.com" = [97; 64; 120; 46; 99; 111; 109]%N /\
  length (filter (N.eqb at_sign) (js_units "a@x.com")) = 1%nat.
Proof.
  split; [reflexivity | split; [reflexivity|]].
  apply (email_pattern_one_at_no_space "a@x.com"). reflexivity.
Defined.

Lemma whitelist_add_rejects_malformed_witness :
  @authenticate toy add_spaced (world_at populated []) = inr 7 /\
  js_units spaced_address = [97; 8195; 98; 64; 120; 46; 99; 111; 109]%N /\
  @whitelist_add toy add_spaced (world_at populated []) =
  (Return invalid_email_format, world_at populated []).
Proof.
  split; [vm_compute; reflexivity | split; [vm_compute; reflexivity|]].
  apply (@whitelist_add_rejects_malformed toy add_spaced (world_at populated []) 7);
    [vm_compute; reflexivity | | reflexivity].
  right. exists spaced_address. split; [reflexivity|].
  intros Hshape. apply email_pattern_shape in Hshape. vm_compute in Hshape.
  discriminate Hshape.
Defined.

(** The same request when the pool fails: no answer. *)
Example whitelist_add_pool_fails :
  @whitelist_add toy add_malformed (disturbed populated [] pool_fails) =
  (Throw connection_lost, world_at populated []).
Proof. vm_compute. reflexivity. Qed.

Lemma whitelist_add_keeps_unique_witness :
  @kept (@whitelist_unique toy) (world_at populated []) /\
  @whitelist_unique toy (db (snd (@whitelist_add toy add_bob (world_at populated [])))).
Proof.
  assert (Hk : @kept (@whitelist_unique toy) (world_at populated []))
    by (split; [exact populated_whitelist_unique | constructor]).
  split; [exact Hk|].
  exact (@whitelist_add_keeps_unique toy add_bob (world_at populated []) Hk).
Defined.

Lemma whitelist_add_listed_witness :
  @is_whitelisted toy populated (Some "a@x.com") = true /\
  @whitelist_add toy add_alice (world_at populated []) =
  (Return already_whitelisted, world_at populated []).
Proof.
  split; [vm_compute; reflexivity|].
  apply (@whitelist_add_listed toy add_alice (world_at populated []) 7 "a@x.com");
    vm_compute; reflexivity.
Defined.

Lemma whitelist_add_fresh_witness :
  @is_whitelisted toy populated (Some "b@x.com") = false /\
  exists w',
    @whitelist_add toy add_bob (world_at populated []) = (Return whitelist_added, w') /\
    @is_whitelisted toy (db w') (Some "b@x.com") = true.
Proof.
  split; [vm_compute; reflexivity|].
  destruct (@whitelist_add_fresh toy add_bob (world_at populated []) 7 "b@x.com"
              eq_refl ltac:(vm_compute; reflexivity) eq_refl
              ltac:(vm_compute; reflexivity) ltac:(vm_compute; reflexivity))
    as (w' & Hrun & _ & _ & _ & _ & Hlisted & _).
  exists w'. split; assumption.
Defined.

Lemma whitelist_remove_blocks_login_witness :
  schedule (world_at populated []) = [] /\
  @authenticate toy remove_alice (world_at populated []) = inr 7 /\
  exists w',
    @whitelist_remove toy remove_alice (world_at populated []) =
      (Return whitelist_removed, w') /\
    @login toy alice_logs_in w' = (Return not_whitelisted, w').
Proof.
  split; [reflexivity|]. split; [vm_compute; reflexivity|].
  destruct (@whitelist_remove_blocks_login toy remove_alice (world_at populated []) 7
              eq_refl ltac:(vm_compute; reflexivity)) as [_ Hyes].
  destruct (Hyes ltac:(vm_compute; reflexivity)) as (w' & Hrun & _ & _ & Hlogin).
  exists w'. split; [exact Hrun|]. apply Hlogin. reflexivity.
Defined.

Lemma register_fresh_witness :
  schedule (world_at populated []) = [] /\
  exists w',
    @register toy bob_registers (world_at populated []) = (Return user_created, w') /\
    users (db w') = [alice; mkUser 8 "b@x.com" (Toy.hash "pw" 10 "salt")].
Proof.
  split; [reflexivity|].
  destruct (@register_fresh toy bob_registers (world_at populated []) "b@x.com" "pw"
              eq_refl eq_refl eq_refl ltac:(vm_compute; reflexivity))
    as (w' & Hrun & Husers & _).
  exists w'. split; [exact Hrun | exact Husers].
Defined.

Lemma register_then_login_witness :
  @is_whitelisted toy open_house (Some "b@x.com") = true /\
  exists w',
    @register toy bob_registers (world_at open_house []) = (Return user_created, w') /\
    @login toy bob_registers w' =
    (Return (mkResponse 200 (JObj [("token", JStr (Toy.sign 8 secret 1000 (60 * 60)))])),
     w').
Proof.
  split; [vm_compute; reflexivity|].
  exact (@register_then_login toy toy_bcrypt_sound bob_registers bob_registers
           (world_at open_house []) "b@x.com" "pw"
           eq_refl eq_refl eq_refl ltac:(vm_compute; reflexivity)
           ltac:(vm_compute; reflexivity) eq_refl eq_refl).
Defined.

Lemma register_keeps_emails_unique_witness :
  @kept (@users_unique toy) (world_at populated []) /\
  @users_unique toy (db (snd (@register toy bob_registers (world_at populated [])))).
Proof.
  assert (Hk : @kept (@users_unique toy) (world_at populated []))
    by (split; [exact populated_users_unique | constructor]).
  split; [exact Hk|].
  exact (@register_keeps_emails_unique toy bob_registers (world_at populated []) Hk).
Defined.

Lemma login_missing_fields_witness :
  schedule (world_at populated []) = [] /\
  @login toy alice_forgot (world_at populated []) =
  (Return (mkResponse 500 (err_body "data and hash arguments required")),
   world_at populated []).
Proof.
  split; [reflexivity|].
  destruct (@login_missing_fields toy alice_forgot (world_at populated []) eq_refl)
    as [_ Hmissing].
  apply (Hmissing alice); vm_compute; reflexivity.
Defined.

Lemma request_reset_unknown_email_witness :
  @user_by_email toy populated (Some "nobody@x.com") = None /\
  @request_password_reset toy nobody_forgot (world_at populated []) =
  (Return user_not_found, world_at populated []).
Proof.
  split; [vm_compute; reflexivity|].
  apply (@request_reset_unknown_email toy nobody_forgot (world_at populated []));
    vm_compute; reflexivity.
Defined.

Lemma issued_token_validates_witness :
  db later = db (snd (@request_password_reset toy alice_forgot (world_at populated []))) /\
  exists row,
    @verify_reset_token toy validate_reset7 later =
    (Return (mkResponse 200
               (JObj [("valid", JBool true); ("userId", JNum (rt_user_id row))])), later).
Proof.
  assert (Hdb : db later =
                db (snd (@request_password_reset toy alice_forgot (world_at populated []))))
    by (vm_compute; reflexivity).
  split; [exact Hdb|].
  apply (@issued_token_validates toy alice_forgot validate_reset7
           (world_at populated []) later alice
           eq_refl ltac:(vm_compute; reflexivity) eq_refl Hdb
           ltac:(vm_compute; reflexivity) eq_refl).
Defined.

Lemma reset_password_consumes_token_witness :
  schedule (world_at populated []) = [] /\
  exists w',
    @reset_password toy reset_alice (world_at populated []) = (Return password_updated, w') /\
    @verify_reset_token toy validate_reset7 w' = (Return invalid_or_expired, w').
Proof.
  split; [reflexivity|].
  destruct (@reset_password_consumes_token toy reset_alice (world_at populated [])
              (mkToken 1 7 reset7 1900 false) "pw2"
              eq_refl ltac:(vm_compute; reflexivity) eq_refl)
    as (w' & Hrun & Hdb & _ & _ & _ & Hspent).
  exists w'. split; [exact Hrun|].
  assert (Hs : schedule w' = []).
  { vm_compute in Hrun. inversion Hrun. reflexivity. }
  apply (Hspent validate_reset7 w' Hs eq_refl eq_refl).
Defined.

Lemma reset_password_refusals_witness :
  schedule (world_at populated []) = [] /\
  @reset_password toy alice_forgot (world_at populated []) =
  (Return invalid_or_expired, world_at populated []).
Proof.
  split; [reflexivity|].
  destruct (@reset_password_refusals toy alice_forgot (world_at populated []) eq_refl)
    as [Hinvalid _].
  apply Hinvalid. vm_compute. reflexivity.
Defined.

Lemma reset_then_login_witness :
  schedule (world_at populated []) = [] /\
  exists w',
    @reset_password toy reset_alice (world_at populated []) = (Return password_updated, w') /\
    @login toy alice_new_password w' =
    (Return (mkResponse 200 (JObj [("token", JStr (Toy.sign 7 secret 1000 (60 * 60)))])),
     w') /\
    @login toy alice_logs_in w' = (Return invalid_credentials, w').
Proof.
  split; [reflexivity|].
  destruct (@reset_then_login toy toy_bcrypt_sound reset_alice alice_new_password
              (world_at populated []) (mkToken 1 7 reset7 1900 false) alice "pw2"
              eq_refl ltac:(vm_compute; reflexivity) eq_refl
              ltac:(vm_compute; reflexivity) eq_refl ltac:(vm_compute; reflexivity))
    as (w' & Hrun & Hnew & _).
  destruct (@reset_then_login toy toy_bcrypt_sound reset_alice alice_logs_in
              (world_at populated []) (mkToken 1 7 reset7 1900 false) alice "pw2"
              eq_refl ltac:(vm_compute; reflexivity) eq_refl
              ltac:(vm_compute; reflexivity) eq_refl ltac:(vm_compute; reflexivity))
    as (w'' & Hrun' & _ & Hold).
  rewrite Hrun in Hrun'. inversion Hrun'; subst w''.
  exists w'. split; [exact Hrun|]. split.
  - apply Hnew. reflexivity.
  - apply (Hold "pw1"); vm_compute; reflexivity.
Defined.

Lemma delete_file_undisturbed_witness :
  schedule (world_at populated ["uploads/f1"]) = [] /\
  exists r w',
    delete_file delete_report (world_at populated ["uploads/f1"]) = (Return r, w') /\
    status r = 200 /\ disk w' = [] /\ files (db w') = [].
Proof.
  split; [reflexivity|].
  destruct (delete_file_undisturbed delete_report (world_at populated ["uploads/f1"])
              eq_refl) as [_ Hblob].
  destruct (Hblob report ltac:(vm_compute; reflexivity) ltac:(vm_compute; reflexivity))
    as (r & w' & Hrun & Hst & Hdisk & _ & Hfiles & _).
  exists r, w'. repeat split; assumption.
Defined.

Lemma delete_file_200_means_gone_witness :
  delete_file delete_report (world_at populated []) =
  (Return
     (mkResponse 200
        (JObj [("message", JStr "File deleted completely");
               ("details",
                JObj [("dbRecordDeleted", JBool true);
                      ("physicalFileDeleted", JBool true);
                      ("deletedId", JNum 1)])])),
   world_at (set_files populated []) []) /\
  file_by_id (set_files populated []) 1 = None.
Proof.
  assert (Hrun : delete_file delete_report (world_at populated []) =
    (Return
       (mkResponse 200
          (JObj [("message", JStr "File deleted completely");
                 ("details",
                  JObj [("dbRecordDeleted", JBool true);
                        ("physicalFileDeleted", JBool true);
                        ("deletedId", JNum 1)])])),
     world_at (set_files populated []) [])) by (vm_compute; reflexivity).
  split; [exact Hrun|].
  exact (delete_file_200_means_gone delete_report _ _ _ Hrun eq_refl).
Defined.

Lemma upload_fresh_name_witness :
  @filename_taken toy populated "notes.txt" = false /\
  exists w',
    @upload toy upload_notes (world_at populated []) =
    (Return (mkResponse 200
               (JObj [("message", JStr "File uploaded successfully");
                      ("fileId", JNum 2);
                      ("path", JStr "uploads/f2")])), w') /\
    files (db w') = [report; mkFile 2 "notes.txt" "uploads/f2"] /\
    disk w' = ["uploads/f2"].
Proof.
  split; [vm_compute; reflexivity|].
  destruct (@upload_fresh_name toy upload_notes (world_at populated []) 7 notes
              eq_refl ltac:(vm_compute; reflexivity) eq_refl
              ltac:(vm_compute; reflexivity))
    as (w' & Hrun & Hfiles & _ & Hdisk & _).
  exists w'. repeat split; assumption.
Defined.

Lemma upload_lost_race_witness :
  @filename_taken toy populated "notes.txt" = false /\
  @upload toy upload_notes (disturbed populated [] [quiet; rival_uploads_notes]) =
  (Return (mkResponse 500
             (err_body "Duplicate entry 'notes.txt' for key 'files.filename'")),
   world_at (set_files populated [report; mkFile 9 "notes.txt" "uploads/r"])
            ["uploads/f2"]).
Proof.
  split; [vm_compute; reflexivity|].
  apply (@upload_lost_race toy upload_notes populated [] 1000 secret "salt"
           (fun d => d)
           (fun d => set_files d (files d ++ [mkFile 9 "notes.txt" "uploads/r"]))
           [] 7 notes); vm_compute; reflexivity.
Defined.

Lemma authenticate_ignores_scheme_witness :
  @authenticate toy token_scheme (world_at populated []) = inr 7 /\
  @authenticate toy token_scheme (world_at populated []) =
  @authenticate toy bearer_scheme (world_at populated []).
Proof.
  split; [vm_compute; reflexivity|].
  apply (@authenticate_ignores_scheme toy token_scheme bearer_scheme
           (world_at populated []) "Token" session7 "").
  - intros c Hc. simpl in Hc.
    repeat (destruct Hc as [<- | Hc]; [discriminate|]). contradiction.
  - apply ToyFacts.sign_no_space.
  - now left.
  - vm_compute. reflexivity.
  - reflexivity.
Defined.

Lemma referential_integrity_kept_witness :
  references_ok populated /\
  references_ok (db (snd (@delete_user toy AccountScenario.alice_leaves
                            (world_at populated [])))).
Proof.
  split; [exact populated_references_ok|].
  apply (@referential_integrity_kept toy AccountScenario.alice_leaves
           (world_at populated []) eq_refl populated_references_ok).
Defined.

Lemma page_is_bounded_and_ordered_witness :
  Chat.getMessagesByThread String.eqb "t1" (Some 1) (Some 0) chat
    = inr [Chat.mkView "assistant" "hi" 120] /\
  exists rows,
    [Chat.mkView "assistant" "hi" 120] = map Chat.view_of rows /\
    StronglySorted (@Chat.newer_first string) rows.
Proof.
  split; [reflexivity|].
  destruct (ChatFacts.page_is_bounded_and_ordered string String.eqb "t1" 1 0 chat
              [Chat.mkView "assistant" "hi" 120] eq_refl)
    as (_ & _ & rows & Hpage & _ & Hsorted & _).
  exists rows. split; assumption.
Defined.

Lemma pages_concatenate_witness :
  0 <= 1 /\
  exists first second,
    Chat.getMessagesByThread String.eqb "t1" (Some 1) (Some 0) chat = inr first /\
    Chat.getMessagesByThread String.eqb "t1" (Some 1) (Some 1) chat = inr second /\
    Chat.getMessagesByThread String.eqb "t1" (Some 2) (Some 0) chat
      = inr (first ++ second)%list.
Proof.
  split; [lia|].
  destruct (ChatFacts.pages_concatenate string String.eqb "t1" 1 1 0 chat
              ltac:(lia) ltac:(lia) ltac:(lia))
    as (first & second & H1 & H2 & H3 & _).
  exists first, second. repeat split; assumption.
Defined.

Lemma created_message_heads_page_witness :
  Chat.ids_assigned chat /\
  Chat.getMessagesByThread String.eqb "t1" (Some 2) None
    (snd (Chat.createMessage (fun t => t) "t1" "user" "bye" 130 chat))
  = inr [Chat.mkView "user" "bye" 130; Chat.mkView "assistant" "hi" 120].
Proof.
  assert (Hids : Chat.ids_assigned chat).
  { unfold Chat.ids_assigned. cbn. repeat constructor. }
  split; [exact Hids|].
  apply (ChatFacts.created_message_heads_page string String.eqb (fun t => t)
           "t1" "user" "bye" 130 1 chat [Chat.mkView "assistant" "hi" 120]
           eq_refl Hids ltac:(lia) eq_refl).
Defined.

End MoreRuns.
